(** * DCMConverter: the pixel normalisation pipeline of [dcm_converter.py]

    A shallow embedding of [DCMConverter._normalize_pixel_array] and
    [DCMConverter._extract_frames], with the fragment of NumPy they use,
    and of the methods around them: [_frame_to_pil_image], [convert_dicom],
    [diagnose_dicom] and [convert_directory].

    - An [ndarray] is a shape together with its elements in C (row-major)
      order.  Integer arrays carry their dtype (signedness and width) and
      hold their elements as [Z]; arithmetic that NumPy performs in the
      array's dtype wraps around, and the wrap is written out ([wrap]).
    - [float64] values are kept abstract behind the interface [Float64]:
      the pipeline is written once over that interface and run with the
      instance [binary64], which is the kernel's IEEE-754 binary64
      arithmetic.  A second instance, [exactQ], computes with exact
      rationals.
    - Python exceptions are values of [exn]; code that may raise returns a
      [result].  Logging is not modelled: it has no effect on any value.
    - [apply_voi_lut] and [Dataset.decompress] belong to pydicom; they are
      parameters of the embedding.  So are [Image.fromarray] and
      [Image.save] of PIL, [dcmread], and the calls of [pathlib] into the
      file system, whose state is passed along. *)

From Stdlib Require Import String.
From Stdlib Require Import NArith ZArith List Bool Lia Floats QArith Qround.
Import ListNotations.

Set Implicit Arguments.
Open Scope Z_scope.

(* ================================================================== *)
(** ** Exceptions and results *)

(** Every exception the two methods can see.  The three [ValueError]s that
    [_extract_frames] raises itself are told apart by their message. *)
Inductive exn : Type :=
| UnsupportedShape (shape : list N)
    (* ValueError("Unsupported pixel array shape: ...") *)
| NoFramesNormalized
    (* ValueError("No frames could be successfully normalized") *)
| CouldNotExtract (cause : exn)
    (* ValueError(f"Could not extract pixel data: {e}") *)
| ZeroSizeReduction
    (* ValueError: zero-size array to reduction operation *)
| TypeError
| IndexError
| OverflowError
| RecursionError
| LibraryError (tag : nat).
    (* anything raised inside pydicom *)

Inductive result (A : Type) : Type :=
| Ok (a : A)
| Raise (e : exn).

Arguments Ok {A} a.
Arguments Raise {A} e.

Definition bind {A B : Type} (r : result A) (k : A -> result B) : result B :=
  match r with
  | Ok a => k a
  | Raise e => Raise e
  end.

(** [try: body except Exception: handler]. *)
Definition try_except {A : Type} (body : result A) (handler : exn -> result A)
  : result A :=
  match body with
  | Ok a => Ok a
  | Raise e => handler e
  end.

Declare Scope py_scope.
Delimit Scope py_scope with py.
Notation "x <- r ;; k" := (bind r (fun x => k))
  (at level 61, r at next level, right associativity) : py_scope.
Open Scope py_scope.

Definition is_ok {A : Type} (r : result A) : bool :=
  match r with Ok _ => true | Raise _ => false end.

(* ================================================================== *)
(** ** The float64 interface *)

Class Float64 (F : Type) : Type := {
  f_of_Z : Z -> F;            (* conversion of an integer, as astype(float64) *)
  f_add : F -> F -> F;
  f_sub : F -> F -> F;
  f_mul : F -> F -> F;
  f_div : F -> F -> F;
  f_ltb : F -> F -> bool;
  f_leb : F -> F -> bool;
  f_is_nan : F -> bool;
  f_is_finite : F -> bool;
  f_floor : F -> F;           (* math.floor as a float *)
  f_trunc : F -> Z            (* the C cast to an integer type: toward zero *)
}.

(** *** IEEE-754 binary64, on the kernel's primitive floats *)

Definition b64_of_Z (z : Z) : float :=
  SF2Prim (binary_normalize prec emax z 0 false).

(** Truncation toward zero.  The C cast of a NaN or an infinity is not
    defined; 0 is what x86-64 builds of NumPy store in a [uint8]. *)
Definition b64_trunc (x : float) : Z :=
  match Prim2SF x with
  | S754_finite s m e =>
      let a := if 0 <=? e then Z.shiftl (Z.pos m) e
               else Z.shiftr (Z.pos m) (- e) in
      if s then - a else a
  | _ => 0
  end.

Definition b64_floor (x : float) : float :=
  match Prim2SF x with
  | S754_finite s m e =>
      if 0 <=? e then x
      else
        let q := Z.shiftr (Z.pos m) (- e) in
        let exact := Z.eqb (Z.shiftl q (- e)) (Z.pos m) in
        if s then
          (if exact then b64_of_Z (- q) else b64_of_Z (- q - 1))
        else
          (if Z.eqb q 0 then PrimFloat.zero else b64_of_Z q)
  | _ => x
  end.

#[export] Instance binary64 : Float64 float := {|
  f_of_Z := b64_of_Z;
  f_add := PrimFloat.add;
  f_sub := PrimFloat.sub;
  f_mul := PrimFloat.mul;
  f_div := PrimFloat.div;
  f_ltb := PrimFloat.ltb;
  f_leb := PrimFloat.leb;
  f_is_nan := PrimFloat.is_nan;
  f_is_finite := PrimFloat.is_finite;
  f_floor := b64_floor;
  f_trunc := b64_trunc
|}.

(** *** Exact rational arithmetic *)

Definition Q_ltb (x y : Q) : bool := negb (Qle_bool y x).

Definition Q_trunc (x : Q) : Z :=
  if Qle_bool 0 x then Qfloor x else Qceiling x.

Definition exactQ : Float64 Q := {|
  f_of_Z := inject_Z;
  f_add := Qplus;
  f_sub := Qminus;
  f_mul := Qmult;
  f_div := Qdiv;
  f_ltb := Q_ltb;
  f_leb := Qle_bool;
  f_is_nan := fun _ => false;
  f_is_finite := fun _ => true;
  f_floor := fun x => inject_Z (Qfloor x);
  f_trunc := Q_trunc
|}.

(* ================================================================== *)
(** ** Integer dtypes *)

(** An integer dtype: its signedness and its width in bits. *)
Record int_dtype : Type := IntType { signed : bool; bits : N }.

Definition uint8 := IntType false 8.
Definition int8 := IntType true 8.
Definition uint16 := IntType false 16.
Definition int16 := IntType true 16.
Definition int32 := IntType true 32.
Definition int64 := IntType true 64.

Definition int_dtype_eqb (a b : int_dtype) : bool :=
  Bool.eqb (signed a) (signed b) && N.eqb (bits a) (bits b).

Definition dtype_min (t : int_dtype) : Z :=
  if signed t then - 2 ^ (Z.of_N (bits t) - 1) else 0.

Definition dtype_max (t : int_dtype) : Z :=
  if signed t then 2 ^ (Z.of_N (bits t) - 1) - 1 else 2 ^ Z.of_N (bits t) - 1.

Definition in_range (t : int_dtype) (z : Z) : bool :=
  (dtype_min t <=? z) && (z <=? dtype_max t).

(** The value NumPy stores when the exact result [z] of an operation in
    dtype [t] does not fit: two's complement wrap-around. *)
Definition wrap (t : int_dtype) (z : Z) : Z :=
  let m := 2 ^ Z.of_N (bits t) in
  if signed t then (z + m / 2) mod m - m / 2 else z mod m.

(* ================================================================== *)
(** ** Arrays *)

Section Arrays.

Context {F : Type} {FO : Float64 F}.

(** The elements of an array in C order, with their dtype. *)
Inductive buffer : Type :=
| IntBuf (t : int_dtype) (l : list Z)
| FloatBuf (l : list F).

Record ndarray : Type := NdArray { shape : list N; buf : buffer }.

Definition size (a : ndarray) : nat :=
  match buf a with
  | IntBuf _ l => length l
  | FloatBuf l => length l
  end.

Definition is_uint8 (a : ndarray) : bool :=
  match buf a with
  | IntBuf t _ => int_dtype_eqb t uint8
  | FloatBuf _ => false
  end.

Definition shape_size (s : list N) : N := fold_right N.mul 1%N s.

(** An array as the decoder hands it over: as many elements as its shape
    says, each within its dtype. *)
Definition well_formed (a : ndarray) : Prop :=
  N.of_nat (size a) = shape_size (shape a) /\
  match buf a with
  | IntBuf t l => Forall (fun z => in_range t z = true) l
  | FloatBuf _ => True
  end.

Definition map_buffer (f : forall A : Type, list A -> list A) (b : buffer)
  : buffer :=
  match b with
  | IntBuf t l => IntBuf t (f Z l)
  | FloatBuf l => FloatBuf (f F l)
  end.

(** *** Indexing *)

(** [block i n l]: the [i]-th run of [n] consecutive elements. *)
Definition block (i n : N) (A : Type) (l : list A) : list A :=
  firstn (N.to_nat n) (skipn (N.to_nat (i * n)) l).

(** [column i k l]: the elements at positions [i], [i+k], [i+2k], ... *)
Fixpoint column_from (pos : N) (i k : N) (A : Type) (l : list A) : list A :=
  match l with
  | [] => []
  | x :: t =>
      let rest := column_from (N.succ pos) i k t in
      if N.eqb (pos mod k) i then x :: rest else rest
  end.

Definition column (i k : N) (A : Type) (l : list A) : list A :=
  column_from 0 i k l.

(** [a[i]]: the [i]-th sub-array along the first axis. *)
Definition index_first (a : ndarray) (i : N) : ndarray :=
  let s := tl (shape a) in
  NdArray s (map_buffer (block i (shape_size s)) (buf a)).

(** [a[:, :, i]] for a rank-3 array: the [i]-th plane along the last axis. *)
Definition index_last (a : ndarray) (i : N) : ndarray :=
  let k := nth 2 (shape a) 0%N in
  NdArray (firstn 2 (shape a)) (map_buffer (column i k) (buf a)).

(** [a[i, :, :, 0]] for a rank-4 array. *)
Definition index_first_channel0 (a : ndarray) (i : N) : ndarray :=
  let f := index_first a i in
  let k := nth 2 (shape f) 0%N in
  NdArray (firstn 2 (shape f)) (map_buffer (column 0 k) (buf f)).

(** [range(n)]. *)
Definition range (n : N) : list N := map N.of_nat (seq 0 (N.to_nat n)).

(** *** Reductions *)

(** The ufunc loops of [np.minimum] and [np.maximum] on floats: a NaN
    operand wins. *)
Definition f_minimum (x y : F) : F :=
  if f_ltb x y || f_is_nan x then x else y.

Definition f_maximum (x y : F) : F :=
  if f_leb y x || f_is_nan x then x else y.

(** [np.min] and [np.max] over all elements; the scalar they return has the
    array's dtype. *)
Inductive scalar : Type :=
| IntScalar (t : int_dtype) (z : Z)
| FloatScalar (x : F).

Definition reduce {A : Type} (op : A -> A -> A) (l : list A) : result A :=
  match l with
  | [] => Raise ZeroSizeReduction
  | x :: t => Ok (fold_left op t x)
  end.

Definition np_min (a : ndarray) : result scalar :=
  match buf a with
  | IntBuf t l => z <- reduce Z.min l ;; Ok (IntScalar t z)
  | FloatBuf l => x <- reduce f_minimum l ;; Ok (FloatScalar x)
  end.

Definition np_max (a : ndarray) : result scalar :=
  match buf a with
  | IntBuf t l => z <- reduce Z.max l ;; Ok (IntScalar t z)
  | FloatBuf l => x <- reduce f_maximum l ;; Ok (FloatScalar x)
  end.

(** [x > y] on two scalars of one dtype. *)
Definition scalar_gt (x y : scalar) : bool :=
  match x, y with
  | IntScalar _ a, IntScalar _ b => b <? a
  | FloatScalar a, FloatScalar b => f_ltb b a
  | IntScalar _ a, FloatScalar b => f_ltb b (f_of_Z a)
  | FloatScalar a, IntScalar _ b => f_ltb (f_of_Z b) a
  end.

(** [x - y] on two scalars: computed in their dtype, so an integer
    difference wraps. *)
Definition scalar_sub (x y : scalar) : scalar :=
  match x, y with
  | IntScalar t a, IntScalar _ b => IntScalar t (wrap t (a - b))
  | FloatScalar a, FloatScalar b => FloatScalar (f_sub a b)
  | IntScalar _ a, FloatScalar b => FloatScalar (f_sub (f_of_Z a) b)
  | FloatScalar a, IntScalar _ b => FloatScalar (f_sub a (f_of_Z b))
  end.

Definition scalar_to_float (x : scalar) : F :=
  match x with
  | IntScalar _ z => f_of_Z z
  | FloatScalar v => v
  end.

(** [a.astype(np.float64)], as a list of floats. *)
Definition as_float64 (b : buffer) : list F :=
  match b with
  | IntBuf _ l => map f_of_Z l
  | FloatBuf l => l
  end.

(** [m - a] for a scalar [m] and an array [a].  Where both are integers
    the difference is computed in the array's dtype and wraps; [np.max(a) - a]
    is always that case or the all-float one. *)
Definition scalar_minus_array (m : scalar) (a : ndarray) : ndarray :=
  NdArray (shape a)
    match m, buf a with
    | IntScalar _ z, IntBuf t l => IntBuf t (map (fun v => wrap t (z - v)) l)
    | _, b => FloatBuf (map (fun v => f_sub (scalar_to_float m) v)
                            (as_float64 b))
    end.

End Arrays.

Arguments buffer F : clear implicits.
Arguments ndarray F : clear implicits.
Arguments scalar F : clear implicits.

(* ================================================================== *)
(** ** Python numbers and [np.clip] *)

Section Clip.

Context {F : Type} {FO : Float64 F}.

(** The values a dataset attribute can hold, as far as the windowing code
    tells them apart.  pydicom's [IS] and [DSfloat] are subclasses of [int]
    and [float]; [PyOther] stands for any object that is neither a number
    nor a list or tuple (a list nested in a list is one). *)
Inductive pyscalar : Type :=
| PyInt (z : Z)
| PyFloat (x : F)
| PyOther.

Inductive pyval : Type :=
| Scalar (v : pyscalar)
| Sequence (l : list pyscalar).   (* a list or a tuple *)

(** A Python number. *)
Inductive pynum : Type :=
| NumInt (z : Z)
| NumFloat (x : F).

(** [if isinstance(v, (list, tuple)): v = v[0]]. *)
Definition first_if_sequence (v : pyval) : result pyscalar :=
  match v with
  | Sequence [] => Raise IndexError
  | Sequence (x :: _) => Ok x
  | Scalar x => Ok x
  end.

Definition as_number (v : pyscalar) : result pynum :=
  match v with
  | PyInt z => Ok (NumInt z)
  | PyFloat x => Ok (NumFloat x)
  | PyOther => Raise TypeError
  end.

(** [float(z)] for a Python int: an int beyond the float range raises. *)
Definition py_float_of_int (z : Z) : result F :=
  let x := f_of_Z z in
  if f_is_finite x then Ok x else Raise OverflowError.

Definition py_to_float (n : pynum) : result F :=
  match n with
  | NumInt z => py_float_of_int z
  | NumFloat x => Ok x
  end.

(** [x // 2] on a float: the floor of the exact half, NaN for an infinity
    or a NaN. *)
Definition float_floordiv2 (x : F) : F :=
  if f_is_finite x then
    let fx := f_floor x in
    let k := f_trunc fx in
    if k =? 0 then fx else f_of_Z (k / 2)
  else f_sub x x.

(** [v // 2]. *)
Definition py_floordiv2 (v : pyscalar) : result pynum :=
  n <- as_number v ;;
  match n with
  | NumInt z => Ok (NumInt (z / 2))
  | NumFloat x => Ok (NumFloat (float_floordiv2 x))
  end.

Definition py_arith (iop : Z -> Z -> Z) (fop : F -> F -> F) (a b : pynum)
  : result pynum :=
  match a, b with
  | NumInt x, NumInt y => Ok (NumInt (iop x y))
  | _, _ =>
      x <- py_to_float a ;;
      y <- py_to_float b ;;
      Ok (NumFloat (fop x y))
  end.

Definition py_sub := py_arith Z.sub f_sub.
Definition py_add := py_arith Z.add f_add.

(** *** The dtype of [np.clip(a, lo, hi)] for Python scalars [lo], [hi]

    NumPy 1.x casts a Python int by its value: the scalar counts as the
    smallest integer type that holds it, and a non-negative scalar that also
    fits the signed type of that width does not force a signed array to
    widen.  A Python float with an integer array gives float64.  Scalars
    outside the 64-bit integer types are not modelled: the call is taken to
    raise. *)
Inductive dtype : Type :=
| DInt (t : int_dtype)
| DFloat64.

Definition min_bits (fits : N -> bool) : option N :=
  find fits [8; 16; 32; 64]%N.

Definition promote_scalar (t : int_dtype) (z : Z) : option dtype :=
  if 0 <=? z then
    match min_bits (fun b => z <? 2 ^ Z.of_N b) with
    | None => None
    | Some b =>
        if signed t then
          if z <? 2 ^ (Z.of_N b - 1) then Some (DInt (IntType true (N.max (bits t) b)))
          else
            let b' := N.max (bits t) (2 * b) in
            if (b' <=? 64)%N then Some (DInt (IntType true b')) else Some DFloat64
        else Some (DInt (IntType false (N.max (bits t) b)))
    end
  else
    match min_bits (fun b => - 2 ^ (Z.of_N b - 1) <=? z) with
    | None => None
    | Some b =>
        if signed t then Some (DInt (IntType true (N.max (bits t) b)))
        else
          let b' := N.max (2 * bits t) b in
          if (b' <=? 64)%N then Some (DInt (IntType true b')) else Some DFloat64
    end.

Definition np_result_type (t : int_dtype) (lo hi : Z) : option dtype :=
  match promote_scalar t lo with
  | Some (DInt t1) => promote_scalar t1 hi
  | Some DFloat64 =>
      match promote_scalar t hi with
      | Some _ => Some DFloat64
      | None => None
      end
  | None => None
  end.

(** *** The loops of the clip ufunc *)

Definition clip_int (lo hi v : Z) : Z := Z.min (Z.max v lo) hi.

(** On floats a NaN element stays a NaN. *)
Definition clip_max (a b : F) : F :=
  if f_is_nan a then a else if f_ltb b a then a else b.

Definition clip_min (a b : F) : F :=
  if f_is_nan a then a else if f_ltb a b then a else b.

Definition clip_float (lo hi v : F) : F := clip_min (clip_max v lo) hi.

Definition np_clip (a : ndarray F) (lo hi : pynum) : result (ndarray F) :=
  match buf a, lo, hi with
  | IntBuf t l, NumInt zl, NumInt zh =>
      match np_result_type t zl zh with
      | Some (DInt t') => Ok (NdArray (shape a) (IntBuf t' (map (clip_int zl zh) l)))
      | Some DFloat64 =>
          Ok (NdArray (shape a)
                (FloatBuf (map (clip_float (f_of_Z zl) (f_of_Z zh)) (map f_of_Z l))))
      | None => Raise OverflowError
      end
  | b, _, _ =>
      fl <- py_to_float lo ;;
      fh <- py_to_float hi ;;
      Ok (NdArray (shape a) (FloatBuf (map (clip_float fl fh) (as_float64 b))))
  end.

End Clip.

Arguments pyscalar F : clear implicits.
Arguments pyval F : clear implicits.
Arguments pynum F : clear implicits.

(* ================================================================== *)
(** ** The dataset *)

(** What the two methods read of a [pydicom.Dataset].  An absent attribute
    is [None]; [pixel_array] is a property whose evaluation decodes the
    pixel data and may raise. *)
Record Dataset (F : Type) : Type := {
  pixel_array : result (ndarray F);
  has_PixelData : bool;
  PhotometricInterpretation : option string;
  WindowCenter : option (pyval F);
  WindowWidth : option (pyval F)
}.

(** [try: body except Exception: handler], where the handler only chooses
    the value to go on with. *)
Definition catch {A : Type} (body : result A) (handler : exn -> A) : A :=
  match body with
  | Ok a => a
  | Raise e => handler e
  end.

(* ================================================================== *)
(** ** [DCMConverter._normalize_pixel_array] *)

Section Normalize.

Context {F : Type} {FO : Float64 F}.

(** [pydicom.pixel_data_handlers.util.apply_voi_lut]. *)
Variable apply_voi_lut : ndarray F -> Dataset F -> result (ndarray F).

(** Lines 81-92: the body of the inner [try]. *)
Definition manual_windowing (pixel_array : ndarray F)
                            (window_center window_width : pyval F)
  : result (ndarray F) :=
  window_center <- first_if_sequence window_center ;;
  window_width <- first_if_sequence window_width ;;
  half <- py_floordiv2 window_width ;;
  center <- as_number window_center ;;
  img_min <- py_sub center half ;;
  half' <- py_floordiv2 window_width ;;
  img_max <- py_add center half' ;;
  np_clip pixel_array img_min img_max.

(** Lines 69-95: the VOI LUT, and manual windowing when it raises. *)
Definition windowing (pixel_array : ndarray F) (dataset : Dataset F)
  : ndarray F :=
  catch (apply_voi_lut pixel_array dataset)
    (fun _ =>
       match WindowCenter dataset, WindowWidth dataset with
       | Some window_center, Some window_width =>
           catch (manual_windowing pixel_array window_center window_width)
                 (fun _ => pixel_array)
       | _, _ => pixel_array
       end).

(** Lines 97-103: the photometric interpretation. *)
Definition photometric (dataset : Dataset F) : string :=
  match PhotometricInterpretation dataset with
  | Some s => s
  | None => EmptyString
  end.

Definition invert_monochrome1 (pixel_array : ndarray F) (dataset : Dataset F)
  : result (ndarray F) :=
  if String.eqb (photometric dataset) "MONOCHROME1" then
    m <- np_max pixel_array ;;
    Ok (scalar_minus_array m pixel_array)
  else Ok pixel_array.

(** Line 116 and 117 on one element: [v] is the element as a float64,
    [pixel_min] and [range] are the scalars [pixel_min] and
    [pixel_max - pixel_min] as float64. *)
Definition rescale (pixel_min range v : F) : F :=
  f_mul (f_div (f_sub v pixel_min) range) (f_of_Z 255).

(** [x.astype(np.uint8)] on a float64. *)
Definition astype_uint8 (x : F) : Z := wrap uint8 (f_trunc x).

Definition rescale_uint8 (pixel_min range v : F) : Z :=
  astype_uint8 (clip_float (f_of_Z 0) (f_of_Z 255) (rescale pixel_min range v)).

(** [np.full_like(a, 128, dtype=np.uint8)]. *)
Definition full_like_128 (a : ndarray F) : ndarray F :=
  NdArray (shape a) (IntBuf uint8 (repeat 128 (size a))).

(** Lines 105-121: the normalisation to 0-255. *)
Definition intensity_normalize (pixel_array : ndarray F) : result (ndarray F) :=
  if negb (is_uint8 pixel_array) then
    pixel_min <- np_min pixel_array ;;
    pixel_max <- np_max pixel_array ;;
    if scalar_gt pixel_max pixel_min then
      let range := scalar_to_float (scalar_sub pixel_max pixel_min) in
      Ok (NdArray (shape pixel_array)
            (IntBuf uint8
               (map (rescale_uint8 (scalar_to_float pixel_min) range)
                    (as_float64 (buf pixel_array)))))
    else Ok (full_like_128 pixel_array)
  else Ok pixel_array.

Definition _normalize_pixel_array (pixel_array : ndarray F) (dataset : Dataset F)
  : result (ndarray F) :=
  let pixel_array := windowing pixel_array dataset in
  pixel_array <- invert_monochrome1 pixel_array dataset ;;
  intensity_normalize pixel_array.

End Normalize.

(* ================================================================== *)
(** ** [DCMConverter._extract_frames] *)

Section ExtractFrames.

Context {F : Type} {FO : Float64 F}.

Variable apply_voi_lut : ndarray F -> Dataset F -> result (ndarray F).

(** [Dataset.decompress()] changes the dataset in place; here it returns
    the dataset as it is afterwards. *)
Variable decompress : Dataset F -> result (Dataset F).

Definition rank (a : ndarray F) : nat := length (shape a).

(** [a.shape[k]]. *)
Definition dim (a : ndarray F) (k : nat) : N := nth k (shape a) 0%N.

(** Lines 141-178: the frames of a pixel array, by its shape. *)
Definition split_frames (pixel_array : ndarray F) : result (list (ndarray F)) :=
  match rank pixel_array with
  | 2%nat => Ok [pixel_array]
  | 3%nat =>
      if (dim pixel_array 2 =? 3)%N then Ok [pixel_array]
      else if (dim pixel_array 0 <? dim pixel_array 1)%N
              && (dim pixel_array 0 <? dim pixel_array 2)%N then
        Ok (map (index_first pixel_array) (range (dim pixel_array 0)))
      else if (3 <? dim pixel_array 2)%N then
        Ok (map (index_last pixel_array) (range (dim pixel_array 2)))
      else Ok [pixel_array]
  | 4%nat =>
      if (dim pixel_array 3 =? 1)%N then
        Ok (map (index_first_channel0 pixel_array) (range (dim pixel_array 0)))
      else if (dim pixel_array 3 =? 3)%N then
        Ok (map (index_first pixel_array) (range (dim pixel_array 0)))
      else Ok [index_first pixel_array 0]
  | _ => Raise (UnsupportedShape (shape pixel_array))
  end.

(** Lines 181-189: one turn of the loop, on the list built so far. *)
Definition normalize_step (dataset : Dataset F)
                          (normalized_frames : list (ndarray F))
                          (frame : ndarray F) : list (ndarray F) :=
  match _normalize_pixel_array apply_voi_lut frame dataset with
  | Ok normalized_frame => normalized_frames ++ [normalized_frame]
  | Raise _ => normalized_frames
  end.

Definition normalize_frames (frames : list (ndarray F)) (dataset : Dataset F)
  : list (ndarray F) :=
  fold_left (normalize_step dataset) frames [].

(** Lines 137-194: the body of the outer [try]. *)
Definition extract_frames_body (dataset : Dataset F)
  : result (list (ndarray F)) :=
  pixel_array <- pixel_array dataset ;;
  frames <- split_frames pixel_array ;;
  let normalized_frames := normalize_frames frames dataset in
  match normalized_frames with
  | [] => Raise NoFramesNormalized
  | _ :: _ => Ok normalized_frames
  end.

(** Lines 199-208: the retry after a forced decompression; [None] when the
    dataset has no [PixelData].  [again] is the recursive call. *)
Definition retry_decompressed (again : Dataset F -> result (list (ndarray F)))
                              (dataset : Dataset F)
  : result (option (list (ndarray F))) :=
  if has_PixelData dataset then
    dataset' <- decompress dataset ;;
    _ <- pixel_array dataset' ;;
    frames <- again dataset' ;;
    Ok (Some frames)
  else Ok None.

(** The whole method.  [depth] is the number of Python stack frames left:
    a call with none left raises [RecursionError]. *)
Fixpoint _extract_frames (depth : nat) (dataset : Dataset F)
  : result (list (ndarray F)) :=
  match depth with
  | O => Raise RecursionError
  | S depth' =>
      try_except (extract_frames_body dataset)
        (fun e =>
           match retry_decompressed (_extract_frames depth') dataset with
           | Ok (Some frames) => Ok frames
           | _ => Raise (CouldNotExtract e)
           end)
  end.

End ExtractFrames.

(* ================================================================== *)
(** ** [DCMConverter._frame_to_pil_image] *)

(** The modes the method asks PIL for. *)
Inductive image_mode : Type :=
| ModeL      (* 'L': one byte a pixel *)
| ModeRGB.   (* 'RGB': three bytes a pixel *)

(** What the method raises: its own two [ValueError]s, or what NumPy or PIL
    raised. *)
Inductive image_exn : Type :=
| CannotConvertFrame (shape : list N)   (* "Cannot convert frame with shape ..." *)
| ZeroWidthOrHeight                     (* "Created image has zero width or height" *)
| Raised (e : exn).

Inductive outcome (A : Type) : Type :=
| Returns (a : A)
| Raises (e : image_exn).

Arguments Returns {A} a.
Arguments Raises {A} e.

(** A call into NumPy or PIL inside the method. *)
Definition lift {A : Type} (r : result A) : outcome A :=
  match r with
  | Ok a => Returns a
  | Raise e => Raises (Raised e)
  end.

Definition bind_outcome {A B : Type} (r : outcome A) (k : A -> outcome B)
  : outcome B :=
  match r with
  | Returns a => k a
  | Raises e => Raises e
  end.

Section FrameToImage.

Context {F : Type} {FO : Float64 F}.

(** [PIL.Image.Image], [Image.fromarray(obj, mode=...)] and [Image.size],
    which is (width, height). *)
Variable Image : Type.
Variable fromarray : ndarray F -> image_mode -> result Image.
Variable image_size : Image -> N * N.

(** [a.astype(np.uint8)]: an integer wraps, a float64 loses its fraction
    first. *)
Definition astype_uint8_array (a : ndarray F) : ndarray F :=
  NdArray (shape a)
    (IntBuf uint8
       match buf a with
       | IntBuf _ l => map (wrap uint8) l
       | FloatBuf l => map astype_uint8 l
       end).

(** Lines 225-227. *)
Definition ensure_uint8 (frame : ndarray F) : result (ndarray F) :=
  if negb (is_uint8 frame) then
    clipped <- np_clip frame (NumInt 0) (NumInt 255) ;;
    Ok (astype_uint8_array clipped)
  else Ok frame.

(** [np.mean(frame, axis=2).astype(np.uint8)], line 246.  The elements of a
    pixel are added as float64 and the sum is divided by their number, the
    length of the last axis.  NumPy adds in blocks; the partial sums of
    uint8 elements are whole numbers that float64 holds exactly, so the
    order of the additions does not change the sum. *)
Definition mean_pixel (k : N) (pixel : list F) : F :=
  f_div (fold_left f_add pixel (f_of_Z 0)) (f_of_Z (Z.of_N k)).

Definition mean_channels (frame : ndarray F) : ndarray F :=
  let k := dim frame 2 in
  NdArray (firstn 2 (shape frame))
    (IntBuf uint8
       (map (fun i => astype_uint8
                        (mean_pixel k (block i k (as_float64 (buf frame)))))
            (range (dim frame 0 * dim frame 1)))).

(** Lines 230-250: the array and the mode handed to [Image.fromarray]. *)
Definition pil_source (frame : ndarray F)
  : outcome (ndarray F * image_mode) :=
  match rank frame with
  | 2%nat => Returns (frame, ModeL)
  | 3%nat =>
      if (dim frame 2 =? 3)%N then Returns (frame, ModeRGB)
      else if (dim frame 2 =? 1)%N then
        let frame_2d := index_last frame 0 in
        Returns (frame_2d, ModeL)
      else
        let frame_2d := mean_channels frame in
        Returns (frame_2d, ModeL)
  | _ => Raises (CannotConvertFrame (shape frame))
  end.

(** The whole method. *)
Definition _frame_to_pil_image (frame : ndarray F) : outcome Image :=
  bind_outcome (lift (ensure_uint8 frame)) (fun frame =>
  bind_outcome (pil_source frame) (fun '(array, mode) =>
  bind_outcome (lift (fromarray array mode)) (fun pil_image =>
  if (fst (image_size pil_image) =? 0)%N || (snd (image_size pil_image) =? 0)%N
  then Raises ZeroWidthOrHeight
  else Returns pil_image))).

End FrameToImage.

(* ================================================================== *)
(** ** [DCMConverter.convert_dicom] *)

Section ConvertDicom.

Context {F : Type} {FO : Float64 F}.

Variable apply_voi_lut : ndarray F -> Dataset F -> result (ndarray F).
Variable decompress : Dataset F -> result (Dataset F).

Variable Image : Type.
Variable fromarray : ndarray F -> image_mode -> result Image.
Variable image_size : Image -> N * N.

(** The file system and the paths of [pathlib].  A call that writes
    returns the file system as it leaves it, also when it raises. *)
Variable World : Type.
Variable Path : Type.

(** [path.exists()]. *)
Variable path_exists : World -> Path -> result bool.
(** [path.mkdir(parents=True, exist_ok=True)]. *)
Variable mkdir : Path -> World -> result unit * World.
(** [pydicom.dcmread(str(path))]. *)
Variable dcmread : World -> Path -> result (Dataset F).
(** [pil_image.save(path, 'JPEG', quality=quality, optimize=True)]. *)
Variable save : Image -> Path -> Z -> World -> result unit * World.
(** [path.stem], [path / name] and [str(path)]. *)
Variable stem : Path -> string.
Variable joinpath : Path -> string -> Path.
Variable str : Path -> string.

(** [self.jpeg_quality], and the stack frames left for [_extract_frames]. *)
Variable jpeg_quality : Z.
Variable depth : nat.

(** [output_dir / f"{base_name}.jpg"] with [base_name = dcm_path.stem]. *)
Definition jpg_path (dcm_path output_dir : Path) : Path :=
  joinpath output_dir (stem dcm_path ++ ".jpg").

(** Lines 314-364.  The two branches of [if len(frames) == 1] do the same
    but for what they log: [frames[0]] is made an image and saved; an
    exception there makes the method return []. *)
Definition save_first_frame (frames : list (ndarray F))
                            (dcm_path output_dir : Path) (w : World)
  : list string * World :=
  match frames with
  | [] => ([], w)
  | frame :: _ =>
      let output_path := jpg_path dcm_path output_dir in
      match _frame_to_pil_image fromarray image_size frame with
      | Raises _ => ([], w)
      | Returns pil_image =>
          match save pil_image output_path jpeg_quality w with
          | (Ok _, w') => ([str output_path], w')
          | (Raise _, w') => ([], w')
          end
      end
  end.

(** Lines 280-409: the outer [try] with its handler.  Whatever is raised
    inside makes the method return []: a failing [dcmread], a [pixel_array]
    that is missing or does not decode, [np.min] and [np.max] of the debug
    message (evaluated whether or not the message is shown), a failing
    [_extract_frames]. *)
Definition convert_read (dcm_path output_dir : Path) (w : World)
  : list string * World :=
  match dcmread w dcm_path with
  | Raise _ => ([], w)
  | Ok dataset =>
      match pixel_array dataset with
      | Raise _ => ([], w)
      | Ok test_array =>
          match np_min test_array, np_max test_array with
          | Ok _, Ok _ =>
              match _extract_frames apply_voi_lut decompress depth dataset with
              | Raise _ => ([], w)
              | Ok frames => save_first_frame frames dcm_path output_dir w
              end
          | _, _ => ([], w)
          end
      end
  end.

(** The whole method: the list it returns or the exception it raises, and
    the file system it leaves. *)
Definition convert_dicom (dcm_path output_dir : Path) (w : World)
  : result (list string) * World :=
  match path_exists w dcm_path with
  | Raise e => (Raise e, w)
  | Ok false => (Ok [], w)
  | Ok true =>
      match mkdir output_dir w with
      | (Raise e, w') => (Raise e, w')
      | (Ok _, w') =>
          let (output_paths, w'') := convert_read dcm_path output_dir w' in
          (Ok output_paths, w'')
      end
  end.

End ConvertDicom.

(* ================================================================== *)
(** ** [DCMConverter.diagnose_dicom] *)

(** What the method reads of the dataset it gets with
    [stop_before_pixels=True]: the attributes of [Dataset], and three
    more.  An absent attribute is [None]. *)
Record Header (F : Type) : Type := {
  elements : Dataset F;
  Rows : option Z;
  Columns : option Z;
  NumberOfFrames : option (pyscalar F)
}.

Section DiagnoseDicom.

Context {F : Type} {FO : Float64 F}.

Variable apply_voi_lut : ndarray F -> Dataset F -> result (ndarray F).

Variable Image : Type.
Variable fromarray : ndarray F -> image_mode -> result Image.
Variable image_size : Image -> N * N.

Variable World : Type.
Variable Path : Type.
Variable path_exists : World -> Path -> result bool.
(** [pydicom.dcmread(str(path), stop_before_pixels=True)] and
    [pydicom.dcmread(str(path))]. *)
Variable dcmread_header : World -> Path -> result (Header F).
Variable dcmread : World -> Path -> result (Dataset F).

(** Lines 467-470: [getattr(dataset, 'NumberOfFrames', 1) > 1]. *)
Definition more_than_one_frame (dataset : Header F) : result bool :=
  match NumberOfFrames dataset with
  | None => Ok false
  | Some (PyInt z) => Ok (1 <? z)
  | Some (PyFloat x) => Ok (f_ltb (f_of_Z 1) x)
  | Some PyOther => Raise TypeError
  end.

(** Lines 473-482: the window is only printed, but a list is indexed. *)
Definition window_info (dataset : Header F) : result unit :=
  match WindowCenter (elements dataset), WindowWidth (elements dataset) with
  | Some wc, Some ww =>
      _ <- first_if_sequence wc ;;
      _ <- first_if_sequence ww ;;
      Ok tt
  | _, _ => Ok tt
  end.

(** Lines 514-517: the frame the normalisation is tried on. *)
Definition test_frame (pixel_array : ndarray F) : ndarray F :=
  if (rank pixel_array =? 3)%nat
     && (dim pixel_array 0 <? N.min (dim pixel_array 1) (dim pixel_array 2))%N
  then index_first pixel_array 0
  else pixel_array.

(** Lines 513-535: the innermost [try] with its handler. *)
Definition diagnose_processing (pixel_array : ndarray F)
                               (dataset_full : Dataset F) : bool :=
  match _normalize_pixel_array apply_voi_lut (test_frame pixel_array)
          dataset_full with
  | Raise _ => false
  | Ok normalized =>
      match np_min normalized, np_max normalized with
      | Ok _, Ok _ =>
          match _frame_to_pil_image fromarray image_size normalized with
          | Returns _ => true
          | Raises _ => false
          end
      | _, _ => false
      end
  end.

(** Lines 486-535: the body of the [try] around the pixel data.  [np.min]
    and [np.max] are evaluated for the message with the value range. *)
Definition diagnose_pixels (dcm_path : Path) (w : World) : result bool :=
  dataset_full <- dcmread w dcm_path ;;
  pixel_array <- pixel_array dataset_full ;;
  _ <- np_min pixel_array ;;
  _ <- np_max pixel_array ;;
  if (shape_size (shape pixel_array) =? 0)%N then Ok false
  else if (rank pixel_array <? 2)%nat then Ok false
  else Ok (diagnose_processing pixel_array dataset_full).

(** Lines 430-546: the body of the outer [try]; the handler of the inner
    one returns False. *)
Definition diagnose_body (dcm_path : Path) (w : World) : result bool :=
  dataset <- dcmread_header w dcm_path ;;
  match Rows dataset, Columns dataset with
  | Some _, Some _ =>
      _ <- more_than_one_frame dataset ;;
      _ <- window_info dataset ;;
      Ok (catch (diagnose_pixels dcm_path w) (fun _ => false))
  | _, _ => Ok false
  end.

(** The whole method: what it returns; it prints, and writes nothing. *)
Definition diagnose_dicom (dcm_path : Path) (w : World) : result bool :=
  file_exists <- path_exists w dcm_path ;;
  if negb file_exists then Ok false
  else Ok (catch (diagnose_body dcm_path w) (fun _ => false)).

End DiagnoseDicom.

(* ================================================================== *)
(** ** [DCMConverter.convert_directory] *)

(** [s.upper()], on the ASCII letters the extensions are made of. *)
Definition upper_ascii (c : Ascii.ascii) : Ascii.ascii :=
  let n := Ascii.nat_of_ascii c in
  if ((97 <=? n) && (n <=? 122))%nat then Ascii.ascii_of_nat (n - 32) else c.

Fixpoint upper (s : string) : string :=
  match s with
  | EmptyString => EmptyString
  | String c rest => String (upper_ascii c) (upper rest)
  end.

Section ConvertDirectory.

Context {F : Type} {FO : Float64 F}.

Variable apply_voi_lut : ndarray F -> Dataset F -> result (ndarray F).
Variable decompress : Dataset F -> result (Dataset F).
Variable Image : Type.
Variable fromarray : ndarray F -> image_mode -> result Image.
Variable image_size : Image -> N * N.
Variable World : Type.
Variable Path : Type.
Variable path_exists : World -> Path -> result bool.
Variable mkdir : Path -> World -> result unit * World.
Variable dcmread : World -> Path -> result (Dataset F).
Variable save : Image -> Path -> Z -> World -> result unit * World.
Variable stem : Path -> string.
Variable joinpath : Path -> string -> Path.
Variable str : Path -> string.
Variable jpeg_quality : Z.
Variable depth : nat.

(** [path.is_dir()], [path.glob(pattern)], [path.iterdir()],
    [path.is_file()], [path.suffix], [path.name] and
    [pydicom.dcmread(str(path), stop_before_pixels=True)]. *)
Variable is_dir : World -> Path -> result bool.
Variable glob : World -> Path -> string -> result (list Path).
Variable iterdir : World -> Path -> result (list Path).
Variable is_file : World -> Path -> result bool.
Variable suffix : Path -> string.
Variable name : Path -> string.
Variable dcmread_header : World -> Path -> result (Header F).

(** The elements of the set [{'.dcm', '.dicom', '.dic'}], in the order the
    interpreter iterates over them. *)
Variable dcm_extensions : list string.

(** Lines 576-578. *)
Fixpoint glob_extensions (extensions : list string) (input_dir : Path)
                         (w : World) : result (list Path) :=
  match extensions with
  | [] => Ok []
  | ext :: rest =>
      lower <- glob w input_dir ("*" ++ ext) ;;
      uppercase <- glob w input_dir ("*" ++ upper ext) ;;
      more <- glob_extensions rest input_dir w ;;
      Ok (lower ++ uppercase ++ more)
  end.

(** Lines 581-588: the files without a suffix that read as DICOM. *)
Fixpoint extensionless (entries : list Path) (output_folder_name : string)
                       (w : World) : result (list Path) :=
  match entries with
  | [] => Ok []
  | file_path :: rest =>
      regular <- is_file w file_path ;;
      let found :=
        regular && String.eqb (suffix file_path) ""
        && negb (String.eqb (name file_path) output_folder_name)
        && is_ok (dcmread_header w file_path) in
      more <- extensionless rest output_folder_name w ;;
      Ok (if found then file_path :: more else more)
  end.

(** Lines 573-588: [dcm_files]. *)
Definition find_dicom_files (input_dir : Path) (output_folder_name : string)
                            (w : World) : result (list Path) :=
  by_extension <- glob_extensions dcm_extensions input_dir w ;;
  entries <- iterdir w input_dir ;;
  without_suffix <- extensionless entries output_folder_name w ;;
  Ok (by_extension ++ without_suffix).

(** Lines 600-602: the loop over the files; [successful_conversions] is the
    list built so far.  An exception of [convert_dicom] ends it. *)
Fixpoint convert_all (dcm_files : list Path) (output_dir : Path)
                     (successful_conversions : list string) (w : World)
  : result (list string) * World :=
  match dcm_files with
  | [] => (Ok successful_conversions, w)
  | dcm_file :: rest =>
      match convert_dicom apply_voi_lut decompress fromarray image_size
              path_exists mkdir dcmread save stem joinpath str jpeg_quality
              depth dcm_file output_dir w with
      | (Raise e, w') => (Raise e, w')
      | (Ok results, w') =>
          convert_all rest output_dir (successful_conversions ++ results) w'
      end
  end.

(** The whole method. *)
Definition convert_directory (input_dir : Path) (output_folder_name : string)
                             (w : World) : result (list string) * World :=
  match is_dir w input_dir with
  | Raise e => (Raise e, w)
  | Ok false => (Ok [], w)
  | Ok true =>
      let output_dir := joinpath input_dir output_folder_name in
      match find_dicom_files input_dir output_folder_name w with
      | Raise e => (Raise e, w)
      | Ok [] => (Ok [], w)
      | Ok dcm_files => convert_all dcm_files output_dir [] w
      end
  end.

End ConvertDirectory.

(* ================================================================== *)
(** ** Definitions that follow the specification's words

    They are compared below with what the methods compute. *)

Section SpecWords.

Context {F : Type} {FO : Float64 F}.

(** [round]: the nearest integer, a tie going to the even one. *)
Definition round_nearest (x : F) : F :=
  let below := f_floor x in
  let above := f_add below (f_of_Z 1) in
  let to_below := f_sub x below in
  let to_above := f_sub above x in
  if f_ltb to_below to_above then below
  else if f_ltb to_above to_below then above
  else if Z.even (f_trunc below) then below else above.

(** Section 4.4: [clip(round((value - min) / (max - min) * 255), 0, 255)],
    cast to uint8. *)
Definition spec_rescale_uint8 (pixel_min range v : F) : Z :=
  astype_uint8
    (clip_float (f_of_Z 0) (f_of_Z 255) (round_nearest (rescale pixel_min range v))).

(** Section 3: a rank-4 buffer is (frames, rows, cols, channels); its stored
    frames are its sub-arrays along the first axis, in that order. *)
Definition stored_frames4 (a : ndarray F) : list (ndarray F) :=
  map (index_first a) (range (dim a 0)).

(** The elements of an array, as tagged values. *)
Definition values (a : ndarray F) : list (Z + F) :=
  match buf a with
  | IntBuf _ l => map inl l
  | FloatBuf l => map inr l
  end.

(** [np.stack(frames, axis=0)], flattened: the frames one after another. *)
Definition stack_first (frames : list (ndarray F)) : list (Z + F) :=
  concat (map values frames).

Definition heads {A : Type} (cols : list (list A)) : list A :=
  flat_map (fun c => match c with [] => [] | x :: _ => [x] end) cols.

Fixpoint interleave {A : Type} (n : nat) (cols : list (list A)) : list A :=
  match n with
  | O => []
  | S n' => heads cols ++ interleave n' (map (@tl A) cols)
  end.

(** [np.stack(frames, axis=-1)], flattened: the first elements of all
    frames, then their second elements, and so on. *)
Definition stack_last (frames : list (ndarray F)) : list (Z + F) :=
  match frames with
  | [] => []
  | f :: _ => interleave (size f) (map values frames)
  end.

End SpecWords.

(* ================================================================== *)
(** ** Examples *)

Module Examples.

(** A VOI LUT that is not available, and one that leaves the frame as it is
    (a dataset with neither a VOI LUT sequence nor a window). *)
Definition voi_lut_raises : ndarray float -> Dataset float -> result (ndarray float) :=
  fun _ _ => Raise (LibraryError 0).

Definition voi_lut_unchanged : ndarray float -> Dataset float -> result (ndarray float) :=
  fun a _ => Ok a.

Definition decompress_raises : Dataset float -> result (Dataset float) :=
  fun _ => Raise (LibraryError 1).

Definition dataset_of (a : ndarray float) (photometric : option string)
                      (center width : option (pyval float)) : Dataset float :=
  {| pixel_array := Ok a;
     has_PixelData := true;
     PhotometricInterpretation := photometric;
     WindowCenter := center;
     WindowWidth := width |}.

Definition row (t : int_dtype) (l : list Z) : ndarray float :=
  NdArray [1%N; N.of_nat (length l)] (IntBuf t l).

(** A VOI LUT gone wrong on frames that start with 0: it hands back an
    empty array. *)
Definition voi_lut_empties_dark : ndarray float -> Dataset float -> result (ndarray float) :=
  fun a _ =>
    match buf a with
    | IntBuf _ (0 :: _) => Ok (NdArray [0%N; 0%N] (IntBuf uint16 []))
    | _ => Ok a
    end.

(** Two frames of 3 x 4 pixels. *)
Definition two_frames : ndarray float :=
  NdArray [2; 3; 4]%N
    (IntBuf uint16 [0; 0; 0; 0; 0; 0; 0; 0; 0; 0; 0; 0;
                    1; 2; 3; 4; 5; 6; 7; 8; 9; 10; 11; 12]).

End Examples.

(* ================================================================== *)
(** ** Vocabulary of the statements *)

(** Every element of the frame equals 7. *)
Definition all_equal_7 (a : ndarray float) : Prop :=
  match buf a with
  | IntBuf _ l => Forall (eq 7) l
  | FloatBuf l => Forall (eq 7%float) l
  end.

(** [pixel_max - pixel_min] as an exact number, and whether the difference
    the code computes in the scalars' own dtype is that number. *)
Definition exact_difference {F : Type} {FO : Float64 F} (x y : scalar F) : F :=
  match x, y with
  | IntScalar _ a, IntScalar _ b => f_of_Z (a - b)
  | _, _ => scalar_to_float (scalar_sub x y)
  end.

Definition difference_fits {F : Type} (x y : scalar F) : Prop :=
  match x, y with
  | IntScalar t a, IntScalar _ b => in_range t (a - b) = true
  | _, _ => True
  end.

(** The number a windowing attribute stands for: the attribute itself, or
    its first element when it is a list or a tuple. *)
Definition attr_number {F : Type} (attr : option (pyval F)) : option (pynum F) :=
  match attr with
  | Some v =>
      match first_if_sequence v with
      | Ok s => match as_number s with Ok n => Some n | Raise _ => None end
      | Raise _ => None
      end
  | None => None
  end.

(** [width // 2]: the half-width, by floor division. *)
Definition halve {F : Type} {FO : Float64 F} (width : pynum F) : pynum F :=
  match width with
  | NumInt z => NumInt (z / 2)
  | NumFloat x => NumFloat (float_floordiv2 x)
  end.

Definition both_int {F : Type} (x y : pynum F) : bool :=
  match x, y with
  | NumInt _, NumInt _ => true
  | _, _ => false
  end.

Definition is_int_array {F : Type} (a : ndarray F) : bool :=
  match buf a with
  | IntBuf _ _ => true
  | FloatBuf _ => false
  end.

(** The frames that normalise without raising, in the order of [frames]. *)
Definition survivors {F : Type} {FO : Float64 F}
    (apply_voi_lut : ndarray F -> Dataset F -> result (ndarray F))
    (frames : list (ndarray F)) (dataset : Dataset F) : list (ndarray F) :=
  flat_map
    (fun frame =>
       match _normalize_pixel_array apply_voi_lut frame dataset with
       | Ok normalized_frame => [normalized_frame]
       | Raise _ => []
       end)
    frames.

(** The retry after [decompress] cannot help: the dataset has no PixelData,
    or decompressing it raises. *)
Definition no_retry {F : Type} (decompress : Dataset F -> result (Dataset F))
    (dataset : Dataset F) : Prop :=
  has_PixelData dataset = false \/ exists e, decompress dataset = Raise e.

(** No dimension of the array is zero. *)
Definition no_zero_dimension {F : Type} (a : ndarray F) : Prop :=
  Forall (fun d => d <> 0%N) (shape a).

(** The VOI LUT returns as many elements as it was given. *)
Definition keeps_size {F : Type}
    (apply_voi_lut : ndarray F -> Dataset F -> result (ndarray F)) : Prop :=
  forall a ds a', apply_voi_lut a ds = Ok a' -> size a' = size a.

(** *** The order and rounding laws of a float64 arithmetic

    What the monotonicity of the rescale rests on: comparisons form a total
    order away from NaN, and conversion, subtraction, division by a finite
    non-zero number, multiplication by 255 and the cast to an integer keep
    that order.  IEEE-754 round-to-nearest arithmetic has these properties;
    [exactQ] is shown to have them below. *)

(** Integers that every dtype of at most 64 bits holds. *)
Definition in_64_bits (z : Z) : Prop := - 2 ^ 64 <= z <= 2 ^ 64.

Class Float64Laws (F : Type) {FO : Float64 F} : Prop := {
  leb_not_nan : forall x y,
    f_leb x y = true -> f_is_nan x = false /\ f_is_nan y = false;
  ltb_not_nan : forall x y,
    f_ltb x y = true -> f_is_nan x = false /\ f_is_nan y = false;
  finite_not_nan : forall x, f_is_finite x = true -> f_is_nan x = false;
  ltb_negb_leb : forall x y,
    f_is_nan x = false -> f_is_nan y = false -> f_ltb x y = negb (f_leb y x);
  leb_refl : forall x, f_is_nan x = false -> f_leb x x = true;
  leb_trans : forall x y z,
    f_leb x y = true -> f_leb y z = true -> f_leb x z = true;
  ltb_leb : forall x y, f_ltb x y = true -> f_leb x y = true;
  of_Z_finite : forall z, in_64_bits z -> f_is_finite (f_of_Z z) = true;
  of_Z_mono : forall a b,
    in_64_bits a -> in_64_bits b -> a <= b -> f_leb (f_of_Z a) (f_of_Z b) = true;
  of_Z_pos : forall z, in_64_bits z -> 0 < z -> f_ltb (f_of_Z 0) (f_of_Z z) = true;
  of_Z_neg : forall z, in_64_bits z -> z < 0 -> f_ltb (f_of_Z z) (f_of_Z 0) = true;
  sub_mono : forall a b m,
    f_is_finite a = true -> f_is_finite b = true -> f_is_finite m = true ->
    f_leb a b = true -> f_leb (f_sub a m) (f_sub b m) = true;
  sub_self : forall m, f_is_finite m = true -> f_leb (f_of_Z 0) (f_sub m m) = true;
  sub_pos : forall a m,
    f_is_finite a = true -> f_is_finite m = true ->
    f_ltb m a = true -> f_ltb (f_of_Z 0) (f_sub a m) = true;
  div_mono : forall x y d,
    f_leb (f_of_Z 0) x = true -> f_leb x y = true ->
    f_ltb (f_of_Z 0) d = true -> f_is_finite d = true ->
    f_leb (f_div x d) (f_div y d) = true;
  div_nonneg : forall x d,
    f_leb (f_of_Z 0) x = true ->
    f_ltb (f_of_Z 0) d = true -> f_is_finite d = true ->
    f_leb (f_of_Z 0) (f_div x d) = true;
  div_nonpos : forall x d,
    f_leb (f_of_Z 0) x = true ->
    f_ltb d (f_of_Z 0) = true -> f_is_finite d = true ->
    f_leb (f_div x d) (f_of_Z 0) = true;
  mul_255_mono : forall x y,
    f_leb (f_of_Z 0) x = true -> f_leb x y = true ->
    f_leb (f_mul x (f_of_Z 255)) (f_mul y (f_of_Z 255)) = true;
  mul_255_nonneg : forall x,
    f_leb (f_of_Z 0) x = true -> f_leb (f_of_Z 0) (f_mul x (f_of_Z 255)) = true;
  mul_255_nonpos : forall x,
    f_leb x (f_of_Z 0) = true -> f_leb (f_mul x (f_of_Z 255)) (f_of_Z 0) = true;
  trunc_mono : forall x y,
    f_leb (f_of_Z 0) x = true -> f_leb x y = true ->
    f_leb y (f_of_Z 255) = true ->
    0 <= f_trunc x /\ f_trunc x <= f_trunc y /\ f_trunc y <= 255;
  trunc_zero : f_trunc (f_of_Z 0) = 0
}.

Arguments Float64Laws F {FO}.

(** [u < v] on two elements of one frame. *)
Definition value_lt {F : Type} {FO : Float64 F} (u v : Z + F) : bool :=
  match u, v with
  | inl a, inl b => a <? b
  | inr x, inr y => f_ltb x y
  | _, _ => false
  end.

(** A frame of numbers: integers of a dtype of at most 64 bits, or floats
    that are finite and whose range [max - min] is finite as well. *)
Definition finite_frame {F : Type} {FO : Float64 F} (a : ndarray F) : Prop :=
  match buf a with
  | IntBuf t l => (bits t <= 64)%N /\ Forall (fun z => in_range t z = true) l
  | FloatBuf l =>
      Forall (fun x => f_is_finite x = true) l /\
      forall mn mx,
        np_min a = Ok (FloatScalar mn) -> np_max a = Ok (FloatScalar mx) ->
        f_is_finite (f_sub mx mn) = true
  end.

(** The VOI LUT hands back a well-formed array of the shape it was given. *)
Definition keeps_form {F : Type} {FO : Float64 F}
    (apply_voi_lut : ndarray F -> Dataset F -> result (ndarray F)) : Prop :=
  forall a ds a',
    well_formed a -> apply_voi_lut a ds = Ok a' ->
    well_formed a' /\ shape a' = shape a.

(** The dataset decodes, if at all, to a well-formed pixel array that has
    elements. *)
Definition decodes_well {F : Type} {FO : Float64 F} (dataset : Dataset F) : Prop :=
  forall a, pixel_array dataset = Ok a -> well_formed a /\ size a <> O.

(** What the method relies on from [Image.fromarray]: given a well-formed
    uint8 array that has elements, of rank 2 for mode 'L' or of shape
    (rows, columns, 3) for mode 'RGB', it returns an image as wide as the
    array has columns and as high as it has rows. *)
Definition fromarray_contract {F : Type} {FO : Float64 F} (Image : Type)
    (fromarray : ndarray F -> image_mode -> result Image)
    (image_size : Image -> N * N) : Prop :=
  forall array mode,
    is_uint8 array = true -> well_formed array -> size array <> O ->
    (mode = ModeL /\ rank array = 2%nat) \/
    (mode = ModeRGB /\ rank array = 3%nat /\ dim array 2 = 3%N) ->
    exists pil_image,
      fromarray array mode = Ok pil_image /\
      image_size pil_image = (dim array 1, dim array 0).

(** A stand-in for PIL and for the file system: an image is the array it
    was made of, with its mode; the file system is the list of the files
    saved, the last one first; a path is its string. *)
Module Files.

Definition image : Type := (ndarray float * image_mode)%type.

Definition fromarray (a : ndarray float) (m : image_mode) : result image :=
  Ok (a, m).

Definition image_size (im : image) : N * N := (dim (fst im) 1, dim (fst im) 0).

Definition world : Type := list (string * image).

Definition path_exists (w : world) (p : string) : result bool := Ok true.

Definition mkdir (p : string) (w : world) : result unit * world := (Ok tt, w).

Definition dcmread (ds : Dataset float) (w : world) (p : string)
  : result (Dataset float) := Ok ds.

Definition save (im : image) (p : string) (quality : Z) (w : world)
  : result unit * world := (Ok tt, (p, im) :: w).

(** The name up to its first dot. *)
Fixpoint stem (p : string) : string :=
  match p with
  | EmptyString => EmptyString
  | String c rest =>
      if Ascii.eqb c (Ascii.ascii_of_nat 46) then EmptyString
      else String c (stem rest)
  end.

Definition joinpath (d name : string) : string := (d ++ "/" ++ name)%string.

Definition str (p : string) : string := p.

End Files.

(** An output directory that cannot be made, and the conversion of a file
    that holds the dataset [ds], with nothing saved yet. *)
Definition mkdir_denied (p : string) (w : Files.world)
  : result unit * Files.world := (Raise (LibraryError 2), w).

Definition convert_example
    (mkdir : string -> Files.world -> result unit * Files.world)
    (ds : Dataset float) : result (list string) * Files.world :=
  convert_dicom Examples.voi_lut_unchanged Examples.decompress_raises
    Files.fromarray Files.image_size Files.path_exists mkdir
    (Files.dcmread ds) Files.save Files.stem Files.joinpath Files.str 95 1
    "scan"%string "converted_jpegs"%string [].

(** The header of a file that holds the dataset [ds], and the diagnosis of
    that file. *)
Definition header_example (rows columns : Z) (ds : Dataset float)
    (w : Files.world) (p : string) : result (Header float) :=
  Ok {| elements := ds; Rows := Some rows; Columns := Some columns;
        NumberOfFrames := Some (PyInt 2) |}.

Definition diagnose_example (rows columns : Z) (ds : Dataset float)
  : result bool :=
  diagnose_dicom Examples.voi_lut_unchanged Files.fromarray Files.image_size
    Files.path_exists (header_example rows columns ds) (Files.dcmread ds)
    "scan"%string [].

(** Two frames of one pixel with two channels. *)
Definition two_channel_frames : ndarray float :=
  NdArray [2; 1; 1; 2]%N (IntBuf uint8 [1; 2; 3; 4]).

(** A directory that holds the one file "scan.dcm", with the dataset [ds]
    in it, and the conversion of that directory. *)
Definition glob_example (w : Files.world) (d : string) (pattern : string)
  : result (list string) :=
  if String.eqb pattern "*.dcm" then Ok ["scan.dcm"%string] else Ok [].

Definition iterdir_example (w : Files.world) (d : string)
  : result (list string) := Ok ["scan.dcm"%string].

Definition is_file_example (w : Files.world) (p : string) : result bool :=
  Ok true.

Definition suffix_example (p : string) : string := ".dcm"%string.

Definition find_example (ds : Dataset float) : result (list string) :=
  find_dicom_files glob_example iterdir_example is_file_example
    suffix_example Files.str (header_example 3 4 ds)
    [".dcm"; ".dicom"; ".dic"]%string
    "studies"%string "converted_jpegs"%string [].

Definition convert_directory_example (ds : Dataset float)
  : result (list string) * Files.world :=
  convert_directory Examples.voi_lut_unchanged Examples.decompress_raises
    Files.fromarray Files.image_size Files.path_exists Files.mkdir
    (Files.dcmread ds) Files.save Files.stem Files.joinpath Files.str 95 1
    is_file_example glob_example iterdir_example is_file_example
    suffix_example Files.str (header_example 3 4 ds)
    [".dcm"; ".dicom"; ".dic"]%string
    "studies"%string "converted_jpegs"%string [].

(** The array is of an integer dtype that holds [z]. *)
Definition dtype_holds {F : Type} (z : Z) (a : ndarray F) : bool :=
  match buf a with
  | IntBuf t _ => in_range t z
  | FloatBuf _ => false
  end.

(* ================================================================== *)
(** * Results *)

Unset Implicit Arguments.

(** ** Constant frames *)

Lemma fold_min_7 (l : list Z) : Forall (eq 7) l -> fold_left Z.min l 7 = 7.
Proof.
  induction 1 as [|x l Hx _ IH]; simpl; [reflexivity|].
  subst x. exact IH.
Qed.

Lemma fold_max_7 (l : list Z) : Forall (eq 7) l -> fold_left Z.max l 7 = 7.
Proof.
  induction 1 as [|x l Hx _ IH]; simpl; [reflexivity|].
  subst x. exact IH.
Qed.

Lemma fold_minimum_7 (l : list float) :
  Forall (eq 7%float) l -> fold_left f_minimum l 7%float = 7%float.
Proof.
  induction 1 as [|x l Hx _ IH]; simpl; [reflexivity|].
  subst x. exact IH.
Qed.

Lemma fold_maximum_7 (l : list float) :
  Forall (eq 7%float) l -> fold_left f_maximum l 7%float = 7%float.
Proof.
  induction 1 as [|x l Hx _ IH]; simpl; [reflexivity|].
  subst x. exact IH.
Qed.

(** C2 (amended): a frame that is not uint8, has at least one element and
    holds 7 everywhere is normalised to a uint8 frame of the same shape that
    holds 128 everywhere. *)
Theorem constant_7_frame_becomes_128 (a : ndarray float) :
  is_uint8 a = false ->
  size a <> O ->
  all_equal_7 a ->
  intensity_normalize a
  = Ok (NdArray (shape a) (IntBuf uint8 (repeat 128 (size a)))).
Proof.
  destruct a as [s [t l|l]]; unfold all_equal_7, intensity_normalize, size;
    simpl; intros Hu Hn Hall; rewrite ?Hu; simpl.
  - destruct l as [|x l]; [contradiction|].
    inversion Hall as [|? ? Hx Hl]; subst.
    unfold np_min, np_max; simpl.
    rewrite (fold_min_7 _ Hl), (fold_max_7 _ Hl). reflexivity.
  - destruct l as [|x l]; [contradiction|].
    inversion Hall as [|? ? Hx Hl]; subst.
    unfold np_min, np_max; simpl.
    rewrite (fold_minimum_7 _ Hl), (fold_maximum_7 _ Hl). reflexivity.
Qed.

Lemma constant_7_frame_becomes_128_witness :
  intensity_normalize (Examples.row uint16 [7; 7; 7])
  = Ok (NdArray [1%N; 3%N] (IntBuf uint8 [128; 128; 128])).
Proof.
  apply (constant_7_frame_becomes_128 (Examples.row uint16 [7; 7; 7])).
  - reflexivity.
  - simpl. discriminate.
  - repeat constructor.
Defined.

(** C2, as stated, fails on a uint8 frame: it is returned as it is. *)
Lemma constant_7_uint8_frame_unchanged :
  all_equal_7 (Examples.row uint8 [7; 7]) /\
  intensity_normalize (Examples.row uint8 [7; 7])
  = Ok (NdArray [1%N; 2%N] (IntBuf uint8 [7; 7])) /\
  intensity_normalize (Examples.row uint8 [7; 7])
  <> Ok (NdArray [1%N; 2%N] (IntBuf uint8 [128; 128])).
Proof.
  split; [repeat constructor|]. split; [reflexivity|].
  vm_compute. discriminate.
Qed.

(** ** Integer wrap-around *)

Lemma wrap_in_range (t : int_dtype) (z : Z) : in_range t z = true -> wrap t z = z.
Proof.
  unfold in_range, wrap, dtype_min, dtype_max.
  destruct t as [[|] b]; simpl; intros H;
    apply andb_true_iff in H; destruct H as [H1 H2];
    apply Z.leb_le in H1; apply Z.leb_le in H2.
  - destruct b as [|p].
    + simpl in *. lia.
    + assert (E : 2 ^ Z.of_N (N.pos p) = 2 * 2 ^ (Z.of_N (N.pos p) - 1)).
      { rewrite <- Z.pow_succ_r by lia. f_equal. lia. }
      rewrite E.
      replace (2 * 2 ^ (Z.of_N (N.pos p) - 1) / 2) with (2 ^ (Z.of_N (N.pos p) - 1))
        by (symmetry; rewrite Z.mul_comm; apply Z.div_mul; lia).
      rewrite Z.mod_small by lia. lia.
  - apply Z.mod_small. lia.
Qed.

(** ** The rescale of a frame that is not constant *)

(** C1 (amended): for a frame that is not uint8 and whose maximum exceeds
    its minimum, provided the difference max - min fits the frame's integer
    dtype, every output element is
    uint8(clip((value - min) / (max - min) * 255.0, 0, 255)), computed in
    float64 and cut toward zero by the cast: nothing rounds.  The output has
    the shape of the input and its elements lie in 0..255. *)
Theorem rescale_truncates {F : Type} {FO : Float64 F}
    (a : ndarray F) (pixel_min pixel_max : scalar F) :
  is_uint8 a = false ->
  np_min a = Ok pixel_min ->
  np_max a = Ok pixel_max ->
  scalar_gt pixel_max pixel_min = true ->
  difference_fits pixel_max pixel_min ->
  let out v :=
    wrap uint8
      (f_trunc
         (clip_float (f_of_Z 0) (f_of_Z 255)
            (f_mul (f_div (f_sub v (scalar_to_float pixel_min))
                          (exact_difference pixel_max pixel_min))
                   (f_of_Z 255)))) in
  intensity_normalize a
  = Ok (NdArray (shape a) (IntBuf uint8 (map out (as_float64 (buf a))))) /\
  Forall (fun z => 0 <= z <= 255) (map out (as_float64 (buf a))).
Proof.
  intros Hu Hmin Hmax Hgt Hfit out. split.
  - unfold intensity_normalize. rewrite Hu, Hmin, Hmax. simpl. rewrite Hgt.
    do 3 f_equal. apply map_ext. intros v.
    unfold out, rescale_uint8, astype_uint8, rescale. do 5 f_equal.
    destruct pixel_max as [t x|x], pixel_min as [t' y|y]; simpl in *;
      try reflexivity.
    now rewrite wrap_in_range.
  - apply Forall_forall. intros z Hz. apply in_map_iff in Hz.
    destruct Hz as [v [<- _]]. unfold out.
    generalize (f_trunc
      (clip_float (f_of_Z 0) (f_of_Z 255)
         (f_mul (f_div (f_sub v (scalar_to_float pixel_min))
                       (exact_difference pixel_max pixel_min))
                (f_of_Z 255)))).
    intros z. change (wrap uint8 z) with (z mod 256).
    pose proof (Z.mod_pos_bound z 256). lia.
Qed.

Lemma rescale_truncates_witness :
  intensity_normalize (Examples.row uint16 [0; 2; 7])
  = Ok (NdArray [1%N; 3%N] (IntBuf uint8 [0; 72; 255])) /\
  Forall (fun z => 0 <= z <= 255) [0; 72; 255].
Proof.
  exact (@rescale_truncates float binary64 (Examples.row uint16 [0; 2; 7])
           (IntScalar uint16 0) (IntScalar uint16 7)
           eq_refl eq_refl eq_refl eq_refl eq_refl).
Defined.

(** C1, as stated, fails: on the uint16 frame [0, 2, 7] the second element
    is 2/7 * 255 = 72.857..., which the claim's formula rounds to 73 and the
    code cuts to 72. *)
Lemma rescale_does_not_round :
  let a := Examples.row uint16 [0; 2; 7] in
  is_uint8 a = false /\
  np_min a = Ok (IntScalar uint16 0) /\
  np_max a = Ok (IntScalar uint16 7) /\
  map (spec_rescale_uint8 (b64_of_Z 0) (b64_of_Z (7 - 0))) (as_float64 (buf a))
  = [0; 73; 255] /\
  intensity_normalize a = Ok (NdArray [1%N; 3%N] (IntBuf uint8 [0; 72; 255])).
Proof. vm_compute. repeat split; reflexivity. Qed.

(** ** Windowing that fails *)

(** C10: when the VOI LUT raises and the manual windowing raises as well, or
    WindowCenter or WindowWidth is absent, the windowing phase hands on the
    frame it was given, and the method goes on to the photometric inversion
    and the normalisation of that frame. *)
Theorem failed_windowing_leaves_frame {F : Type} {FO : Float64 F}
    (apply_voi_lut : ndarray F -> Dataset F -> result (ndarray F))
    (a : ndarray F) (ds : Dataset F) (e : exn) :
  apply_voi_lut a ds = Raise e ->
  (WindowCenter ds = None \/ WindowWidth ds = None \/
   exists wc ww e', WindowCenter ds = Some wc /\ WindowWidth ds = Some ww /\
                    manual_windowing a wc ww = Raise e') ->
  windowing apply_voi_lut a ds = a /\
  _normalize_pixel_array apply_voi_lut a ds
  = (inverted <- invert_monochrome1 a ds ;; intensity_normalize inverted).
Proof.
  intros Hvoi Hman.
  assert (Hw : windowing apply_voi_lut a ds = a).
  { unfold windowing. rewrite Hvoi. simpl.
    destruct Hman as [Hc|[Hw|[wc [ww [e' [Hc [Hw Hm]]]]]]].
    - now rewrite Hc.
    - rewrite Hw. now destruct (WindowCenter ds).
    - now rewrite Hc, Hw, Hm. }
  split; [exact Hw|].
  unfold _normalize_pixel_array. now rewrite Hw.
Qed.

Lemma failed_windowing_leaves_frame_witness :
  let a := Examples.row uint16 [50; 100; 150] in
  let ds := Examples.dataset_of a None (Some (Scalar (PyInt 100)))
                                (Some (Sequence [])) in
  windowing Examples.voi_lut_raises a ds = a /\
  _normalize_pixel_array Examples.voi_lut_raises a ds
  = (inverted <- invert_monochrome1 a ds ;; intensity_normalize inverted).
Proof.
  apply (@failed_windowing_leaves_frame float binary64 Examples.voi_lut_raises
           _ _ (LibraryError 0)).
  - reflexivity.
  - right. right.
    exists (Scalar (PyInt 100)), (Sequence []), IndexError.
    repeat split; reflexivity.
Defined.

(** ** Shape classification *)


(** ** Manual windowing *)

Lemma py_floordiv2_halve {F : Type} {FO : Float64 F} (s : pyscalar F) (n : pynum F) :
  as_number s = Ok n -> py_floordiv2 s = Ok (halve n).
Proof.
  unfold py_floordiv2. intros ->. now destruct n.
Qed.

Lemma attr_number_inv {F : Type} (attr : option (pyval F)) (n : pynum F) :
  attr_number attr = Some n ->
  exists v s, attr = Some v /\ first_if_sequence v = Ok s /\ as_number s = Ok n.
Proof.
  unfold attr_number. destruct attr as [v|]; [|discriminate].
  destruct (first_if_sequence v) as [s|] eqn:E1; [|discriminate].
  destruct (as_number s) as [m|] eqn:E2; [|discriminate].
  intros [= <-]. now exists v, s.
Qed.

Lemma np_clip_shape {F : Type} {FO : Float64 F} (a a' : ndarray F) (lo hi : pynum F) :
  np_clip a lo hi = Ok a' -> shape a' = shape a /\ size a' = size a.
Proof.
  unfold np_clip, size.
  destruct (buf a) as [t l|l], lo as [zl|fl], hi as [zh|fh]; simpl;
    repeat match goal with
    | |- context [np_result_type ?t ?x ?y] =>
        destruct (np_result_type t x y) as [[?|]|]
    | |- context [py_float_of_int ?z] => destruct (py_float_of_int z); simpl
    end;
    intros [= <-] || discriminate; simpl; now rewrite ?length_map.
Qed.

Lemma clip_int_between (lo hi v : Z) : lo <= hi -> lo <= clip_int lo hi v <= hi.
Proof. unfold clip_int. lia. Qed.



(** ** The loop over the frames *)

Section Loop.

Context {F : Type} {FO : Float64 F}.
Variable apply_voi_lut : ndarray F -> Dataset F -> result (ndarray F).
Variable decompress : Dataset F -> result (Dataset F).

Lemma normalize_frames_from (ds : Dataset F) (frames acc : list (ndarray F)) :
  fold_left (normalize_step apply_voi_lut ds) frames acc
  = acc ++ survivors apply_voi_lut frames ds.
Proof.
  revert acc. induction frames as [|f frames IH]; intros acc; simpl.
  - now rewrite app_nil_r.
  - rewrite IH. unfold normalize_step.
    destruct (_normalize_pixel_array apply_voi_lut f ds); simpl.
    + now rewrite <- app_assoc.
    + reflexivity.
Qed.

Lemma normalize_frames_survivors (ds : Dataset F) (frames : list (ndarray F)) :
  normalize_frames apply_voi_lut frames ds = survivors apply_voi_lut frames ds.
Proof. unfold normalize_frames. now rewrite normalize_frames_from. Qed.

(** What the handler of the outer [try] makes of an exception [e]. *)
Lemma extract_frames_handler (depth : nat) (ds : Dataset F) (e : exn) :
  extract_frames_body apply_voi_lut ds = Raise e ->
  _extract_frames apply_voi_lut decompress (S depth) ds
  = Raise (CouldNotExtract e) \/
  exists ds' frames,
    has_PixelData ds = true /\ decompress ds = Ok ds' /\
    _extract_frames apply_voi_lut decompress depth ds' = Ok frames /\
    _extract_frames apply_voi_lut decompress (S depth) ds = Ok frames.
Proof.
  intros Hbody. simpl. rewrite Hbody. simpl. unfold retry_decompressed.
  destruct (has_PixelData ds); [|now left].
  destruct (decompress ds) as [ds'|]; simpl; [|now left].
  destruct (pixel_array ds'); simpl; [|now left].
  destruct (_extract_frames apply_voi_lut decompress depth ds') as [frames|] eqn:E;
    simpl; [|now left].
  right. now exists ds', frames.
Qed.

Lemma extract_frames_no_retry (depth : nat) (ds : Dataset F) (e : exn) :
  extract_frames_body apply_voi_lut ds = Raise e ->
  no_retry decompress ds ->
  _extract_frames apply_voi_lut decompress (S depth) ds
  = Raise (CouldNotExtract e).
Proof.
  intros Hbody Hno. simpl. rewrite Hbody. simpl. unfold retry_decompressed.
  destruct Hno as [-> | [e' ->]]; [reflexivity|].
  now destruct (has_PixelData ds).
Qed.

Lemma extract_frames_ok (depth : nat) (ds : Dataset F) (frames : list (ndarray F)) :
  extract_frames_body apply_voi_lut ds = Ok frames ->
  _extract_frames apply_voi_lut decompress (S depth) ds = Ok frames.
Proof. intros Hbody. simpl. now rewrite Hbody. Qed.

End Loop.

(** C9: each frame is normalised on its own: the frames that raise are left
    out and the others are kept, in order.  If at least one frame is left,
    the method returns exactly those frames.  If none is left, the pass
    raises "No frames could be successfully normalized", and nothing else
    makes it raise that; the error reaches the caller (wrapped by the outer
    handler) unless the retry on the decompressed dataset returns frames. *)
Theorem frame_failures_do_not_abort {F : Type} {FO : Float64 F}
    (apply_voi_lut : ndarray F -> Dataset F -> result (ndarray F))
    (decompress : Dataset F -> result (Dataset F))
    (ds : Dataset F) (a : ndarray F) (frames : list (ndarray F)) :
  pixel_array ds = Ok a ->
  split_frames a = Ok frames ->
  let kept := survivors apply_voi_lut frames ds in
  normalize_frames apply_voi_lut frames ds = kept /\
  (extract_frames_body apply_voi_lut ds = Raise NoFramesNormalized <-> kept = []) /\
  (kept <> [] ->
   forall depth, _extract_frames apply_voi_lut decompress (S depth) ds = Ok kept) /\
  (kept = [] ->
   forall depth,
     (no_retry decompress ds ->
      _extract_frames apply_voi_lut decompress (S depth) ds
      = Raise (CouldNotExtract NoFramesNormalized)) /\
     (_extract_frames apply_voi_lut decompress (S depth) ds
      = Raise (CouldNotExtract NoFramesNormalized) \/
      exists ds' frames',
        has_PixelData ds = true /\ decompress ds = Ok ds' /\
        _extract_frames apply_voi_lut decompress depth ds' = Ok frames' /\
        _extract_frames apply_voi_lut decompress (S depth) ds = Ok frames')).
Proof.
  intros Hpix Hsplit kept.
  assert (Hbody : extract_frames_body apply_voi_lut ds
                  = match kept with
                    | [] => Raise NoFramesNormalized
                    | _ :: _ => Ok kept
                    end).
  { unfold extract_frames_body. rewrite Hpix. simpl. rewrite Hsplit. simpl.
    now rewrite normalize_frames_survivors. }
  split; [apply normalize_frames_survivors|].
  split; [|split].
  - rewrite Hbody. destruct kept; split; intros H; try reflexivity; discriminate.
  - intros Hne depth. apply extract_frames_ok. rewrite Hbody.
    destruct kept; [contradiction|reflexivity].
  - intros Hnil depth. rewrite Hnil in Hbody. split.
    + intros Hno. now apply extract_frames_no_retry.
    + now apply extract_frames_handler.
Qed.

Lemma frame_failures_do_not_abort_witness :
  _extract_frames Examples.voi_lut_empties_dark Examples.decompress_raises 1
    (Examples.dataset_of Examples.two_frames None None None)
  = Ok [NdArray [3; 4]%N
          (IntBuf uint8 [0; 23; 46; 69; 92; 115; 139; 162; 185; 208; 231; 255])].
Proof.
  refine (proj1 (proj2 (proj2
            (@frame_failures_do_not_abort float binary64
               Examples.voi_lut_empties_dark Examples.decompress_raises
               (Examples.dataset_of Examples.two_frames None None None)
               Examples.two_frames
               [index_first Examples.two_frames 0; index_first Examples.two_frames 1]
               eq_refl eq_refl))) _ O).
  vm_compute. discriminate.
Defined.

(** ** Sizes of frames *)

Section Sizes.

Context {F : Type} {FO : Float64 F}.

Lemma size_map_buffer (f : forall A : Type, list A -> list A) (s s' : list N)
    (b : buffer F) (n : nat) :
  (forall A (l : list A), length l = size (NdArray s b) -> length (f A l) = n) ->
  size (NdArray s' (map_buffer f b)) = n.
Proof. unfold size. destruct b; simpl; intros H; now apply H. Qed.

Lemma length_block (A : Type) (i n : N) (l : list A) :
  (N.to_nat (i * n) + N.to_nat n <= length l)%nat ->
  length (block i n l) = N.to_nat n.
Proof.
  intros H. unfold block. rewrite length_firstn, length_skipn. lia.
Qed.

Lemma column_from_nonempty (A : Type) (i k : N) (l : list A) :
  forall (pos : N) (j : nat) (x : A),
    nth_error l j = Some x ->
    ((pos + N.of_nat j) mod k = i)%N ->
    column_from pos i k l <> [].
Proof.
  induction l as [|y l IH]; intros pos j x Hj Hmod.
  - now destruct j.
  - simpl. destruct j as [|j].
    + rewrite N.add_0_r in Hmod. apply N.eqb_eq in Hmod. rewrite Hmod. discriminate.
    + simpl in Hj.
      assert (Hne : column_from (N.succ pos) i k l <> []).
      { apply (IH (N.succ pos) j x Hj).
        rewrite <- Hmod. f_equal. lia. }
      destruct (N.eqb (pos mod k) i); [discriminate|exact Hne].
Qed.

Lemma column_nonempty (A : Type) (i k : N) (l : list A) :
  (i < k)%N -> (N.to_nat i < length l)%nat -> column i k l <> [].
Proof.
  intros Hik Hil.
  destruct (nth_error l (N.to_nat i)) as [x|] eqn:E.
  - apply (column_from_nonempty A i k l 0%N (N.to_nat i) x E).
    rewrite N.add_0_l, N2Nat.id. now apply N.mod_small.
  - apply nth_error_None in E. lia.
Qed.

Lemma in_range_lt (i n : N) : In i (range n) -> (i < n)%N.
Proof.
  unfold range. intros H. apply in_map_iff in H.
  destruct H as [j [<- Hj]]. apply in_seq in Hj. lia.
Qed.

Lemma range_nonempty (n : N) : n <> 0%N -> range n <> [].
Proof.
  unfold range. intros Hn.
  destruct (N.to_nat n) as [|m] eqn:E; [lia|]. simpl. discriminate.
Qed.

Lemma map_nonempty (A B : Type) (f : A -> B) (l : list A) :
  l <> [] -> map f l <> [].
Proof. now destruct l. Qed.

Lemma size_index_first (a : ndarray F) (i d : N) (rest : list N) :
  shape a = d :: rest ->
  N.of_nat (size a) = shape_size (shape a) ->
  (i < d)%N ->
  size (index_first a i) = N.to_nat (shape_size rest).
Proof.
  intros Hs Hwf Hi. unfold index_first. rewrite Hs. simpl tl.
  apply size_map_buffer with (s := shape a). intros A l Hl.
  apply length_block. rewrite Hl.
  rewrite Hs in Hwf. simpl in Hwf.
  change (size (NdArray (shape a) (buf a))) with (size a).
  rewrite N2Nat.inj_mul.
  assert (E : size a = (N.to_nat d * N.to_nat (shape_size rest))%nat)
    by (rewrite <- N2Nat.inj_mul, <- Hwf; now rewrite Nat2N.id).
  rewrite E.
  assert (Hi' : (N.to_nat i < N.to_nat d)%nat) by lia.
  nia.
Qed.

Lemma shape_size_nonzero (s : list N) :
  Forall (fun d => d <> 0%N) s -> shape_size s <> 0%N.
Proof.
  induction 1 as [|d s Hd _ IH]; simpl; [discriminate|]. nia.
Qed.

End Sizes.

(** ** Normalisation of a frame that has elements *)

Section NormalizeOk.

Context {F : Type} {FO : Float64 F}.
Variable apply_voi_lut : ndarray F -> Dataset F -> result (ndarray F).
Hypothesis voi_keeps_size : keeps_size apply_voi_lut.

Lemma manual_windowing_size (a a' : ndarray F) (wc ww : pyval F) :
  manual_windowing a wc ww = Ok a' -> size a' = size a.
Proof.
  unfold manual_windowing.
  destruct (first_if_sequence wc); simpl; [|discriminate].
  destruct (first_if_sequence ww) as [w|]; simpl; [|discriminate].
  destruct (py_floordiv2 w); simpl; [|discriminate].
  destruct (as_number _); simpl; [|discriminate].
  destruct (py_sub _ _); simpl; [|discriminate].
  destruct (py_add _ _); simpl; [|discriminate].
  intros H. now apply np_clip_shape in H.
Qed.

Lemma windowing_size (a : ndarray F) (ds : Dataset F) :
  size (windowing apply_voi_lut a ds) = size a.
Proof.
  unfold windowing.
  destruct (apply_voi_lut a ds) as [a'|e] eqn:E; simpl.
  - now apply voi_keeps_size in E.
  - destruct (WindowCenter ds) as [wc|]; [|reflexivity].
    destruct (WindowWidth ds) as [ww|]; [|reflexivity].
    destruct (manual_windowing a wc ww) as [a'|] eqn:E'; simpl; [|reflexivity].
    now apply manual_windowing_size in E'.
Qed.

Lemma reduce_ok (A : Type) (op : A -> A -> A) (l : list A) :
  l <> [] -> exists x, reduce op l = Ok x.
Proof. destruct l as [|x l]; [contradiction|]. intros _. now eexists. Qed.

Lemma np_min_ok (a : ndarray F) : size a <> O -> exists m, np_min a = Ok m.
Proof.
  unfold size, np_min. destruct (buf a) as [t l|l]; intros H;
    destruct l; try contradiction; simpl; now eexists.
Qed.

Lemma np_max_ok (a : ndarray F) : size a <> O -> exists m, np_max a = Ok m.
Proof.
  unfold size, np_max. destruct (buf a) as [t l|l]; intros H;
    destruct l; try contradiction; simpl; now eexists.
Qed.

Lemma scalar_minus_array_size (m : scalar F) (a : ndarray F) :
  size (scalar_minus_array m a) = size a.
Proof.
  unfold scalar_minus_array, size. destruct m, (buf a); simpl;
    now rewrite ?length_map.
Qed.

Lemma invert_monochrome1_ok (a : ndarray F) (ds : Dataset F) :
  size a <> O ->
  exists a', invert_monochrome1 a ds = Ok a' /\ size a' = size a.
Proof.
  intros Hn. unfold invert_monochrome1.
  destruct (String.eqb (photometric ds) "MONOCHROME1").
  - destruct (np_max_ok a Hn) as [m ->]. simpl.
    eexists. split; [reflexivity|]. apply scalar_minus_array_size.
  - now exists a.
Qed.

Lemma intensity_normalize_ok (a : ndarray F) :
  size a <> O -> exists a', intensity_normalize a = Ok a'.
Proof.
  intros Hn. unfold intensity_normalize.
  destruct (is_uint8 a); simpl; [now eexists|].
  destruct (np_min_ok a Hn) as [mn ->]. destruct (np_max_ok a Hn) as [mx ->].
  simpl. destruct (scalar_gt mx mn); now eexists.
Qed.

Lemma normalize_pixel_array_ok (a : ndarray F) (ds : Dataset F) :
  size a <> O -> exists a', _normalize_pixel_array apply_voi_lut a ds = Ok a'.
Proof.
  intros Hn. unfold _normalize_pixel_array.
  assert (Hw : size (windowing apply_voi_lut a ds) <> O)
    by now rewrite windowing_size.
  destruct (invert_monochrome1_ok _ ds Hw) as [a1 [-> Hs]]. simpl.
  apply intensity_normalize_ok. now rewrite Hs.
Qed.

Lemma survivors_all (frames : list (ndarray F)) (ds : Dataset F) :
  Forall (fun f => size f <> O) frames ->
  length (survivors apply_voi_lut frames ds) = length frames.
Proof.
  induction 1 as [|f frames Hf _ IH]; simpl; [reflexivity|].
  destruct (normalize_pixel_array_ok f ds Hf) as [a' ->]. simpl. now rewrite IH.
Qed.

End NormalizeOk.

(** ** The frames of a buffer without a zero dimension *)

Section SplitNonempty.

Context {F : Type} {FO : Float64 F}.

Lemma size_column_nonzero (s s' : list N) (b : buffer F) (i k : N) :
  (i < k)%N ->
  (N.to_nat i < size (NdArray s' b))%nat ->
  size (NdArray s (map_buffer (column i k) b)) <> O.
Proof.
  unfold size. destruct b as [t l|l]; simpl; intros Hik Hil Hlen;
    apply length_zero_iff_nil in Hlen;
    now apply (column_nonempty _ i k l Hik Hil).
Qed.

Lemma size_nonzero (a : ndarray F) :
  N.of_nat (size a) = shape_size (shape a) ->
  no_zero_dimension a ->
  size a <> O.
Proof.
  intros Hwf Hnz Hs. apply shape_size_nonzero in Hnz.
  rewrite Hs in Hwf. simpl in Hwf. congruence.
Qed.

Lemma index_first_nonzero (a : ndarray F) (i d : N) (rest : list N) :
  shape a = d :: rest ->
  N.of_nat (size a) = shape_size (shape a) ->
  no_zero_dimension a ->
  (i < d)%N ->
  size (index_first a i) <> O.
Proof.
  intros Hs Hwf Hnz Hi.
  rewrite (size_index_first a i d rest Hs Hwf Hi).
  unfold no_zero_dimension in Hnz. rewrite Hs in Hnz.
  inversion Hnz as [|? ? _ Hrest]; subst.
  apply shape_size_nonzero in Hrest. lia.
Qed.

Lemma split_frames_nonempty (a : ndarray F) :
  N.of_nat (size a) = shape_size (shape a) ->
  no_zero_dimension a ->
  rank a = 2%nat \/ rank a = 3%nat \/ rank a = 4%nat ->
  exists frames,
    split_frames a = Ok frames /\ frames <> [] /\
    Forall (fun f => size f <> O) frames.
Proof.
  intros Hwf Hnz Hrank.
  pose proof (size_nonzero a Hwf Hnz) as Hsize.
  assert (Hidx : forall i d rest, shape a = d :: rest -> (i < d)%N ->
            size (index_first a i) <> O).
  { intros i d rest Hs Hi. now apply (index_first_nonzero a i d rest Hs Hwf Hnz). }
  assert (Hfirst : forall d rest, shape a = d :: rest ->
            map (index_first a) (range d) <> [] /\
            Forall (fun f => size f <> O) (map (index_first a) (range d))).
  { intros d rest Hs. split.
    - apply map_nonempty, range_nonempty.
      unfold no_zero_dimension in Hnz. rewrite Hs in Hnz. now inversion Hnz.
    - apply Forall_forall. intros f Hf. apply in_map_iff in Hf.
      destruct Hf as [i [<- Hi]]. apply in_range_lt in Hi.
      now apply (Hidx i d rest). }
  assert (Hsz : size a = N.to_nat (shape_size (shape a)))
    by (rewrite <- Hwf; now rewrite Nat2N.id).
  unfold split_frames, rank, dim, no_zero_dimension in *.
  destruct (shape a) as [|d0 [|d1 [|d2 [|d3 [|d4 s]]]]] eqn:Hs;
    simpl in Hrank; try (exfalso; lia); simpl.
  - exists [a]. repeat split; [discriminate|repeat constructor; exact Hsize].
  - destruct (d2 =? 3)%N.
    { exists [a]. repeat split; [discriminate|repeat constructor; exact Hsize]. }
    destruct ((d0 <? d1)%N && (d0 <? d2)%N).
    { eexists. split; [reflexivity|]. exact (Hfirst d0 _ eq_refl). }
    destruct (3 <? d2)%N eqn:H3.
    + eexists. split; [reflexivity|]. split.
      * apply map_nonempty, range_nonempty. apply N.ltb_lt in H3. lia.
      * apply Forall_forall. intros f Hf. apply in_map_iff in Hf.
        destruct Hf as [i [<- Hi]]. apply in_range_lt in Hi.
        unfold index_last. rewrite Hs. simpl nth.
        apply size_column_nonzero with (s' := shape a); [exact Hi|].
        change (size (NdArray (shape a) (buf a))) with (size a).
        rewrite Hsz. simpl.
        inversion Hnz as [|? ? Hd0 Hn1]; subst.
        inversion Hn1 as [|? ? Hd1 Hn2]; subst.
        assert (H01 : (1 <= d0 * d1)%N) by nia.
        assert (Hall : (d2 <= d0 * (d1 * (d2 * 1)))%N) by nia.
        lia.
    + exists [a]. repeat split; [discriminate|repeat constructor; exact Hsize].
  - destruct (d3 =? 1)%N eqn:H1.
    { eexists. split; [reflexivity|]. split.
      - apply map_nonempty, range_nonempty. now inversion Hnz.
      - apply Forall_forall. intros f Hf. apply in_map_iff in Hf.
        destruct Hf as [i [<- Hi]]. apply in_range_lt in Hi.
        unfold index_first_channel0.
        assert (Hf : size (index_first a i) <> O)
          by now apply (Hidx i d0 _ eq_refl).
        apply size_column_nonzero with (s' := shape (index_first a i)).
        + unfold index_first. rewrite Hs. simpl. apply N.eqb_eq in H1. lia.
        + change (size (NdArray (shape (index_first a i)) (buf (index_first a i))))
            with (size (index_first a i)). simpl. lia. }
    destruct (d3 =? 3)%N.
    { eexists. split; [reflexivity|]. exact (Hfirst d0 _ eq_refl). }
    exists [index_first a 0]. repeat split; [discriminate|].
    repeat constructor. apply (Hidx 0%N d0 _ eq_refl).
    inversion Hnz; subst. lia.
Qed.

End SplitNonempty.

(** ** What the segmenter accepts *)

(** C4 (amended): a buffer whose rank is not 2, 3 or 4 makes the pass fail
    with the unsupported-shape error, and that is the error the caller gets
    (wrapped by the outer handler) when the retry cannot run.  A well-formed
    buffer of rank 2, 3 or 4 none of whose dimensions is zero yields at
    least one frame, given a VOI LUT that keeps the size of a frame.  The
    segmenter has no check for a zero dimension. *)
Theorem segmenter_outcome {F : Type} {FO : Float64 F}
    (apply_voi_lut : ndarray F -> Dataset F -> result (ndarray F))
    (decompress : Dataset F -> result (Dataset F))
    (ds : Dataset F) (a : ndarray F) :
  pixel_array ds = Ok a ->
  (rank a <> 2%nat -> rank a <> 3%nat -> rank a <> 4%nat ->
   extract_frames_body apply_voi_lut ds = Raise (UnsupportedShape (shape a)) /\
   forall depth,
     no_retry decompress ds ->
     _extract_frames apply_voi_lut decompress (S depth) ds
     = Raise (CouldNotExtract (UnsupportedShape (shape a)))) /\
  (rank a = 2%nat \/ rank a = 3%nat \/ rank a = 4%nat ->
   well_formed a ->
   no_zero_dimension a ->
   keeps_size apply_voi_lut ->
   forall depth,
   exists frames,
     _extract_frames apply_voi_lut decompress (S depth) ds = Ok frames /\
     (1 <= length frames)%nat).
Proof.
  intros Hpix. split.
  - intros H2 H3 H4.
    assert (Hbody : extract_frames_body apply_voi_lut ds
                    = Raise (UnsupportedShape (shape a))).
    { unfold extract_frames_body. rewrite Hpix. simpl.
      unfold split_frames.
      destruct (rank a) as [|[|[|[|[|n]]]]]; try reflexivity; contradiction. }
    split; [exact Hbody|].
    intros depth Hno. now apply extract_frames_no_retry.
  - intros Hrank [Hwf _] Hnz Hvoi depth.
    destruct (split_frames_nonempty a Hwf Hnz Hrank) as [frames [Hsplit [Hne Hall]]].
    exists (survivors apply_voi_lut frames ds).
    pose proof (survivors_all apply_voi_lut Hvoi frames ds Hall) as Hlen.
    split.
    + apply extract_frames_ok.
      unfold extract_frames_body. rewrite Hpix. simpl. rewrite Hsplit. simpl.
      rewrite normalize_frames_survivors.
      destruct (survivors apply_voi_lut frames ds); [|reflexivity].
      destruct frames; [contradiction|discriminate].
    + rewrite Hlen. destruct frames; [contradiction|simpl; lia].
Qed.

Lemma segmenter_outcome_witness :
  exists frames,
    _extract_frames Examples.voi_lut_unchanged Examples.decompress_raises 1
      (Examples.dataset_of (Examples.row uint16 [1; 2; 3]) None None None)
    = Ok frames /\
    (1 <= length frames)%nat.
Proof.
  apply (proj2 (segmenter_outcome Examples.voi_lut_unchanged
                  Examples.decompress_raises
                  (Examples.dataset_of (Examples.row uint16 [1; 2; 3]) None None None)
                  (Examples.row uint16 [1; 2; 3]) eq_refl)).
  - left. reflexivity.
  - split; [reflexivity|]. repeat constructor.
  - repeat constructor; discriminate.
  - intros a ds a' H. injection H as <-. reflexivity.
Defined.

(** C4, as stated, fails on a buffer with a zero dimension: a uint8 buffer
    of shape (0, 5) is returned as one (empty) frame. *)
Lemma zero_dimension_not_rejected :
  let a := NdArray [0; 5]%N (@IntBuf float uint8 []) in
  In 0%N (shape a) /\ well_formed a /\
  _extract_frames Examples.voi_lut_unchanged Examples.decompress_raises 1
    (Examples.dataset_of a None None None)
  = Ok [a].
Proof.
  repeat split; simpl; auto.
Qed.

(** ** Splitting a list into blocks and into columns, and back *)

Section Restack.

Variable A : Type.

Lemma concat_blocks (n d : nat) :
  forall l : list A,
    length l = (d * n)%nat ->
    concat (map (fun i => firstn n (skipn (i * n) l)) (seq 0 d)) = l.
Proof.
  induction d as [|d IH]; intros l Hl.
  - simpl in *. now apply length_zero_iff_nil in Hl.
  - rewrite <- cons_seq, <- seq_shift, map_cons, map_map. cbn [concat].
    etransitivity; [|apply (firstn_skipn n l)]. f_equal.
    etransitivity; [|apply (IH (skipn n l)); rewrite length_skipn; lia].
    f_equal. apply map_ext. intros i.
    rewrite skipn_skipn. do 2 f_equal. lia.
Qed.

Lemma concat_block_range (n d : N) (l : list A) :
  N.of_nat (length l) = (d * n)%N ->
  concat (map (fun i => block i n l) (range d)) = l.
Proof.
  intros Hl. unfold range, block. rewrite map_map.
  etransitivity; [|apply (concat_blocks (N.to_nat n) (N.to_nat d) l); lia].
  f_equal. apply map_ext. intros i. do 2 f_equal. lia.
Qed.

Lemma column_from_app (i k : N) (l1 l2 : list A) :
  forall pos,
    column_from pos i k (l1 ++ l2)
    = column_from pos i k l1
      ++ column_from (pos + N.of_nat (length l1)) i k l2.
Proof.
  induction l1 as [|x l1 IH]; intros pos; simpl.
  - now rewrite N.add_0_r.
  - rewrite IH.
    replace (N.succ pos + N.of_nat (length l1))%N
      with (pos + N.pos (Pos.of_succ_nat (length l1)))%N by lia.
    now destruct (N.eqb (pos mod k) i).
Qed.

Lemma column_from_none (i k : N) (l : list A) :
  forall pos,
    (forall j, (j < length l)%nat -> ((pos + N.of_nat j) mod k <> i)%N) ->
    column_from pos i k l = [].
Proof.
  induction l as [|x l IH]; intros pos H; simpl; [reflexivity|].
  rewrite IH.
  - specialize (H O). simpl in H. rewrite N.add_0_r in H.
    destruct (N.eqb_spec (pos mod k) i) as [E|E]; [|reflexivity].
    exfalso. apply H; [lia|exact E].
  - intros j Hj. specialize (H (S j)).
    replace (N.succ pos + N.of_nat j)%N with (pos + N.of_nat (S j))%N by lia.
    apply H. simpl. lia.
Qed.

Lemma column_from_shift (i k : N) (l : list A) :
  forall pos, column_from (pos + k) i k l = column_from pos i k l.
Proof.
  induction l as [|x l IH]; intros pos; simpl; [reflexivity|].
  replace (N.succ (pos + k)) with (N.succ pos + k)%N by lia.
  rewrite IH.
  destruct (N.eq_dec k 0) as [->|Hk].
  - now rewrite N.add_0_r.
  - replace ((pos + k) mod k)%N with (pos mod k)%N; [reflexivity|].
    rewrite <- (N.mul_1_l k) at 2. now rewrite N.Div0.mod_add.
Qed.

(** One chunk of [k] elements gives each column its element. *)
Lemma column_from_chunk (i k : N) (c r : list A) (x : A) :
  length c = N.to_nat k ->
  nth_error c (N.to_nat i) = Some x ->
  column_from 0 i k (c ++ r) = x :: column_from 0 i k r.
Proof.
  intros Hc Hx.
  assert (Hi : (N.to_nat i < length c)%nat)
    by (apply nth_error_Some; congruence).
  destruct (nth_error_split c (N.to_nat i) Hx) as [c1 [c2 [-> Hc1]]].
  rewrite length_app in Hc, Hi. simpl in Hc, Hi.
  rewrite <- !app_assoc, column_from_app.
  rewrite column_from_none.
  2:{ intros j Hj. rewrite N.add_0_l, N.mod_small by lia. lia. }
  rewrite app_nil_l, N.add_0_l, Hc1, N2Nat.id. cbn [app column_from].
  rewrite N.mod_small by lia. rewrite N.eqb_refl. f_equal.
  rewrite column_from_app, column_from_none.
  2:{ intros j Hj. rewrite N.mod_small by lia. lia. }
  rewrite app_nil_l.
  replace (N.succ i + N.of_nat (length c2))%N with (0 + k)%N by lia.
  apply column_from_shift.
Qed.

Definition option_to_list (o : option A) : list A :=
  match o with Some x => [x] | None => [] end.

Lemma flat_map_nth_error (c : list A) :
  flat_map (fun j => option_to_list (nth_error c j)) (seq 0 (length c)) = c.
Proof.
  induction c as [|x c IH]; [reflexivity|].
  simpl length. rewrite <- cons_seq, <- seq_shift. simpl.
  f_equal. rewrite flat_map_concat_map, map_map, <- flat_map_concat_map.
  exact IH.
Qed.

Lemma interleave_columns (k : N) (m : nat) :
  forall l : list A,
    length l = (m * N.to_nat k)%nat ->
    interleave m (map (fun i => column i k l) (range k)) = l /\
    (forall i, (i < k)%N -> length (column i k l) = m).
Proof.
  induction m as [|m IH]; intros l Hl.
  - simpl in Hl. apply length_zero_iff_nil in Hl. subst l. now split.
  - set (c := firstn (N.to_nat k) l). set (r := skipn (N.to_nat k) l).
    assert (Hcr : l = c ++ r) by (symmetry; apply firstn_skipn).
    assert (Hc : length c = N.to_nat k)
      by (unfold c; rewrite length_firstn; lia).
    assert (Hr : length r = (m * N.to_nat k)%nat)
      by (unfold r; rewrite length_skipn; lia).
    destruct (IH r Hr) as [IHr IHlen].
    assert (Hcol : forall i, (i < k)%N ->
              exists x, nth_error c (N.to_nat i) = Some x /\
                        column i k l = x :: column i k r).
    { intros i Hi.
      destruct (nth_error c (N.to_nat i)) as [x|] eqn:E.
      - exists x. split; [reflexivity|]. unfold column. rewrite Hcr.
        now apply column_from_chunk.
      - apply nth_error_None in E. lia. }
    split.
    + cbn [interleave]. transitivity (c ++ r); [|now symmetry]. f_equal.
      * etransitivity; [|apply (flat_map_nth_error c)]. rewrite Hc.
        unfold heads, range.
        rewrite (flat_map_concat_map _ (map _ _)), (flat_map_concat_map _ (seq _ _)).
        rewrite !map_map.
        f_equal. apply map_ext_in. intros j Hj. apply in_seq in Hj.
        destruct (Hcol (N.of_nat j)) as [x [Hx ->]]; [lia|].
        rewrite Nat2N.id in Hx. now rewrite Hx.
      * etransitivity; [|exact IHr]. f_equal.
        rewrite map_map. apply map_ext_in. intros i Hi.
        apply in_range_lt in Hi.
        destruct (Hcol i Hi) as [x [_ ->]]. reflexivity.
    + intros i Hi. destruct (Hcol i Hi) as [x [_ ->]]. simpl.
      now rewrite IHlen.
Qed.

Lemma column_0_of_1 (l : list A) : column 0 1 l = l.
Proof.
  unfold column. generalize 0%N at 1.
  induction l as [|x l IH]; intros pos; simpl; [reflexivity|].
  rewrite N.mod_1_r. simpl. now rewrite IH.
Qed.

End Restack.

(** ** The frames of a buffer, stacked back *)

Section FramesCover.

Context {F : Type} {FO : Float64 F}.

Lemma block_map (A B : Type) (g : A -> B) (i n : N) (l : list A) :
  block i n (map g l) = map g (block i n l).
Proof. unfold block. now rewrite skipn_map, firstn_map. Qed.

Lemma column_from_map (A B : Type) (g : A -> B) (i k : N) (l : list A) :
  forall pos, column_from pos i k (map g l) = map g (column_from pos i k l).
Proof.
  induction l as [|x l IH]; intros pos; simpl; [reflexivity|].
  rewrite IH. now destruct (N.eqb (pos mod k) i).
Qed.

Lemma values_map_buffer (f : forall A : Type, list A -> list A)
    (s s' : list N) (b : buffer F) :
  (forall A B (g : A -> B) l, f B (map g l) = map g (f A l)) ->
  values (NdArray s (map_buffer f b)) = f _ (values (NdArray s' b)).
Proof. intros Hnat. unfold values. destruct b; simpl; now rewrite Hnat. Qed.

Lemma values_index_first (a : ndarray F) (i : N) :
  values (index_first a i) = block i (shape_size (tl (shape a))) (values a).
Proof.
  unfold index_first.
  rewrite (values_map_buffer _ _ (shape a)); [reflexivity|].
  intros A B g l. apply block_map.
Qed.

Lemma values_index_last (a : ndarray F) (i : N) :
  values (index_last a i) = column i (nth 2 (shape a) 0%N) (values a).
Proof.
  unfold index_last.
  rewrite (values_map_buffer _ _ (shape a)); [reflexivity|].
  intros A B g l. apply column_from_map.
Qed.

Lemma values_index_first_channel0 (a : ndarray F) (i : N) :
  nth 3 (shape a) 0%N = 1%N ->
  values (index_first_channel0 a i) = values (index_first a i).
Proof.
  intros H1. unfold index_first_channel0.
  rewrite (values_map_buffer _ _ (shape (index_first a i))).
  2:{ intros A B g l. apply column_from_map. }
  replace (nth 2 (shape (index_first a i)) 0%N) with 1%N.
  - apply column_0_of_1.
  - unfold index_first. simpl. rewrite <- H1. now destruct (shape a).
Qed.

Lemma length_values (a : ndarray F) : length (values a) = size a.
Proof. unfold values, size. destruct (buf a); apply length_map. Qed.

Lemma stack_first_index_first (a : ndarray F) (d : N) (rest : list N) :
  shape a = d :: rest ->
  N.of_nat (size a) = shape_size (shape a) ->
  stack_first (map (index_first a) (range d)) = values a.
Proof.
  intros Hs Hwf. unfold stack_first. rewrite map_map.
  rewrite (map_ext _ (fun i => block i (shape_size rest) (values a))).
  - apply concat_block_range. rewrite length_values, Hwf, Hs. reflexivity.
  - intros i. rewrite values_index_first, Hs. reflexivity.
Qed.

Lemma stack_first_single (a : ndarray F) : stack_first [a] = values a.
Proof. unfold stack_first. simpl. apply app_nil_r. Qed.

Lemma stack_last_index_last (a : ndarray F) (d0 d1 d2 : N) :
  shape a = [d0; d1; d2] ->
  N.of_nat (size a) = shape_size (shape a) ->
  (0 < d2)%N ->
  stack_last (map (index_last a) (range d2)) = values a.
Proof.
  intros Hs Hwf Hd2.
  assert (Hl : length (values a) = (N.to_nat (d0 * d1) * N.to_nat d2)%nat).
  { rewrite length_values. rewrite Hs in Hwf. simpl in Hwf. lia. }
  destruct (interleave_columns _ d2 (N.to_nat (d0 * d1)) (values a) Hl)
    as [Hall Hlen].
  assert (Hmap : map values (map (index_last a) (range d2))
                 = map (fun i => column i d2 (values a)) (range d2)).
  { rewrite map_map. apply map_ext. intros i.
    rewrite values_index_last, Hs. reflexivity. }
  unfold stack_last.
  destruct (map (index_last a) (range d2)) as [|f fs] eqn:E.
  - apply map_eq_nil in E. apply range_nonempty in E; [contradiction|lia].
  - rewrite Hmap.
    replace (size f) with (N.to_nat (d0 * d1)); [exact Hall|].
    assert (Hf : f = index_last a 0).
    { unfold range in E. destruct (N.to_nat d2) eqn:E2; [lia|].
      simpl in E. now injection E as <- _. }
    rewrite Hf, <- length_values, values_index_last, Hs. simpl nth.
    symmetry. now apply Hlen.
Qed.

End FramesCover.




(** ** The laws hold in exact arithmetic *)

Section ExactLaws.

Local Open Scope Q_scope.

Lemma Q_ltb_lt (x y : Q) : Q_ltb x y = true <-> x < y.
Proof.
  unfold Q_ltb. rewrite negb_true_iff, <- not_true_iff_false, Qle_bool_iff.
  split; [apply Qnot_le_lt|apply Qlt_not_le].
Qed.

Lemma Q_div_le (x y d : Q) : 0 < d -> x <= y -> x / d <= y / d.
Proof.
  intros Hd Hxy. unfold Qdiv. apply Qmult_le_compat_r; [exact Hxy|].
  apply Qlt_le_weak, Qinv_lt_0_compat, Hd.
Qed.

Lemma Q_div_0 (d : Q) : 0 / d == 0.
Proof. unfold Qdiv. apply Qmult_0_l. Qed.

Lemma exactQ_laws : @Float64Laws Q exactQ.
Proof.
  constructor; simpl.
  - now intros.
  - now intros.
  - now intros.
  - reflexivity.
  - intros x _. apply Qle_bool_iff, Qle_refl.
  - intros x y z Hxy Hyz. apply Qle_bool_iff in Hxy, Hyz.
    apply Qle_bool_iff. now apply Qle_trans with y.
  - intros x y H. apply Q_ltb_lt in H. now apply Qle_bool_iff, Qlt_le_weak.
  - now intros.
  - intros a b _ _ H. apply Qle_bool_iff. now rewrite <- Zle_Qle.
  - intros z _ H. apply Q_ltb_lt. now rewrite <- Zlt_Qlt.
  - intros z _ H. apply Q_ltb_lt. now rewrite <- Zlt_Qlt.
  - intros a b m _ _ _ H. apply Qle_bool_iff in H. apply Qle_bool_iff.
    unfold Qminus. apply Qplus_le_compat; [exact H|apply Qle_refl].
  - intros m _. apply Qle_bool_iff. unfold Qminus. rewrite Qplus_opp_r.
    apply Qle_refl.
  - intros a m _ _ H. apply Q_ltb_lt in H. apply Q_ltb_lt.
    unfold Qminus. rewrite <- (Qplus_opp_r m).
    apply Qplus_lt_le_compat; [exact H|apply Qle_refl].
  - intros x y d _ Hxy Hd _. apply Qle_bool_iff in Hxy. apply Q_ltb_lt in Hd.
    apply Qle_bool_iff. now apply Q_div_le.
  - intros x d Hx Hd _. apply Qle_bool_iff in Hx. apply Q_ltb_lt in Hd.
    apply Qle_bool_iff. rewrite <- (Q_div_0 d). now apply Q_div_le.
  - intros x d Hx Hd _. apply Qle_bool_iff in Hx. apply Q_ltb_lt in Hd.
    apply Qle_bool_iff. unfold Qdiv.
    setoid_replace (x * / d) with (- (x * / (- d))).
    + setoid_replace (inject_Z 0) with (- 0) by reflexivity.
      apply Qopp_le_compat.
      apply Qmult_le_0_compat; [exact Hx|].
      apply Qlt_le_weak, Qinv_lt_0_compat.
      setoid_replace (inject_Z 0) with (- 0) by reflexivity.
      now apply Qopp_lt_compat.
    + assert (Hd0 : ~ d == 0) by (intros E; rewrite E in Hd; discriminate).
      field. exact Hd0.
  - intros x y _ Hxy. apply Qle_bool_iff in Hxy. apply Qle_bool_iff.
    apply Qmult_le_compat_r; [exact Hxy|discriminate].
  - intros x Hx. apply Qle_bool_iff in Hx. apply Qle_bool_iff.
    apply Qmult_le_0_compat; [exact Hx|discriminate].
  - intros x Hx. apply Qle_bool_iff in Hx. apply Qle_bool_iff.
    setoid_replace (inject_Z 0) with (0 * inject_Z 255) by reflexivity.
    apply Qmult_le_compat_r; [exact Hx|discriminate].
  - intros x y Hx Hxy Hy. unfold Q_trunc.
    assert (Hy0 : Qle_bool 0 y = true).
    { apply Qle_bool_iff. apply Qle_bool_iff in Hx, Hxy.
      now apply Qle_trans with x. }
    change (inject_Z 0) with 0 in Hx. rewrite Hx, Hy0.
    apply Qle_bool_iff in Hx, Hxy, Hy.
    repeat split.
    + change 0%Z with (Qfloor 0). now apply Qfloor_resp_le.
    + now apply Qfloor_resp_le.
    + change 255%Z with (Qfloor (inject_Z 255)). now apply Qfloor_resp_le.
  - reflexivity.
Qed.

End ExactLaws.

(** ** The rescale keeps the order of the elements *)

Section Monotone.

Context {F : Type} {FO : Float64 F} {FL : Float64Laws F}.

Local Abbreviation zero := (f_of_Z 0).
Local Abbreviation c255 := (f_of_Z 255).
Local Notation "x <=f y" := (f_leb x y = true) (at level 70).
Local Notation "x <f y" := (f_ltb x y = true) (at level 70).

Lemma in_64_bits_0 : in_64_bits 0.
Proof. unfold in_64_bits. lia. Qed.

Lemma in_64_bits_255 : in_64_bits 255.
Proof. unfold in_64_bits. lia. Qed.

Lemma zero_le_255 : zero <=f c255.
Proof. apply of_Z_mono; [apply in_64_bits_0|apply in_64_bits_255|lia]. Qed.

Lemma zero_lt_255 : zero <f c255.
Proof. apply of_Z_pos; [apply in_64_bits_255|lia]. Qed.

Lemma zero_not_nan : f_is_nan zero = false.
Proof. apply finite_not_nan, of_Z_finite, in_64_bits_0. Qed.

Lemma not_ltb_leb (x y : F) :
  f_is_nan x = false -> f_is_nan y = false -> f_ltb x y = false -> y <=f x.
Proof.
  intros Hx Hy H. rewrite (ltb_negb_leb x y Hx Hy) in H.
  now apply negb_false_iff in H.
Qed.

(** *** Clipping to 0..255 *)

Lemma clip_max_zero (v : F) :
  zero <=f v ->
  zero <=f clip_max v zero /\ clip_max v zero <=f v /\ v <=f clip_max v zero.
Proof.
  intros Hv. destruct (leb_not_nan _ _ Hv) as [_ Hn].
  unfold clip_max. rewrite Hn.
  destruct (f_ltb zero v) eqn:E.
  - repeat split; [exact Hv|now apply leb_refl|now apply leb_refl].
  - apply (not_ltb_leb _ _ zero_not_nan Hn) in E.
    repeat split; [apply leb_refl, zero_not_nan|exact Hv|exact E].
Qed.

Lemma clip_min_255 (w : F) :
  f_is_nan w = false ->
  clip_min w c255 <=f c255 /\ clip_min w c255 <=f w /\
  (clip_min w c255 = w \/ clip_min w c255 = c255).
Proof.
  intros Hn. unfold clip_min. rewrite Hn.
  assert (Hc : f_is_nan c255 = false)
    by apply (proj2 (leb_not_nan _ _ zero_le_255)).
  destruct (f_ltb w c255) eqn:E.
  - repeat split; [now apply ltb_leb|now apply leb_refl|now left].
  - apply (not_ltb_leb _ _ Hn Hc) in E.
    repeat split; [now apply leb_refl|exact E|now right].
Qed.

Lemma clip_float_bounds (v : F) :
  zero <=f v ->
  zero <=f clip_float zero c255 v /\ clip_float zero c255 v <=f c255.
Proof.
  intros Hv. unfold clip_float.
  destruct (clip_max_zero v Hv) as [H0 [_ _]].
  destruct (leb_not_nan _ _ H0) as [_ Hn].
  destruct (clip_min_255 _ Hn) as [Hc [_ [E|E]]]; rewrite E in *.
  - now split.
  - split; [apply zero_le_255|exact Hc].
Qed.

Lemma clip_float_mono (u v : F) :
  zero <=f u -> u <=f v ->
  clip_float zero c255 u <=f clip_float zero c255 v.
Proof.
  intros Hu Huv.
  assert (Hv : zero <=f v) by now apply leb_trans with u.
  unfold clip_float.
  destruct (clip_max_zero u Hu) as [Hu0 [Hu1 _]].
  destruct (clip_max_zero v Hv) as [Hv0 [_ Hv2]].
  destruct (leb_not_nan _ _ Hu0) as [_ Hnu].
  destruct (leb_not_nan _ _ Hv0) as [_ Hnv].
  destruct (clip_min_255 _ Hnu) as [Huc [Huw _]].
  destruct (clip_min_255 _ Hnv) as [_ [_ [E|E]]]; rewrite E.
  - apply leb_trans with (clip_max u zero); [exact Huw|].
    apply leb_trans with u; [exact Hu1|].
    now apply leb_trans with v.
  - exact Huc.
Qed.

Lemma clip_float_nonpos (p : F) :
  p <=f zero -> clip_float zero c255 p = zero.
Proof.
  intros Hp. destruct (leb_not_nan _ _ Hp) as [Hn _].
  unfold clip_float, clip_max. rewrite Hn.
  rewrite (ltb_negb_leb zero p zero_not_nan Hn), Hp. simpl.
  unfold clip_min. now rewrite zero_not_nan, zero_lt_255.
Qed.

(** *** One element *)

Lemma astype_uint8_small (x : F) :
  0 <= f_trunc x <= 255 -> astype_uint8 x = f_trunc x.
Proof.
  intros H. unfold astype_uint8. apply wrap_in_range.
  unfold in_range. change (dtype_min uint8) with 0.
  change (dtype_max uint8) with 255.
  apply andb_true_iff. split; apply Z.leb_le; lia.
Qed.

Lemma rescale_nonneg (m d u : F) :
  zero <=f f_sub u m -> zero <f d -> f_is_finite d = true ->
  zero <=f rescale m d u.
Proof.
  intros Hu Hd Hf. unfold rescale.
  apply mul_255_nonneg. now apply div_nonneg.
Qed.

Lemma rescale_mono (m d u v : F) :
  zero <=f f_sub u m -> f_sub u m <=f f_sub v m ->
  zero <f d -> f_is_finite d = true ->
  rescale m d u <=f rescale m d v.
Proof.
  intros Hu Huv Hd Hf. unfold rescale.
  apply mul_255_mono; [now apply div_nonneg|now apply div_mono].
Qed.

Lemma rescale_uint8_mono (m d u v : F) :
  zero <=f f_sub u m -> f_sub u m <=f f_sub v m ->
  zero <f d -> f_is_finite d = true ->
  rescale_uint8 m d u <= rescale_uint8 m d v.
Proof.
  intros Hu Huv Hd Hf.
  assert (Hv : zero <=f f_sub v m) by now apply leb_trans with (f_sub u m).
  pose proof (rescale_nonneg m d u Hu Hd Hf) as Hru.
  pose proof (rescale_nonneg m d v Hv Hd Hf) as Hrv.
  pose proof (rescale_mono m d u v Hu Huv Hd Hf) as Hr.
  destruct (clip_float_bounds _ Hru) as [Hcu0 Hcu1].
  destruct (clip_float_bounds _ Hrv) as [Hcv0 Hcv1].
  pose proof (clip_float_mono _ _ Hru Hr) as Hc.
  destruct (trunc_mono _ _ Hcu0 Hc Hcv1) as [T0 [T1 T2]].
  unfold rescale_uint8. rewrite !astype_uint8_small; lia.
Qed.

Lemma rescale_uint8_negative_range (m d u : F) :
  zero <=f f_sub u m -> d <f zero -> f_is_finite d = true ->
  rescale_uint8 m d u = 0.
Proof.
  intros Hu Hd Hf. unfold rescale_uint8, rescale.
  rewrite clip_float_nonpos.
  - rewrite astype_uint8_small; rewrite trunc_zero; lia.
  - apply mul_255_nonpos. now apply div_nonpos.
Qed.

End Monotone.

(** *** Minimum and maximum of the elements *)

Lemma fold_min_spec (l : list Z) :
  forall x,
    fold_left Z.min l x <= x /\
    (forall y, In y l -> fold_left Z.min l x <= y) /\
    In (fold_left Z.min l x) (x :: l).
Proof.
  induction l as [|y l IH]; intros x; simpl.
  - repeat split; [lia|intros y []|now left].
  - destruct (IH (Z.min x y)) as [H1 [H2 H3]]. repeat split.
    + lia.
    + intros z [<-|Hz]; [lia|now apply H2].
    + destruct H3 as [H3|H3]; [|now right; right].
      rewrite <- H3. destruct (Z.min_spec x y) as [[_ ->]|[_ ->]]; auto.
Qed.

Lemma fold_max_spec (l : list Z) :
  forall x,
    x <= fold_left Z.max l x /\
    (forall y, In y l -> y <= fold_left Z.max l x) /\
    In (fold_left Z.max l x) (x :: l).
Proof.
  induction l as [|y l IH]; intros x; simpl.
  - repeat split; [lia|intros y []|now left].
  - destruct (IH (Z.max x y)) as [H1 [H2 H3]]. repeat split.
    + lia.
    + intros z [<-|Hz]; [lia|now apply H2].
    + destruct H3 as [H3|H3]; [|now right; right].
      rewrite <- H3. destruct (Z.max_spec x y) as [[_ ->]|[_ ->]]; auto.
Qed.

Section FloatReductions.

Context {F : Type} {FO : Float64 F} {FL : Float64Laws F}.

Local Notation "x <=f y" := (f_leb x y = true) (at level 70).

Lemma f_minimum_spec (x y : F) :
  f_is_finite x = true -> f_is_finite y = true ->
  (f_minimum x y = x \/ f_minimum x y = y) /\
  f_minimum x y <=f x /\ f_minimum x y <=f y.
Proof.
  intros Hx Hy. pose proof (finite_not_nan x Hx) as Nx.
  pose proof (finite_not_nan y Hy) as Ny.
  unfold f_minimum. rewrite Nx, orb_false_r.
  destruct (f_ltb x y) eqn:E.
  - repeat split; [now left|now apply leb_refl|now apply ltb_leb].
  - repeat split; [now right| |now apply leb_refl].
    now apply not_ltb_leb.
Qed.

Lemma f_maximum_spec (x y : F) :
  f_is_finite x = true -> f_is_finite y = true ->
  (f_maximum x y = x \/ f_maximum x y = y) /\
  x <=f f_maximum x y /\ y <=f f_maximum x y.
Proof.
  intros Hx Hy. pose proof (finite_not_nan x Hx) as Nx.
  pose proof (finite_not_nan y Hy) as Ny.
  unfold f_maximum. rewrite Nx, orb_false_r.
  destruct (f_leb y x) eqn:E.
  - repeat split; [now left|now apply leb_refl|exact E].
  - repeat split; [now right| |now apply leb_refl].
    apply ltb_leb. rewrite (ltb_negb_leb x y Nx Ny), E. reflexivity.
Qed.

Lemma fold_minimum_spec (l : list F) :
  forall x,
    f_is_finite x = true ->
    Forall (fun y => f_is_finite y = true) l ->
    fold_left f_minimum l x <=f x /\
    (forall y, In y l -> fold_left f_minimum l x <=f y) /\
    In (fold_left f_minimum l x) (x :: l).
Proof.
  induction l as [|y l IH]; intros x Hx Hl; simpl.
  - repeat split; [now apply leb_refl, finite_not_nan|intros y []|now left].
  - inversion Hl as [|? ? Hy Hl']; subst.
    destruct (f_minimum_spec x y Hx Hy) as [Hc [H1 H2]].
    assert (Hm : f_is_finite (f_minimum x y) = true)
      by (destruct Hc as [-> | ->]; assumption).
    destruct (IH (f_minimum x y) Hm Hl') as [I1 [I2 I3]]. repeat split.
    + now apply leb_trans with (f_minimum x y).
    + intros z [<-|Hz]; [|now apply I2].
      now apply leb_trans with (f_minimum x y).
    + destruct I3 as [I3|I3]; [|now right; right].
      rewrite <- I3. destruct Hc as [-> | ->]; auto.
Qed.

Lemma fold_maximum_spec (l : list F) :
  forall x,
    f_is_finite x = true ->
    Forall (fun y => f_is_finite y = true) l ->
    x <=f fold_left f_maximum l x /\
    (forall y, In y l -> y <=f fold_left f_maximum l x) /\
    In (fold_left f_maximum l x) (x :: l).
Proof.
  induction l as [|y l IH]; intros x Hx Hl; simpl.
  - repeat split; [now apply leb_refl, finite_not_nan|intros y []|now left].
  - inversion Hl as [|? ? Hy Hl']; subst.
    destruct (f_maximum_spec x y Hx Hy) as [Hc [H1 H2]].
    assert (Hm : f_is_finite (f_maximum x y) = true)
      by (destruct Hc as [-> | ->]; assumption).
    destruct (IH (f_maximum x y) Hm Hl') as [I1 [I2 I3]]. repeat split.
    + now apply leb_trans with (f_maximum x y).
    + intros z [<-|Hz]; [|now apply I2].
      now apply leb_trans with (f_maximum x y).
    + destruct I3 as [I3|I3]; [|now right; right].
      rewrite <- I3. destruct Hc as [-> | ->]; auto.
Qed.

End FloatReductions.

(** *** The difference of two elements of an integer dtype *)

Lemma in_range_64 (t : int_dtype) (z : Z) :
  (bits t <= 64)%N -> in_range t z = true -> in_64_bits z.
Proof.
  unfold in_range, dtype_min, dtype_max, in_64_bits.
  destruct t as [s b]; simpl. intros Hb H.
  apply andb_true_iff in H. destruct H as [H1 H2].
  apply Z.leb_le in H1. apply Z.leb_le in H2.
  assert (P63 : 2 ^ (Z.of_N b - 1) <= 2 ^ 63).
  { destruct b as [|p]; [simpl; lia|].
    apply Z.pow_le_mono_r; lia. }
  assert (P64 : 2 ^ Z.of_N b <= 2 ^ 64) by (apply Z.pow_le_mono_r; lia).
  assert (P0 : 0 < 2 ^ Z.of_N b) by (apply Z.pow_pos_nonneg; lia).
  change (2 ^ 63) with 9223372036854775808 in P63.
  change (2 ^ 64) with 18446744073709551616 in *.
  destruct s; lia.
Qed.

Lemma wrap_difference (t : int_dtype) (lo hi : Z) :
  (bits t <= 64)%N ->
  in_range t lo = true -> in_range t hi = true -> lo < hi ->
  in_64_bits (wrap t (hi - lo)) /\ wrap t (hi - lo) <> 0.
Proof.
  unfold in_range, dtype_min, dtype_max, in_64_bits, wrap.
  destruct t as [s b]; simpl. intros Hb Hlo Hhi Hlt.
  apply andb_true_iff in Hlo, Hhi.
  destruct Hlo as [L1 L2], Hhi as [H1 H2].
  apply Z.leb_le in L1, L2, H1, H2.
  assert (P64 : 2 ^ Z.of_N b <= 2 ^ 64) by (apply Z.pow_le_mono_r; lia).
  change (2 ^ 64) with 18446744073709551616 in *.
  destruct b as [|p].
  { simpl in *. destruct s; lia. }
  assert (E : 2 ^ Z.of_N (N.pos p) = 2 * 2 ^ (Z.of_N (N.pos p) - 1)).
  { rewrite <- Z.pow_succ_r by lia. f_equal. lia. }
  assert (P : 0 < 2 ^ (Z.of_N (N.pos p) - 1)) by (apply Z.pow_pos_nonneg; lia).
  set (h := 2 ^ (Z.of_N (N.pos p) - 1)) in *.
  rewrite E in *.
  replace (2 * h / 2) with h by (symmetry; rewrite Z.mul_comm; apply Z.div_mul; lia).
  destruct s.
  - pose proof (Z.mod_pos_bound (hi - lo + h) (2 * h) ltac:(lia)) as B.
    split; [lia|].
    intros E0.
    assert (Em : (hi - lo + h) mod (2 * h) = h) by lia.
    destruct (Z_lt_le_dec (hi - lo) h) as [C|C].
    + rewrite Z.mod_small in Em by lia. lia.
    + replace (hi - lo + h) with (hi - lo - h + 1 * (2 * h)) in Em by lia.
      rewrite Z.mod_add in Em by lia.
      rewrite Z.mod_small in Em by lia. lia.
  - rewrite Z.mod_small by lia. lia.
Qed.

(** *** The frame *)

Section MonotoneFrame.

Context {F : Type} {FO : Float64 F} {FL : Float64Laws F}.

Local Notation "x <=f y" := (f_leb x y = true) (at level 70).

Lemma sub_nonneg (m u : F) :
  f_is_finite m = true -> f_is_finite u = true -> m <=f u ->
  f_of_Z 0 <=f f_sub u m.
Proof.
  intros Hm Hu Hmu.
  apply leb_trans with (f_sub m m); [now apply sub_self|].
  now apply sub_mono.
Qed.

(** Two elements of an integer frame. *)
Lemma rescale_uint8_int_mono (t : int_dtype) (mn mx za zb : Z) :
  (bits t <= 64)%N ->
  in_range t mn = true -> in_range t mx = true ->
  in_range t za = true -> in_range t zb = true ->
  mn < mx -> mn <= za -> za <= zb ->
  rescale_uint8 (f_of_Z mn) (f_of_Z (wrap t (mx - mn))) (f_of_Z za)
  <= rescale_uint8 (f_of_Z mn) (f_of_Z (wrap t (mx - mn))) (f_of_Z zb).
Proof.
  intros Hb Rmn Rmx Ra Rb Hlt Hmin Hab.
  pose proof (in_range_64 t mn Hb Rmn) as Bmn.
  pose proof (in_range_64 t za Hb Ra) as Ba.
  pose proof (in_range_64 t zb Hb Rb) as Bb.
  destruct (wrap_difference t mn mx Hb Rmn Rmx Hlt) as [BD HD].
  assert (Hu : f_of_Z 0 <=f f_sub (f_of_Z za) (f_of_Z mn)).
  { apply sub_nonneg; try now apply of_Z_finite. now apply of_Z_mono. }
  assert (Hv : f_of_Z 0 <=f f_sub (f_of_Z zb) (f_of_Z mn)).
  { apply sub_nonneg; try now apply of_Z_finite. apply of_Z_mono; auto; lia. }
  destruct (Z_lt_le_dec 0 (wrap t (mx - mn))) as [Hpos|Hneg].
  - apply rescale_uint8_mono.
    + exact Hu.
    + apply sub_mono; try now apply of_Z_finite. now apply of_Z_mono.
    + now apply of_Z_pos.
    + now apply of_Z_finite.
  - assert (Hd : f_ltb (f_of_Z (wrap t (mx - mn))) (f_of_Z 0) = true)
      by (apply of_Z_neg; [exact BD|lia]).
    rewrite !rescale_uint8_negative_range;
      try exact Hd; try (now apply of_Z_finite); try assumption. lia.
Qed.

(** Two elements of a float frame. *)
Lemma rescale_uint8_float_mono (mn mx x y : F) :
  f_is_finite mn = true -> f_is_finite mx = true ->
  f_is_finite x = true -> f_is_finite y = true ->
  f_is_finite (f_sub mx mn) = true ->
  f_ltb mn mx = true -> mn <=f x -> x <=f y ->
  rescale_uint8 mn (f_sub mx mn) x <= rescale_uint8 mn (f_sub mx mn) y.
Proof.
  intros Fmn Fmx Fx Fy Fd Hlt Hmin Hxy.
  apply rescale_uint8_mono.
  - now apply sub_nonneg.
  - now apply sub_mono.
  - now apply sub_pos.
  - exact Fd.
Qed.

End MonotoneFrame.



(** ** MONOCHROME1 *)

(** The frame of the specification: with MONOCHROME1 and no windowing, the
    uint16 frame [[0, 10], [20, 30]] is normalised to [[255, 170], [85, 0]]. *)
Lemma monochrome1_inverts_example :
  let a := NdArray [2; 2]%N (@IntBuf float uint16 [0; 10; 20; 30]) in
  _normalize_pixel_array Examples.voi_lut_unchanged a
    (Examples.dataset_of a (Some "MONOCHROME1"%string) None None)
  = Ok (NdArray [2; 2]%N (IntBuf uint8 [255; 170; 85; 0])).
Proof. reflexivity. Qed.

(** C6 (the code at a failing input): on an int16 frame that spans the
    whole dtype, [max - value] is computed in int16, so 32767 - (-32768)
    wraps to -1 and the inverted frame is [-1, 0].  The original maximum ends
    up with the largest output, 255, and the original minimum with the
    smallest, 0. *)
Lemma monochrome1_int16_wraps :
  let a := NdArray [1; 2]%N (@IntBuf float int16 [-32768; 32767]) in
  let ds := Examples.dataset_of a (Some "MONOCHROME1"%string) None None in
  well_formed a /\
  invert_monochrome1 (windowing Examples.voi_lut_unchanged a ds) ds
  = Ok (NdArray [1; 2]%N (IntBuf int16 [-1; 0])) /\
  _normalize_pixel_array Examples.voi_lut_unchanged a ds
  = Ok (NdArray [1; 2]%N (IntBuf uint8 [0; 255])).
Proof.
  repeat split. repeat constructor.
Qed.

(* ================================================================== *)
(** * Further properties of the pipeline *)

(** ** What the normaliser returns *)

Lemma in_range_uint8 (z : Z) : in_range uint8 z = true <-> 0 <= z <= 255.
Proof.
  unfold in_range. change (dtype_min uint8) with 0.
  change (dtype_max uint8) with 255.
  rewrite andb_true_iff, !Z.leb_le. tauto.
Qed.

Lemma wrap_uint8_range (z : Z) : in_range uint8 (wrap uint8 z) = true.
Proof.
  apply in_range_uint8. change (wrap uint8 z) with (z mod 256).
  pose proof (Z.mod_pos_bound z 256). lia.
Qed.

Lemma int_dtype_eqb_eq (t u : int_dtype) : int_dtype_eqb t u = true -> t = u.
Proof.
  destruct t as [s b], u as [s' b']. unfold int_dtype_eqb. simpl.
  intros H. apply andb_true_iff in H. destruct H as [Hs Hb].
  apply Bool.eqb_prop in Hs. apply N.eqb_eq in Hb. now subst.
Qed.

(** X1: the array the normaliser returns for a well-formed frame is a
    well-formed uint8 array of the same shape and size: every element lies
    in 0..255. *)
Theorem normalized_frame_is_uint8 {F : Type} {FO : Float64 F}
    (a out : ndarray F) :
  well_formed a ->
  intensity_normalize a = Ok out ->
  is_uint8 out = true /\ shape out = shape a /\ size out = size a /\
  well_formed out /\
  exists pixels, buf out = IntBuf uint8 pixels /\
                 Forall (fun z => 0 <= z <= 255) pixels.
Proof.
  intros [Hsize Hrange] Hnorm. unfold intensity_normalize in Hnorm.
  destruct (is_uint8 a) eqn:Hu; simpl in Hnorm.
  - injection Hnorm as <-.
    repeat split; try assumption.
    unfold is_uint8 in Hu. destruct (buf a) as [t l|l]; [|discriminate].
    apply int_dtype_eqb_eq in Hu. subst t. exists l. split; [reflexivity|].
    eapply Forall_impl; [|exact Hrange]. intros z. apply in_range_uint8.
  - destruct (np_min a) as [mn|]; [|discriminate]. simpl in Hnorm.
    destruct (np_max a) as [mx|]; [|discriminate]. simpl in Hnorm.
    assert (Hlen : forall (g : F -> Z),
              length (map g (as_float64 (buf a))) = size a).
    { intros g. unfold size. destruct (buf a); simpl; now rewrite !length_map. }
    destruct (scalar_gt mx mn); injection Hnorm as <-.
    + repeat split; try reflexivity.
      * unfold size at 1. simpl. apply Hlen.
      * unfold size at 1. simpl. now rewrite Hlen.
      * simpl. apply Forall_forall. intros z Hz. apply in_map_iff in Hz.
        destruct Hz as [v [<- _]]. apply wrap_uint8_range.
      * eexists. split; [reflexivity|].
        apply Forall_forall. intros z Hz. apply in_map_iff in Hz.
        destruct Hz as [v [<- _]]. apply in_range_uint8, wrap_uint8_range.
    + unfold full_like_128. repeat split; try reflexivity.
      * unfold size at 1. simpl. apply repeat_length.
      * unfold size at 1. simpl. now rewrite repeat_length.
      * simpl. apply Forall_forall. intros z Hz.
        apply repeat_spec in Hz. now subst.
      * eexists. split; [reflexivity|].
        apply Forall_forall. intros z Hz.
        apply repeat_spec in Hz. subst. lia.
Qed.

Lemma normalized_frame_is_uint8_witness :
  is_uint8 (NdArray [1; 3]%N (@IntBuf float uint8 [0; 72; 255])) = true /\
  [1; 3]%N = [1; 3]%N /\ 3%nat = 3%nat /\
  well_formed (NdArray [1; 3]%N (@IntBuf float uint8 [0; 72; 255])) /\
  exists pixels,
    @IntBuf float uint8 [0; 72; 255] = IntBuf uint8 pixels /\
    Forall (fun z => 0 <= z <= 255) pixels.
Proof.
  apply (normalized_frame_is_uint8 (Examples.row uint16 [0; 2; 7])).
  - split; [reflexivity|]. repeat constructor.
  - reflexivity.
Defined.

(** X2: normalising is idempotent: what the normaliser returns, it returns
    unchanged when given it again. *)
Theorem intensity_normalize_idempotent {F : Type} {FO : Float64 F}
    (a out : ndarray F) :
  intensity_normalize a = Ok out ->
  intensity_normalize out = Ok out.
Proof.
  intros Hnorm.
  assert (Hu : is_uint8 out = true).
  { unfold intensity_normalize in Hnorm.
    destruct (is_uint8 a) eqn:Hu; simpl in Hnorm.
    - now injection Hnorm as <-.
    - destruct (np_min a); [|discriminate]. simpl in Hnorm.
      destruct (np_max a); [|discriminate]. simpl in Hnorm.
      destruct (scalar_gt _ _); now injection Hnorm as <-. }
  unfold intensity_normalize. now rewrite Hu.
Qed.

Lemma intensity_normalize_idempotent_witness :
  intensity_normalize (NdArray [1; 3]%N (@IntBuf float uint8 [0; 72; 255]))
  = Ok (NdArray [1; 3]%N (IntBuf uint8 [0; 72; 255])).
Proof.
  apply (intensity_normalize_idempotent (Examples.row uint16 [0; 2; 7])).
  reflexivity.
Defined.

(** ** The frames [_extract_frames] returns *)

(** X3: whatever the dataset, the VOI LUT, [decompress] and the stack depth,
    a list that [_extract_frames] returns is never empty. *)
Theorem extract_frames_never_empty {F : Type} {FO : Float64 F}
    (apply_voi_lut : ndarray F -> Dataset F -> result (ndarray F))
    (decompress : Dataset F -> result (Dataset F)) (depth : nat) :
  forall (ds : Dataset F) (frames : list (ndarray F)),
    _extract_frames apply_voi_lut decompress depth ds = Ok frames ->
    frames <> [].
Proof.
  induction depth as [|depth IH]; intros ds frames H; [discriminate|].
  simpl in H.
  destruct (extract_frames_body apply_voi_lut ds) as [fs|e] eqn:Hbody.
  - simpl in H. injection H as <-.
    unfold extract_frames_body in Hbody.
    destruct (pixel_array ds); [|discriminate]. simpl in Hbody.
    destruct (split_frames _); [|discriminate]. simpl in Hbody.
    destruct (normalize_frames _ _ _); [discriminate|].
    injection Hbody as <-. discriminate.
  - simpl in H. unfold retry_decompressed in H.
    destruct (has_PixelData ds); [|discriminate].
    destruct (decompress ds) as [ds'|]; [|discriminate]. simpl in H.
    destruct (pixel_array ds'); [|discriminate]. simpl in H.
    destruct (_extract_frames apply_voi_lut decompress depth ds') as [fs|] eqn:E;
      [|discriminate].
    simpl in H. injection H as <-. now apply (IH ds').
Qed.

Lemma extract_frames_never_empty_witness :
  [NdArray [3; 4]%N
     (@IntBuf float uint8 [0; 23; 46; 69; 92; 115; 139; 162; 185; 208; 231; 255])]
  <> [].
Proof.
  apply (extract_frames_never_empty Examples.voi_lut_empties_dark
           Examples.decompress_raises 1
           (Examples.dataset_of Examples.two_frames None None None)).
  reflexivity.
Defined.

(** ** A NaN in a float frame *)

Section NaN.

Lemma SFcompare_refl (s : spec_float) :
  s <> S754_nan -> SFcompare s s = Some Eq.
Proof.
  destruct s as [b|b| |b m e]; intros H; try contradiction; simpl.
  - reflexivity.
  - now destruct b.
  - rewrite Z.compare_refl, Pos.compare_cont_refl. now destruct b.
Qed.

Lemma is_nan_Prim2SF (x : float) :
  PrimFloat.is_nan x = true -> Prim2SF x = S754_nan.
Proof.
  unfold PrimFloat.is_nan. rewrite negb_true_iff, FloatAxioms.eqb_spec. unfold SFeqb.
  intros H. destruct (Prim2SF x) as [b|b| |b m e] eqn:E; try reflexivity;
    rewrite SFcompare_refl in H; discriminate.
Qed.

Lemma SFcompare_nan_r (s : spec_float) : SFcompare s S754_nan = None.
Proof. now destruct s. Qed.

Lemma ltb_nan_r (x y : float) :
  PrimFloat.is_nan y = true -> PrimFloat.ltb x y = false.
Proof.
  intros H. rewrite FloatAxioms.ltb_spec, (is_nan_Prim2SF y H). unfold SFltb.
  now rewrite SFcompare_nan_r.
Qed.

Lemma ltb_nan_l (x y : float) :
  PrimFloat.is_nan x = true -> PrimFloat.ltb x y = false.
Proof.
  intros H. rewrite FloatAxioms.ltb_spec, (is_nan_Prim2SF x H). reflexivity.
Qed.

Lemma leb_nan_l (x y : float) :
  PrimFloat.is_nan x = true -> PrimFloat.leb x y = false.
Proof.
  intros H. rewrite FloatAxioms.leb_spec, (is_nan_Prim2SF x H). reflexivity.
Qed.

Lemma fold_minimum_nan (l : list float) :
  forall acc,
    PrimFloat.is_nan acc = true \/ Exists (fun x => PrimFloat.is_nan x = true) l ->
    PrimFloat.is_nan (fold_left f_minimum l acc) = true.
Proof.
  induction l as [|y l IH]; intros acc H; simpl.
  - destruct H as [H|H]; [exact H|inversion H].
  - apply IH. unfold f_minimum. simpl.
    destruct (PrimFloat.is_nan acc) eqn:Ea.
    + left. now rewrite orb_true_r.
    + destruct H as [H|H]; [discriminate|].
      inversion H as [? ? Hy|? ? Hl]; subst.
      * left. now rewrite (ltb_nan_r acc y Hy).
      * now right.
Qed.

Lemma fold_maximum_nan (l : list float) :
  forall acc,
    PrimFloat.is_nan acc = true \/ Exists (fun x => PrimFloat.is_nan x = true) l ->
    PrimFloat.is_nan (fold_left f_maximum l acc) = true.
Proof.
  induction l as [|y l IH]; intros acc H; simpl.
  - destruct H as [H|H]; [exact H|inversion H].
  - apply IH. unfold f_maximum. simpl.
    destruct (PrimFloat.is_nan acc) eqn:Ea.
    + left. now rewrite orb_true_r.
    + destruct H as [H|H]; [discriminate|].
      inversion H as [? ? Hy|? ? Hl]; subst.
      * left. now rewrite (leb_nan_l y acc Hy).
      * now right.
Qed.

End NaN.

(** X4: a float64 frame that holds a NaN anywhere is normalised, whatever
    its other elements, to the frame of its shape that holds 128 everywhere:
    the minimum and the maximum are both NaN, so the comparison
    [pixel_max > pixel_min] fails. *)
Theorem nan_frame_becomes_128 (s : list N) (l : list float) :
  Exists (fun x => PrimFloat.is_nan x = true) l ->
  intensity_normalize (NdArray s (FloatBuf l))
  = Ok (NdArray s (IntBuf uint8 (repeat 128 (length l)))).
Proof.
  intros H. unfold intensity_normalize. simpl.
  destruct l as [|x l]; [inversion H|].
  unfold np_min, np_max. simpl.
  assert (Hmin : PrimFloat.is_nan (fold_left f_minimum l x) = true).
  { apply fold_minimum_nan. inversion H; subst; auto. }
  now rewrite (ltb_nan_l _ _ Hmin).
Qed.

Lemma nan_frame_becomes_128_witness :
  intensity_normalize (NdArray [1; 3]%N (FloatBuf [1%float; nan; 3%float]))
  = Ok (NdArray [1; 3]%N (IntBuf uint8 [128; 128; 128])).
Proof.
  apply (nan_frame_becomes_128 [1; 3]%N [1%float; nan; 3%float]).
  right. left. reflexivity.
Defined.

(** ** Dtype promotion keeps the values *)

Lemma in_range_signed (b : N) (z : Z) :
  in_range (IntType true b) z = true <->
  - 2 ^ (Z.of_N b - 1) <= z <= 2 ^ (Z.of_N b - 1) - 1.
Proof.
  unfold in_range, dtype_min, dtype_max. simpl.
  rewrite andb_true_iff, !Z.leb_le. tauto.
Qed.

Lemma in_range_unsigned (b : N) (z : Z) :
  in_range (IntType false b) z = true <-> 0 <= z <= 2 ^ Z.of_N b - 1.
Proof.
  unfold in_range, dtype_min, dtype_max. simpl.
  rewrite andb_true_iff, !Z.leb_le. tauto.
Qed.

Lemma min_bits_some (fits : N -> bool) (b : N) :
  min_bits fits = Some b -> fits b = true /\ (8 <= b)%N.
Proof.
  unfold min_bits. intros H. apply find_some in H. destruct H as [Hin Hf].
  split; [exact Hf|]. simpl in Hin.
  destruct Hin as [<-|[<-|[<-|[<-|[]]]]]; lia.
Qed.

Lemma pow2_mono (a b : Z) : a <= b -> 2 ^ a <= 2 ^ b.
Proof. intros H. apply Z.pow_le_mono_r; lia. Qed.

(** The dtype chosen for a scalar holds the scalar and every value of the
    array's dtype. *)
Lemma promote_scalar_sound (t t' : int_dtype) (z : Z) :
  promote_scalar t z = Some (DInt t') ->
  in_range t' z = true /\
  forall v, in_range t v = true -> in_range t' v = true.
Proof.
  unfold promote_scalar. destruct t as [s bt]. cbn [signed bits]. cbv zeta.
  destruct (0 <=? z) eqn:Hz.
  - apply Z.leb_le in Hz.
    destruct (min_bits _) as [b|] eqn:Hb; [|discriminate].
    apply min_bits_some in Hb. destruct Hb as [Hfit Hb8].
    apply Z.ltb_lt in Hfit.
    destruct s.
    + destruct (z <? 2 ^ (Z.of_N b - 1)) eqn:Hsmall.
      * apply Z.ltb_lt in Hsmall. intros [= <-]. split.
        -- apply in_range_signed.
           pose proof (pow2_mono (Z.of_N b - 1) (Z.of_N (N.max bt b) - 1) ltac:(lia)).
           lia.
        -- intros v Hv. apply in_range_signed in Hv. apply in_range_signed.
           pose proof (pow2_mono (Z.of_N bt - 1) (Z.of_N (N.max bt b) - 1) ltac:(lia)).
           lia.
      * remember (N.max bt (2 * b)) as B eqn:HB.
        destruct (B <=? 64)%N; [|discriminate].
        intros [= <-]. split.
        -- apply in_range_signed.
           pose proof (pow2_mono (Z.of_N b) (Z.of_N B - 1) ltac:(lia)).
           lia.
        -- intros v Hv. apply in_range_signed in Hv. apply in_range_signed.
           pose proof (pow2_mono (Z.of_N bt - 1) (Z.of_N B - 1) ltac:(lia)).
           lia.
    + intros [= <-]. split.
      * apply in_range_unsigned.
        pose proof (pow2_mono (Z.of_N b) (Z.of_N (N.max bt b)) ltac:(lia)). lia.
      * intros v Hv. apply in_range_unsigned in Hv. apply in_range_unsigned.
        pose proof (pow2_mono (Z.of_N bt) (Z.of_N (N.max bt b)) ltac:(lia)). lia.
  - apply Z.leb_gt in Hz.
    destruct (min_bits _) as [b|] eqn:Hb; [|discriminate].
    apply min_bits_some in Hb. destruct Hb as [Hfit Hb8].
    apply Z.leb_le in Hfit.
    destruct s.
    + intros [= <-]. split.
      * apply in_range_signed.
        pose proof (pow2_mono (Z.of_N b - 1) (Z.of_N (N.max bt b) - 1) ltac:(lia)).
        assert (0 < 2 ^ (Z.of_N (N.max bt b) - 1)) by (apply Z.pow_pos_nonneg; lia).
        lia.
      * intros v Hv. apply in_range_signed in Hv. apply in_range_signed.
        pose proof (pow2_mono (Z.of_N bt - 1) (Z.of_N (N.max bt b) - 1) ltac:(lia)).
        lia.
    + remember (N.max (2 * bt) b) as B eqn:HB.
      destruct (B <=? 64)%N; [|discriminate].
      intros [= <-]. split.
      * apply in_range_signed.
        pose proof (pow2_mono (Z.of_N b - 1) (Z.of_N B - 1) ltac:(lia)).
        assert (0 < 2 ^ (Z.of_N B - 1)) by (apply Z.pow_pos_nonneg; lia).
        lia.
      * intros v Hv. apply in_range_unsigned in Hv. apply in_range_signed.
        assert (0 < 2 ^ (Z.of_N B - 1)) by (apply Z.pow_pos_nonneg; lia).
        destruct (N.eq_dec bt 0) as [->|Hbt].
        -- simpl in Hv. lia.
        -- pose proof (pow2_mono (Z.of_N bt) (Z.of_N B - 1) ltac:(lia)).
           lia.
Qed.

Lemma np_result_type_sound (t t' : int_dtype) (lo hi : Z) :
  np_result_type t lo hi = Some (DInt t') ->
  in_range t' lo = true /\ in_range t' hi = true /\
  forall v, in_range t v = true -> in_range t' v = true.
Proof.
  unfold np_result_type.
  destruct (promote_scalar t lo) as [[t1|]|] eqn:E1.
  - intros E2.
    destruct (promote_scalar_sound t t1 lo E1) as [L1 S1].
    destruct (promote_scalar_sound t1 t' hi E2) as [L2 S2].
    repeat split; auto.
  - destruct (promote_scalar t hi); discriminate.
  - discriminate.
Qed.

Section WellFormed.

Context {F : Type} {FO : Float64 F}.

Lemma np_clip_well_formed (a a' : ndarray F) (lo hi : pynum F) :
  well_formed a -> np_clip a lo hi = Ok a' -> well_formed a'.
Proof.
  intros [Hsize Hrange] Hclip.
  destruct (np_clip_shape a a' lo hi Hclip) as [Hs Hn].
  split; [now rewrite Hs, Hn|].
  unfold np_clip in Hclip.
  destruct (buf a) as [t l|l] eqn:Hb.
  - destruct lo as [zl|fl], hi as [zh|fh]; simpl in Hclip;
      repeat match type of Hclip with
             | context [py_float_of_int ?z] =>
                 destruct (py_float_of_int z); simpl in Hclip
             end;
      try discriminate; try (injection Hclip as <-; exact I).
    destruct (np_result_type t zl zh) as [[t'|]|] eqn:Et; try discriminate;
      injection Hclip as <-; simpl; [|exact I].
    destruct (np_result_type_sound t t' zl zh Et) as [Hl [Hh Hsub]].
    apply Forall_forall. intros z Hz. apply in_map_iff in Hz.
    destruct Hz as [v [<- Hv]].
    rewrite Forall_forall in Hrange. specialize (Hrange v Hv).
    apply Hsub in Hrange. unfold clip_int.
    destruct (Z.min_spec (Z.max v zl) zh) as [[_ ->]|[_ ->]]; [|exact Hh].
    destruct (Z.max_spec v zl) as [[_ ->]|[_ ->]]; assumption.
  - destruct lo as [zl|fl], hi as [zh|fh]; simpl in Hclip;
      repeat match type of Hclip with
             | context [py_float_of_int ?z] =>
                 destruct (py_float_of_int z); simpl in Hclip
             end;
      try discriminate; injection Hclip as <-; exact I.
Qed.

Lemma wrap_in_dtype (t : int_dtype) (v z : Z) :
  in_range t v = true -> in_range t (wrap t z) = true.
Proof.
  destruct t as [[|] b]; intros Hv.
  - apply in_range_signed in Hv. apply in_range_signed.
    unfold wrap. simpl.
    destruct b as [|p]; [simpl in Hv; lia|].
    assert (E : 2 ^ Z.of_N (N.pos p) = 2 * 2 ^ (Z.of_N (N.pos p) - 1)).
    { rewrite <- Z.pow_succ_r by lia. f_equal. lia. }
    assert (P : 0 < 2 ^ (Z.of_N (N.pos p) - 1)) by (apply Z.pow_pos_nonneg; lia).
    rewrite E.
    replace (2 * 2 ^ (Z.of_N (N.pos p) - 1) / 2) with (2 ^ (Z.of_N (N.pos p) - 1))
      by (symmetry; rewrite Z.mul_comm; apply Z.div_mul; lia).
    pose proof (Z.mod_pos_bound (z + 2 ^ (Z.of_N (N.pos p) - 1))
                  (2 * 2 ^ (Z.of_N (N.pos p) - 1)) ltac:(lia)).
    lia.
  - apply in_range_unsigned. unfold wrap. simpl.
    assert (P : 0 < 2 ^ Z.of_N b) by (apply Z.pow_pos_nonneg; lia).
    pose proof (Z.mod_pos_bound z (2 ^ Z.of_N b) P). lia.
Qed.

Lemma scalar_minus_array_well_formed (m : scalar F) (a : ndarray F) :
  well_formed a -> well_formed (scalar_minus_array m a).
Proof.
  intros [Hsize Hrange]. split.
  - now rewrite scalar_minus_array_size.
  - unfold scalar_minus_array. simpl.
    destruct m as [t z|x], (buf a) as [t' l|l]; simpl; try exact I.
    apply Forall_forall. intros w Hw. apply in_map_iff in Hw.
    destruct Hw as [v [<- Hv]]. rewrite Forall_forall in Hrange.
    now apply wrap_in_dtype with v, Hrange.
Qed.

End WellFormed.


(** ** The normaliser as a whole *)

Section NormalizeWhole.

Context {F : Type} {FO : Float64 F}.
Variable apply_voi_lut : ndarray F -> Dataset F -> result (ndarray F).

Lemma np_min_raises (a : ndarray F) (e : exn) :
  np_min a = Raise e -> e = ZeroSizeReduction /\ size a = O.
Proof.
  unfold np_min, size. destruct (buf a) as [t [|z l]|[|x l]]; simpl;
    intros H; try discriminate; injection H as <-; now split.
Qed.

Lemma np_max_raises (a : ndarray F) (e : exn) :
  np_max a = Raise e -> e = ZeroSizeReduction /\ size a = O.
Proof.
  unfold np_max, size. destruct (buf a) as [t [|z l]|[|x l]]; simpl;
    intros H; try discriminate; injection H as <-; now split.
Qed.

Lemma invert_monochrome1_size (a a' : ndarray F) (ds : Dataset F) :
  invert_monochrome1 a ds = Ok a' -> size a' = size a.
Proof.
  unfold invert_monochrome1.
  destruct (String.eqb (photometric ds) "MONOCHROME1").
  - destruct (np_max a); simpl; [|discriminate].
    intros [= <-]. apply scalar_minus_array_size.
  - now intros [= <-].
Qed.

Lemma manual_windowing_form (a a' : ndarray F) (wc ww : pyval F) :
  well_formed a -> manual_windowing a wc ww = Ok a' ->
  well_formed a' /\ shape a' = shape a.
Proof.
  intros Hwf. unfold manual_windowing.
  destruct (first_if_sequence wc); simpl; [|discriminate].
  destruct (first_if_sequence ww) as [w|]; simpl; [|discriminate].
  destruct (py_floordiv2 w); simpl; [|discriminate].
  destruct (as_number _); simpl; [|discriminate].
  destruct (py_sub _ _); simpl; [|discriminate].
  destruct (py_add _ _); simpl; [|discriminate].
  intros H. split.
  - now apply np_clip_well_formed in H.
  - now apply np_clip_shape in H.
Qed.

Lemma windowing_form (a : ndarray F) (ds : Dataset F) :
  keeps_form apply_voi_lut -> well_formed a ->
  well_formed (windowing apply_voi_lut a ds) /\
  shape (windowing apply_voi_lut a ds) = shape a.
Proof.
  intros Hvoi Hwf. unfold windowing.
  destruct (apply_voi_lut a ds) as [a'|e] eqn:E; simpl.
  - now apply Hvoi in E.
  - destruct (WindowCenter ds) as [wc|]; [|now split].
    destruct (WindowWidth ds) as [ww|]; [|now split].
    destruct (manual_windowing a wc ww) as [a'|] eqn:E'; simpl; [|now split].
    now apply manual_windowing_form in E'.
Qed.

Lemma invert_monochrome1_form (a a' : ndarray F) (ds : Dataset F) :
  well_formed a -> invert_monochrome1 a ds = Ok a' ->
  well_formed a' /\ shape a' = shape a.
Proof.
  intros Hwf. unfold invert_monochrome1.
  destruct (String.eqb (photometric ds) "MONOCHROME1").
  - destruct (np_max a) as [m|]; simpl; [|discriminate].
    intros [= <-]. split; [now apply scalar_minus_array_well_formed|reflexivity].
  - now intros [= <-].
Qed.

Lemma intensity_normalize_form (a out : ndarray F) :
  well_formed a -> intensity_normalize a = Ok out ->
  is_uint8 out = true /\ shape out = shape a /\ well_formed out.
Proof.
  intros [Hsize Hrange] Hnorm. unfold intensity_normalize in Hnorm.
  destruct (is_uint8 a) eqn:Hu; simpl in Hnorm.
  - injection Hnorm as <-. now repeat split.
  - destruct (np_min a) as [mn|]; [|discriminate]. simpl in Hnorm.
    destruct (np_max a) as [mx|]; [|discriminate]. simpl in Hnorm.
    assert (Hlen : forall (g : F -> Z),
              length (map g (as_float64 (buf a))) = size a).
    { intros g. unfold size. destruct (buf a); simpl; now rewrite !length_map. }
    destruct (scalar_gt mx mn); injection Hnorm as <-.
    + repeat split.
      * unfold size at 1. simpl. now rewrite Hlen.
      * simpl. apply Forall_forall. intros z Hz. apply in_map_iff in Hz.
        destruct Hz as [v [<- _]]. apply wrap_uint8_range.
    + unfold full_like_128. repeat split.
      * unfold size at 1. simpl. now rewrite repeat_length.
      * simpl. apply Forall_forall. intros z Hz.
        apply repeat_spec in Hz. now subst.
Qed.

End NormalizeWhole.

(** X5: the normaliser fails in one way only.  With a VOI LUT that returns
    as many elements as it was given, an exception that leaves
    [_normalize_pixel_array] is NumPy's zero-size reduction error, and the
    frame is empty: no error of the VOI LUT or of the manual windowing gets
    out. *)
Theorem normalize_raises_only_on_empty {F : Type} {FO : Float64 F}
    (apply_voi_lut : ndarray F -> Dataset F -> result (ndarray F))
    (a : ndarray F) (ds : Dataset F) (e : exn) :
  keeps_size apply_voi_lut ->
  _normalize_pixel_array apply_voi_lut a ds = Raise e ->
  e = ZeroSizeReduction /\ size a = O.
Proof.
  intros Hvoi. unfold _normalize_pixel_array.
  pose proof (windowing_size apply_voi_lut Hvoi a ds) as Hw.
  destruct (invert_monochrome1 (windowing apply_voi_lut a ds) ds) as [a1|e1] eqn:E1;
    simpl.
  - apply invert_monochrome1_size in E1.
    unfold intensity_normalize.
    destruct (is_uint8 a1); simpl; [discriminate|].
    destruct (np_min a1) as [mn|e2] eqn:E2; simpl.
    + destruct (np_max a1) as [mx|e3] eqn:E3; simpl.
      * destruct (scalar_gt mx mn); discriminate.
      * intros [= <-]. apply np_max_raises in E3. destruct E3 as [-> E3].
        split; [reflexivity|]. congruence.
    + intros [= <-]. apply np_min_raises in E2. destruct E2 as [-> E2].
      split; [reflexivity|]. congruence.
  - intros [= <-]. unfold invert_monochrome1 in E1.
    destruct (String.eqb (photometric ds) "MONOCHROME1"); [|discriminate].
    destruct (np_max (windowing apply_voi_lut a ds)) as [m|e2] eqn:E2;
      simpl in E1; [discriminate|].
    injection E1 as <-. apply np_max_raises in E2. destruct E2 as [-> E2].
    split; [reflexivity|]. congruence.
Qed.

Lemma normalize_raises_only_on_empty_witness :
  ZeroSizeReduction = ZeroSizeReduction /\
  size (NdArray [0; 4]%N (@IntBuf float uint16 [])) = O.
Proof.
  apply (normalize_raises_only_on_empty Examples.voi_lut_raises
           (NdArray [0; 4]%N (IntBuf uint16 []))
           (Examples.dataset_of (NdArray [0; 4]%N (IntBuf uint16 []))
              None (Some (Scalar (PyInt 40))) (Some (Scalar (PyInt 400))))).
  - intros a ds a' H. discriminate.
  - reflexivity.
Defined.

Lemma normalize_pixel_array_post {F : Type} {FO : Float64 F}
    (apply_voi_lut : ndarray F -> Dataset F -> result (ndarray F))
    (a out : ndarray F) (ds : Dataset F) :
  keeps_form apply_voi_lut ->
  well_formed a ->
  _normalize_pixel_array apply_voi_lut a ds = Ok out ->
  is_uint8 out = true /\ shape out = shape a /\ well_formed out.
Proof.
  intros Hvoi Hwf. unfold _normalize_pixel_array.
  destruct (windowing_form apply_voi_lut a ds Hvoi Hwf) as [Hw Hs].
  destruct (invert_monochrome1 (windowing apply_voi_lut a ds) ds) as [a1|] eqn:E1;
    simpl; [|discriminate].
  apply (invert_monochrome1_form _ _ _ Hw) in E1. destruct E1 as [Hw1 Hs1].
  intros Hn. apply (intensity_normalize_form _ _ Hw1) in Hn.
  destruct Hn as [Hu [Hs2 Hw2]].
  split; [exact Hu|]. split; [congruence|exact Hw2].
Qed.

(** X6: what [_normalize_pixel_array] returns.  For a well-formed frame and
    a VOI LUT that hands back a well-formed array of the shape it was given,
    the array returned after windowing (by the VOI LUT or by the clip to the
    window, whatever dtype the clip promotes to), MONOCHROME1 inversion and
    rescaling is a well-formed uint8 array of the frame's shape. *)
Theorem normalize_pixel_array_form {F : Type} {FO : Float64 F}
    (apply_voi_lut : ndarray F -> Dataset F -> result (ndarray F))
    (a out : ndarray F) (ds : Dataset F) :
  keeps_form apply_voi_lut ->
  well_formed a ->
  _normalize_pixel_array apply_voi_lut a ds = Ok out ->
  is_uint8 out = true /\ shape out = shape a /\ well_formed out.
Proof.
  exact (normalize_pixel_array_post apply_voi_lut a out ds).
Qed.

Lemma normalize_pixel_array_form_witness :
  is_uint8 (NdArray [1; 4]%N (@IntBuf float uint8 [0; 0; 127; 255])) = true /\
  [1; 4]%N = [1; 4]%N /\
  well_formed (NdArray [1; 4]%N (@IntBuf float uint8 [0; 0; 127; 255])).
Proof.
  apply (normalize_pixel_array_form Examples.voi_lut_raises
           (Examples.row int16 [-1000; 0; 100; 3000])
           (NdArray [1; 4]%N (IntBuf uint8 [0; 0; 127; 255]))
           (Examples.dataset_of (Examples.row int16 [-1000; 0; 100; 3000])
              (Some "MONOCHROME2"%string)
              (Some (Scalar (PyInt 100))) (Some (Scalar (PyInt 200))))).
  - intros a ds a' H. discriminate.
  - split; [reflexivity|]. repeat constructor.
  - reflexivity.
Defined.


(** ** The frames the segmenter hands on *)

Section FrameForm.

Context {F : Type} {FO : Float64 F}.

Lemma block_In (A : Type) (i n : N) (l : list A) (x : A) :
  In x (block i n l) -> In x l.
Proof.
  unfold block. intros H.
  rewrite <- (firstn_skipn (N.to_nat (i * n)) l). apply in_or_app. right.
  rewrite <- (firstn_skipn (N.to_nat n) (skipn (N.to_nat (i * n)) l)).
  apply in_or_app. now left.
Qed.

Lemma column_from_In (A : Type) (i k : N) (l : list A) (x : A) :
  forall pos, In x (column_from pos i k l) -> In x l.
Proof.
  induction l as [|y l IH]; intros pos; simpl; [tauto|].
  destruct (N.eqb (pos mod k) i); simpl; intros H.
  - destruct H as [H|H]; [now left|right; now apply (IH (N.succ pos))].
  - right. now apply (IH (N.succ pos)).
Qed.

Lemma map_buffer_in_range (f : forall A : Type, list A -> list A)
    (s s' : list N) (b : buffer F) :
  (forall A (l : list A) x, In x (f A l) -> In x l) ->
  well_formed (NdArray s b) ->
  match map_buffer f b with
  | IntBuf t l => Forall (fun z => in_range t z = true) l
  | FloatBuf _ => True
  end.
Proof.
  intros Hin [_ Hr]. destruct b as [t l|l]; simpl in *; [|exact I].
  apply Forall_forall. intros z Hz. rewrite Forall_forall in Hr.
  apply Hr. now apply (Hin Z l z).
Qed.

Lemma index_first_well_formed (a : ndarray F) (i d : N) (rest : list N) :
  shape a = d :: rest -> well_formed a -> (i < d)%N ->
  shape (index_first a i) = rest /\ well_formed (index_first a i).
Proof.
  intros Hs Hwf Hi. split.
  - unfold index_first. simpl. now rewrite Hs.
  - split.
    + rewrite (size_index_first a i d rest Hs (proj1 Hwf) Hi).
      unfold index_first. simpl. rewrite Hs. simpl. apply N2Nat.id.
    + unfold index_first. cbn [buf].
      apply (map_buffer_in_range _ (shape a) (shape a)).
      * intros A l x. apply block_In.
      * now destruct a.
Qed.

Lemma length_column (A : Type) (i k m : N) (l : list A) :
  (i < k)%N -> N.of_nat (length l) = (m * k)%N ->
  N.of_nat (length (column i k l)) = m.
Proof.
  intros Hi Hl.
  destruct (interleave_columns A k (N.to_nat m) l) as [_ H]; [lia|].
  rewrite (H i Hi). apply N2Nat.id.
Qed.

Lemma index_last_well_formed (a : ndarray F) (i d0 d1 d2 : N) :
  shape a = [d0; d1; d2] -> well_formed a -> (i < d2)%N ->
  shape (index_last a i) = [d0; d1] /\ well_formed (index_last a i).
Proof.
  intros Hs Hwf Hi. split.
  - unfold index_last. simpl. now rewrite Hs.
  - split.
    + destruct Hwf as [Hsize _]. rewrite Hs in Hsize. simpl in Hsize.
      unfold index_last, size in *. rewrite Hs. simpl.
      replace (d0 * (d1 * 1))%N with (d0 * d1)%N by lia.
      destruct (buf a) as [t l|l]; simpl;
        apply (length_column _ i d2 (d0 * d1)%N l Hi); lia.
    + unfold index_last. cbn [buf].
      apply (map_buffer_in_range _ (shape a) (shape a)).
      * intros A l x. apply column_from_In.
      * now destruct a.
Qed.

Lemma index_first_channel0_well_formed (a : ndarray F) (i d0 d1 d2 : N) :
  shape a = [d0; d1; d2; 1%N] -> well_formed a -> (i < d0)%N ->
  shape (index_first_channel0 a i) = [d1; d2] /\
  well_formed (index_first_channel0 a i).
Proof.
  intros Hs Hwf Hi.
  destruct (index_first_well_formed a i d0 [d1; d2; 1%N] Hs Hwf Hi) as [Hs1 Hw1].
  unfold index_first_channel0. cbv zeta. rewrite Hs1. simpl firstn. simpl nth.
  split; [reflexivity|].
  destruct Hw1 as [Hsize Hr]. rewrite Hs1 in Hsize. simpl in Hsize.
  unfold well_formed, size in *. cbn [buf shape].
  destruct (buf (index_first a i)) as [t l|l]; simpl;
    rewrite column_0_of_1; (split; [simpl; lia|assumption]).
Qed.

End FrameForm.

Lemma split_frames_post {F : Type} {FO : Float64 F}
    (a : ndarray F) (frames : list (ndarray F)) :
  well_formed a ->
  (rank a = 4%nat -> dim a 0 <> 0%N) ->
  split_frames a = Ok frames ->
  exists s : list N,
    (length s = 2%nat \/ length s = 3%nat) /\
    Forall (fun f => shape f = s /\ well_formed f) frames.
Proof.
  intros Hwf H0 Hsplit.
  pose proof (index_first_well_formed a) as Hfirst.
  pose proof (index_last_well_formed a) as Hlast.
  pose proof (index_first_channel0_well_formed a) as Hch.
  unfold split_frames, rank, dim in *.
  destruct (shape a) as [|d0 [|d1 [|d2 [|d3 [|d4 s]]]]] eqn:Hs;
    simpl in Hsplit; try discriminate.
  - injection Hsplit as <-. exists [d0; d1]. split; [now left|].
    constructor; [now split|constructor].
  - assert (Hself : exists s : list N,
              (length s = 2%nat \/ length s = 3%nat) /\
              Forall (fun f => shape f = s /\ well_formed f) [a]).
    { exists [d0; d1; d2]. split; [now right|].
      constructor; [now split|constructor]. }
    destruct (d2 =? 3)%N.
    { now injection Hsplit as <-. }
    destruct ((d0 <? d1)%N && (d0 <? d2)%N).
    { injection Hsplit as <-. exists [d1; d2]. split; [now left|].
      apply Forall_forall. intros f Hf. apply in_map_iff in Hf.
      destruct Hf as [i [<- Hi]]. apply in_range_lt in Hi.
      now apply (Hfirst i d0 [d1; d2]). }
    destruct (3 <? d2)%N.
    { injection Hsplit as <-. exists [d0; d1]. split; [now left|].
      apply Forall_forall. intros f Hf. apply in_map_iff in Hf.
      destruct Hf as [i [<- Hi]]. apply in_range_lt in Hi.
      now apply (Hlast i d0 d1 d2). }
    now injection Hsplit as <-.
  - destruct (d3 =? 1)%N eqn:E1.
    { apply N.eqb_eq in E1. subst d3.
      injection Hsplit as <-. exists [d1; d2]. split; [now left|].
      apply Forall_forall. intros f Hf. apply in_map_iff in Hf.
      destruct Hf as [i [<- Hi]]. apply in_range_lt in Hi.
      now apply (Hch i d0 d1 d2). }
    destruct (d3 =? 3)%N.
    { injection Hsplit as <-. exists [d1; d2; d3]. split; [now right|].
      apply Forall_forall. intros f Hf. apply in_map_iff in Hf.
      destruct Hf as [i [<- Hi]]. apply in_range_lt in Hi.
      now apply (Hfirst i d0 [d1; d2; d3]). }
    injection Hsplit as <-. exists [d1; d2; d3]. split; [now right|].
    constructor; [|constructor].
    apply (Hfirst 0%N d0 [d1; d2; d3]); [reflexivity|exact Hwf|].
    specialize (H0 eq_refl). simpl in H0. lia.
Qed.

(** X7: the frames the segmenter makes from a well-formed pixel array are
    well-formed arrays of one common shape, of rank 2 or 3: each has as many
    elements as its shape says, each element within the dtype.  (Where the
    code indexes a rank-4 array with [0], its first axis must not be
    empty.) *)
Theorem split_frames_form {F : Type} {FO : Float64 F}
    (a : ndarray F) (frames : list (ndarray F)) :
  well_formed a ->
  (rank a = 4%nat -> dim a 0 <> 0%N) ->
  split_frames a = Ok frames ->
  exists s : list N,
    (length s = 2%nat \/ length s = 3%nat) /\
    Forall (fun f => shape f = s /\ well_formed f) frames.
Proof.
  exact (split_frames_post a frames).
Qed.

Lemma split_frames_form_witness :
  exists s : list N,
    (length s = 2%nat \/ length s = 3%nat) /\
    Forall (fun f => shape f = s /\ well_formed f)
      [NdArray [3; 4]%N (@IntBuf float uint16 [0; 0; 0; 0; 0; 0; 0; 0; 0; 0; 0; 0]);
       NdArray [3; 4]%N (@IntBuf float uint16 [1; 2; 3; 4; 5; 6; 7; 8; 9; 10; 11; 12])].
Proof.
  apply (split_frames_form Examples.two_frames).
  - split; [reflexivity|]. repeat constructor.
  - discriminate.
  - reflexivity.
Defined.


(** ** The frames [_extract_frames] hands to the caller *)

Section ExtractedForm.

Context {F : Type} {FO : Float64 F}.
Variable apply_voi_lut : ndarray F -> Dataset F -> result (ndarray F).
Hypothesis voi_keeps_form : keeps_form apply_voi_lut.

Lemma first_axis_nonempty (a : ndarray F) :
  well_formed a -> size a <> O -> rank a = 4%nat -> dim a 0 <> 0%N.
Proof.
  intros [Hsize _] Hn. unfold rank, dim.
  destruct (shape a) as [|d0 s]; [discriminate|]. intros _. simpl.
  simpl in Hsize. intros ->. simpl in Hsize. lia.
Qed.

Lemma survivors_form (frames : list (ndarray F)) (ds : Dataset F) (s : list N) :
  Forall (fun f => shape f = s /\ well_formed f) frames ->
  Forall (fun f => is_uint8 f = true /\ shape f = s /\ well_formed f)
         (survivors apply_voi_lut frames ds).
Proof.
  induction 1 as [|f frames [Hs Hwf] _ IH]; simpl; [constructor|].
  destruct (_normalize_pixel_array apply_voi_lut f ds) as [out|] eqn:E;
    simpl; [|exact IH].
  constructor; [|exact IH].
  destruct (normalize_pixel_array_post apply_voi_lut f out ds
              voi_keeps_form Hwf E) as [Hu [Hs' Hw']].
  repeat split; try assumption; try apply Hw'. congruence.
Qed.

Lemma extract_frames_body_form (ds : Dataset F) (frames : list (ndarray F)) :
  decodes_well ds ->
  extract_frames_body apply_voi_lut ds = Ok frames ->
  exists s : list N,
    (length s = 2%nat \/ length s = 3%nat) /\
    Forall (fun f => is_uint8 f = true /\ shape f = s /\ well_formed f) frames.
Proof.
  intros Hds. unfold extract_frames_body.
  destruct (pixel_array ds) as [a|] eqn:Ha; simpl; [|discriminate].
  destruct (Hds a Ha) as [Hwf Hne].
  destruct (split_frames a) as [fs|] eqn:Hsplit; simpl; [|discriminate].
  destruct (split_frames_post a fs Hwf (first_axis_nonempty a Hwf Hne) Hsplit)
    as [s [Hrank Hall]].
  rewrite normalize_frames_survivors.
  pose proof (survivors_form fs ds s Hall) as Hsurv.
  destruct (survivors apply_voi_lut fs ds) as [|f l]; [discriminate|].
  intros [= <-]. now exists s.
Qed.

End ExtractedForm.

Lemma extract_frames_post {F : Type} {FO : Float64 F}
    (apply_voi_lut : ndarray F -> Dataset F -> result (ndarray F))
    (decompress : Dataset F -> result (Dataset F)) (depth : nat) :
  keeps_form apply_voi_lut ->
  (forall ds ds', decompress ds = Ok ds' -> decodes_well ds') ->
  forall (ds : Dataset F) (frames : list (ndarray F)),
    decodes_well ds ->
    _extract_frames apply_voi_lut decompress depth ds = Ok frames ->
    exists s : list N,
      (length s = 2%nat \/ length s = 3%nat) /\
      Forall (fun f => is_uint8 f = true /\ shape f = s /\ well_formed f) frames.
Proof.
  intros Hvoi Hdec.
  induction depth as [|depth IH]; intros ds frames Hds H; [discriminate|].
  destruct (extract_frames_body apply_voi_lut ds) as [fs|e] eqn:Hbody.
  - rewrite (extract_frames_ok apply_voi_lut decompress depth ds fs Hbody) in H.
    injection H as <-.
    now apply (extract_frames_body_form apply_voi_lut Hvoi ds fs).
  - destruct (extract_frames_handler apply_voi_lut decompress depth ds e Hbody)
      as [Hr|[ds' [fs [_ [Hd [Hrec Hret]]]]]]; [congruence|].
    rewrite Hret in H. injection H as <-.
    apply (IH ds' fs); [|exact Hrec]. now apply (Hdec ds).
Qed.

(** X8: what the caller of [_extract_frames] gets.  When every dataset at
    hand decodes to a well-formed pixel array that has elements (the one
    given and the one [decompress] leaves) and the VOI LUT hands back
    well-formed arrays of the shape it was given, the frames returned, by
    the first pass or by the retry after [decompress], are well-formed
    uint8 arrays of one common shape, of rank 2 or 3. *)
Theorem extracted_frames_form {F : Type} {FO : Float64 F}
    (apply_voi_lut : ndarray F -> Dataset F -> result (ndarray F))
    (decompress : Dataset F -> result (Dataset F)) (depth : nat) :
  keeps_form apply_voi_lut ->
  (forall ds ds', decompress ds = Ok ds' -> decodes_well ds') ->
  forall (ds : Dataset F) (frames : list (ndarray F)),
    decodes_well ds ->
    _extract_frames apply_voi_lut decompress depth ds = Ok frames ->
    exists s : list N,
      (length s = 2%nat \/ length s = 3%nat) /\
      Forall (fun f => is_uint8 f = true /\ shape f = s /\ well_formed f) frames.
Proof.
  exact (extract_frames_post apply_voi_lut decompress depth).
Qed.

Lemma extracted_frames_form_witness :
  exists s : list N,
    (length s = 2%nat \/ length s = 3%nat) /\
    Forall (fun f => is_uint8 f = true /\ shape f = s /\ well_formed f)
      [NdArray [3; 4]%N (@IntBuf float uint8 [128; 128; 128; 128; 128; 128;
                                               128; 128; 128; 128; 128; 128]);
       NdArray [3; 4]%N (@IntBuf float uint8 [0; 23; 46; 69; 92; 115;
                                               139; 162; 185; 208; 231; 255])].
Proof.
  apply (extracted_frames_form Examples.voi_lut_unchanged
           Examples.decompress_raises 1)
    with (ds := Examples.dataset_of Examples.two_frames None None None).
  - intros a ds a' Hwf H. injection H as <-. now split.
  - intros ds ds' H. discriminate.
  - intros a H. injection H as <-. split; [split|]; try discriminate.
    + reflexivity.
    + repeat constructor.
  - reflexivity.
Defined.


(** ** From a frame to an image *)

Lemma promote_scalar_0 (t : int_dtype) :
  promote_scalar t 0 = Some (DInt (IntType (signed t) (N.max (bits t) 8))).
Proof.
  unfold promote_scalar, min_bits. cbn [Z.leb Z.compare find].
  change (0 <? 2 ^ Z.of_N 8) with true. cbv iota.
  change (0 <? 2 ^ (Z.of_N 8 - 1)) with true.
  now destruct (signed t).
Qed.

Lemma promote_scalar_255 (t : int_dtype) :
  promote_scalar t 255 <> None /\
  ((bits t <= 64)%N -> exists t', promote_scalar t 255 = Some (DInt t')).
Proof.
  unfold promote_scalar, min_bits. cbn [Z.leb Z.compare find].
  change (255 <? 2 ^ Z.of_N 8) with true. cbv iota.
  change (255 <? 2 ^ (Z.of_N 8 - 1)) with false. cbv iota zeta.
  destruct (signed t).
  - split.
    + destruct (N.max (bits t) (2 * 8) <=? 64)%N; discriminate.
    + intros Hb. destruct (N.leb_spec (N.max (bits t) (2 * 8)) 64) as [_|H];
        [now eexists|lia].
  - split; [discriminate|]. intros _. now eexists.
Qed.

Lemma np_result_type_0_255 (t : int_dtype) :
  np_result_type t 0 255 <> None /\
  ((bits t <= 64)%N -> exists t', np_result_type t 0 255 = Some (DInt t')).
Proof.
  unfold np_result_type. rewrite promote_scalar_0.
  destruct (promote_scalar_255 (IntType (signed t) (N.max (bits t) 8)))
    as [Hn Hs].
  split; [exact Hn|]. intros Hb. apply Hs. simpl. lia.
Qed.

Lemma clip_0_255_uint8 (v : Z) : wrap uint8 (clip_int 0 255 v) = clip_int 0 255 v.
Proof.
  apply wrap_in_range, in_range_uint8. unfold clip_int. lia.
Qed.

Section FrameToImageFacts.

Context {F : Type} {FO : Float64 F}.
Variable Image : Type.
Variable fromarray : ndarray F -> image_mode -> result Image.
Variable image_size : Image -> N * N.

Lemma ensure_uint8_form (frame frame' : ndarray F) :
  ensure_uint8 frame = Ok frame' ->
  shape frame' = shape frame /\ is_uint8 frame' = true.
Proof.
  unfold ensure_uint8. destruct (is_uint8 frame) eqn:Hu; simpl.
  - intros [= <-]. now split.
  - destruct (np_clip frame (NumInt 0) (NumInt 255)) as [c|] eqn:Hc; simpl;
      [|discriminate].
    intros [= <-]. apply np_clip_shape in Hc. destruct Hc as [Hs _].
    split; [exact Hs|reflexivity].
Qed.

Lemma ensure_uint8_already (frame : ndarray F) :
  is_uint8 frame = true -> ensure_uint8 frame = Ok frame.
Proof. unfold ensure_uint8. now intros ->. Qed.

Lemma ensure_uint8_int (frame : ndarray F) :
  is_int_array frame = true -> exists frame', ensure_uint8 frame = Ok frame'.
Proof.
  unfold ensure_uint8, is_int_array, is_uint8, np_clip.
  destruct (buf frame) as [t l|l]; [|discriminate]. intros _.
  destruct (int_dtype_eqb t uint8); simpl; [now eexists|].
  destruct (np_result_type_0_255 t) as [Hn _].
  destruct (np_result_type t 0 255) as [[t'|]|]; [| |contradiction];
    simpl; now eexists.
Qed.

Lemma pil_source_rank (frame array : ndarray F) (mode : image_mode) :
  pil_source frame = Returns (array, mode) ->
  rank frame = 2%nat \/ rank frame = 3%nat.
Proof.
  unfold pil_source.
  destruct (rank frame) as [|[|[|[|n]]]]; try discriminate; auto.
Qed.

Lemma pil_source_refuses (frame : ndarray F) (e : image_exn) :
  pil_source frame = Raises e ->
  e = CannotConvertFrame (shape frame) /\
  rank frame <> 2%nat /\ rank frame <> 3%nat.
Proof.
  unfold pil_source.
  destruct (rank frame) as [|[|[|[|n]]]];
    try (intros [= <-]; repeat split; discriminate).
  destruct (dim frame 2 =? 3)%N; [discriminate|].
  destruct (dim frame 2 =? 1)%N; discriminate.
Qed.

End FrameToImageFacts.

(** X9: the unsupported-shape refusal of [_frame_to_pil_image] is a matter
    of the rank alone.  When the method raises "Cannot convert frame with
    shape s", the frame's rank is neither 2 nor 3 and s is the frame's
    shape; and every frame of an integer dtype that holds 255 (uint8 among
    them) whose rank is neither 2 nor 3 is refused that way, before PIL is
    called. *)
Theorem cannot_convert_is_by_rank {F : Type} {FO : Float64 F} (Image : Type)
    (fromarray : ndarray F -> image_mode -> result Image)
    (image_size : Image -> N * N) (frame : ndarray F) :
  (forall s,
     _frame_to_pil_image fromarray image_size frame
     = Raises (CannotConvertFrame s) ->
     rank frame <> 2%nat /\ rank frame <> 3%nat /\ s = shape frame) /\
  (dtype_holds 255 frame = true ->
   rank frame <> 2%nat -> rank frame <> 3%nat ->
   _frame_to_pil_image fromarray image_size frame
   = Raises (CannotConvertFrame (shape frame))).
Proof.
  split.
  - intros s. unfold _frame_to_pil_image.
    destruct (ensure_uint8 frame) as [f|] eqn:Hf; simpl; [|discriminate].
    apply ensure_uint8_form in Hf. destruct Hf as [Hs _].
    destruct (pil_source f) as [[array mode]|e] eqn:Hp; simpl.
    + destruct (fromarray array mode) as [im|]; simpl; [|discriminate].
      destruct ((fst (image_size im) =? 0)%N || (snd (image_size im) =? 0)%N);
        discriminate.
    + apply pil_source_refuses in Hp. destruct Hp as [-> [H2 H3]].
      intros [= <-]. unfold rank in *. rewrite Hs in *. now repeat split.
  - intros Hint H2 H3. unfold _frame_to_pil_image.
    assert (Hint' : is_int_array frame = true).
    { unfold dtype_holds, is_int_array in *. now destruct (buf frame). }
    destruct (ensure_uint8_int frame Hint') as [f Hf]. rewrite Hf. simpl.
    apply ensure_uint8_form in Hf. destruct Hf as [Hs _].
    unfold pil_source, rank in *. rewrite Hs.
    destruct (length (shape frame)) as [|[|[|[|n]]]]; try reflexivity;
      contradiction.
Qed.

Lemma cannot_convert_is_by_rank_witness :
  _frame_to_pil_image (fun (a : ndarray float) (_ : image_mode) => Ok a)
    (fun a => (dim a 1, dim a 0))
    (NdArray [2; 1; 1; 2]%N (IntBuf int16 [-5; 2; 300; 4]))
  = Raises (CannotConvertFrame [2; 1; 1; 2]%N).
Proof.
  apply (cannot_convert_is_by_rank (ndarray float)
           (fun a _ => Ok a) (fun a => (dim a 1, dim a 0))
           (NdArray [2; 1; 1; 2]%N (IntBuf int16 [-5; 2; 300; 4])));
    [reflexivity|discriminate|discriminate].
Defined.

(** X10: a frame of integers that is not uint8 is saturated, not wrapped:
    every element v becomes min(max(v, 0), 255) before PIL sees it.  It
    is stated for the NumPy integer dtypes that hold 255, which all but
    int8 do: what [np.clip] makes of a bound outside the dtype depends on
    the NumPy version. *)
Theorem integer_frame_saturates {F : Type} {FO : Float64 F}
    (s : list N) (t : int_dtype) (l : list Z) :
  (bits t <= 64)%N ->
  in_range t 255 = true ->
  Forall (fun v => in_range t v = true) l ->
  ensure_uint8 (NdArray s (@IntBuf F t l))
  = Ok (NdArray s (IntBuf uint8 (map (fun v => Z.min (Z.max v 0) 255) l))).
Proof.
  intros Hb _ Hr. unfold ensure_uint8, is_uint8. cbn [buf].
  destruct (int_dtype_eqb t uint8) eqn:Hu; simpl.
  - apply int_dtype_eqb_eq in Hu. subst t. do 3 f_equal.
    symmetry. etransitivity; [|apply map_id]. apply map_ext_in.
    intros v Hv. rewrite Forall_forall in Hr. specialize (Hr v Hv).
    apply in_range_uint8 in Hr. lia.
  - unfold np_clip. cbn [buf].
    destruct (np_result_type_0_255 t) as [_ Hs].
    destruct (Hs Hb) as [t' ->]. simpl.
    unfold astype_uint8_array. simpl. do 3 f_equal.
    rewrite map_map. apply map_ext. intros v. apply clip_0_255_uint8.
Qed.

Lemma integer_frame_saturates_witness :
  ensure_uint8 (NdArray [1; 4]%N (@IntBuf float int16 [-5; 2; 300; 255]))
  = Ok (NdArray [1; 4]%N
          (IntBuf uint8 (map (fun v => Z.min (Z.max v 0) 255) [-5; 2; 300; 255]))).
Proof.
  apply (integer_frame_saturates [1; 4]%N int16 [-5; 2; 300; 255]).
  - vm_compute. discriminate.
  - reflexivity.
  - repeat constructor.
Defined.


(** ** Frames of the segmenter, as images *)

Section ImageOfFrame.

Context {F : Type} {FO : Float64 F}.
Variable Image : Type.
Variable fromarray : ndarray F -> image_mode -> result Image.
Variable image_size : Image -> N * N.

Lemma shape_size_zero (s : list N) : In 0%N s -> shape_size s = 0%N.
Proof.
  induction s as [|d s IH]; simpl; [tauto|].
  intros [->|H]; [reflexivity|]. rewrite (IH H). lia.
Qed.

Lemma nonempty_no_zero_dimension (a : ndarray F) :
  well_formed a -> size a <> O -> no_zero_dimension a.
Proof.
  intros [Hsize _] Hn. unfold no_zero_dimension. apply Forall_forall.
  intros d Hd ->. apply shape_size_zero in Hd. lia.
Qed.

Lemma length_range (n : N) : length (range n) = N.to_nat n.
Proof. unfold range. now rewrite length_map, length_seq. Qed.

Lemma is_uint8_map_buffer (f : forall A : Type, list A -> list A)
    (s s' : list N) (b : buffer F) :
  is_uint8 (NdArray s b) = true -> is_uint8 (NdArray s' (map_buffer f b)) = true.
Proof. unfold is_uint8. now destruct b. Qed.

Lemma mean_channels_form (frame : ndarray F) (d0 d1 d2 : N) :
  shape frame = [d0; d1; d2] ->
  shape (mean_channels frame) = [d0; d1] /\
  is_uint8 (mean_channels frame) = true /\
  well_formed (mean_channels frame).
Proof.
  intros Hs. unfold mean_channels, dim. rewrite Hs. cbn [firstn nth].
  repeat split.
  - unfold size. cbn [buf shape]. rewrite length_map, length_range.
    cbn [shape_size fold_right]. lia.
  - cbn [buf]. apply Forall_forall. intros z Hz. apply in_map_iff in Hz.
    destruct Hz as [i [<- _]]. apply wrap_uint8_range.
Qed.

(** A uint8 frame of rank 2 or 3 that has elements becomes an image as wide
    as the frame has columns and as high as it has rows. *)
Lemma frame_to_pil_image_ok (frame : ndarray F) :
  fromarray_contract fromarray image_size ->
  is_uint8 frame = true -> well_formed frame -> size frame <> O ->
  rank frame = 2%nat \/ rank frame = 3%nat ->
  exists pil_image,
    _frame_to_pil_image fromarray image_size frame = Returns pil_image /\
    image_size pil_image = (dim frame 1, dim frame 0).
Proof.
  intros Hpil Hu Hwf Hne Hrank.
  pose proof (nonempty_no_zero_dimension frame Hwf Hne) as Hnz.
  assert (Hsrc : exists array mode,
            pil_source frame = Returns (array, mode) /\
            is_uint8 array = true /\ well_formed array /\ size array <> O /\
            ((mode = ModeL /\ rank array = 2%nat) \/
             (mode = ModeRGB /\ rank array = 3%nat /\ dim array 2 = 3%N)) /\
            dim array 1 = dim frame 1 /\ dim array 0 = dim frame 0).
  { pose proof (index_last_well_formed frame 0) as Hlast.
    pose proof (mean_channels_form frame) as Hmean.
    unfold pil_source, rank, dim, no_zero_dimension in *.
    destruct (shape frame) as [|d0 [|d1 [|d2 [|d3 s]]]] eqn:Hs;
      simpl in Hrank; try (destruct Hrank; discriminate).
    - exists frame, ModeL. rewrite Hs. repeat split; auto; try apply Hwf.
    - cbn [length nth].
      destruct (d2 =? 3)%N eqn:E3.
      { apply N.eqb_eq in E3. exists frame, ModeRGB. rewrite Hs.
        repeat split; auto; try apply Hwf. }
      assert (H0 : d0 <> 0%N /\ d1 <> 0%N /\ d2 <> 0%N).
      { inversion Hnz as [|? ? H0 Hnz1]; subst.
        inversion Hnz1 as [|? ? H1 Hnz2]; subst.
        inversion Hnz2; subst. auto. }
      destruct (d2 =? 1)%N eqn:E1.
      { apply N.eqb_eq in E1. subst d2. cbv zeta.
        destruct (Hlast d0 d1 1%N eq_refl Hwf ltac:(lia)) as [Hs' Hw'].
        exists (index_last frame 0), ModeL. rewrite Hs'.
        split; [reflexivity|]. split.
        { unfold index_last.
          apply (is_uint8_map_buffer _ (shape frame)). now destruct frame. }
        split; [exact Hw'|]. split.
        { destruct Hw' as [Hsz _]. rewrite Hs' in Hsz. simpl in Hsz.
          intros Hz. rewrite Hz in Hsz. simpl in Hsz. nia. }
        repeat split; auto. }
      cbv zeta.
      destruct (Hmean d0 d1 d2 eq_refl) as [Hs' [Hu' Hw']].
      exists (mean_channels frame), ModeL. rewrite Hs'.
      split; [reflexivity|]. split; [exact Hu'|]. split; [exact Hw'|]. split.
      { destruct Hw' as [Hsz _]. rewrite Hs' in Hsz. simpl in Hsz.
        intros Hz. rewrite Hz in Hsz. simpl in Hsz. nia. }
      repeat split; auto. }
  destruct Hsrc as [array [mode [Hsrc [Hau [Haw [Han [Hmode [Hd1 Hd0]]]]]]]].
  destruct (Hpil array mode Hau Haw Han Hmode) as [im [Him Hsize]].
  exists im. split; [|now rewrite Hsize, Hd1, Hd0].
  unfold _frame_to_pil_image.
  rewrite (ensure_uint8_already frame Hu). simpl. rewrite Hsrc. simpl.
  rewrite Him. simpl. rewrite Hsize, Hd1, Hd0. simpl.
  assert (H1 : dim frame 1 <> 0%N /\ dim frame 0 <> 0%N).
  { unfold dim, rank, no_zero_dimension in *.
    destruct (shape frame) as [|d0 [|d1 s]];
      simpl in Hrank; try (destruct Hrank; discriminate).
    inversion Hnz as [|? ? H0 Hnz1]; subst.
    inversion Hnz1; subst. simpl. auto. }
  destruct H1 as [H1 H0].
  apply N.eqb_neq in H1, H0. now rewrite H1, H0.
Qed.

End ImageOfFrame.

(** X11: a frame that is uint8 already, of rank 2 or 3, well-formed and with
    elements, always becomes an image, as wide as the frame has columns and
    as high as it has rows, whichever of the four shape cases applies (rank
    2, RGB, one channel, channels averaged); this given that
    [Image.fromarray] accepts well-formed uint8 arrays. *)
Theorem uint8_frame_becomes_image {F : Type} {FO : Float64 F} (Image : Type)
    (fromarray : ndarray F -> image_mode -> result Image)
    (image_size : Image -> N * N) (frame : ndarray F) :
  fromarray_contract fromarray image_size ->
  is_uint8 frame = true -> well_formed frame -> size frame <> O ->
  rank frame = 2%nat \/ rank frame = 3%nat ->
  exists pil_image,
    _frame_to_pil_image fromarray image_size frame = Returns pil_image /\
    image_size pil_image = (dim frame 1, dim frame 0).
Proof.
  exact (frame_to_pil_image_ok Image fromarray image_size frame).
Qed.


Lemma uint8_frame_becomes_image_witness :
  exists pil_image,
    _frame_to_pil_image Files.fromarray Files.image_size
      (NdArray [1; 2; 2]%N (IntBuf uint8 [10; 20; 30; 41]))
    = Returns pil_image /\
    Files.image_size pil_image = (2%N, 1%N).
Proof.
  apply (uint8_frame_becomes_image Files.image Files.fromarray Files.image_size
           (NdArray [1; 2; 2]%N (IntBuf uint8 [10; 20; 30; 41]))).
  - intros array mode _ _ _ _. now exists (array, mode).
  - reflexivity.
  - split; [reflexivity|]. repeat constructor.
  - discriminate.
  - now right.
Defined.

(** ** Every frame of the pipeline becomes an image *)

Section Pipeline.

Context {F : Type} {FO : Float64 F}.
Variable apply_voi_lut : ndarray F -> Dataset F -> result (ndarray F).
Variable decompress : Dataset F -> result (Dataset F).
Hypothesis voi_keeps_form : keeps_form apply_voi_lut.

Lemma split_frames_rank (a : ndarray F) (frames : list (ndarray F)) :
  split_frames a = Ok frames ->
  rank a = 2%nat \/ rank a = 3%nat \/ rank a = 4%nat.
Proof.
  unfold split_frames.
  destruct (rank a) as [|[|[|[|[|n]]]]]; try discriminate; auto.
Qed.

Lemma split_frames_sizes (a : ndarray F) (frames : list (ndarray F)) :
  well_formed a -> size a <> O -> split_frames a = Ok frames ->
  frames <> [] /\ Forall (fun f => size f <> O) frames.
Proof.
  intros Hwf Hne Hsplit.
  destruct (split_frames_nonempty a (proj1 Hwf)
              (nonempty_no_zero_dimension a Hwf Hne)
              (split_frames_rank a frames Hsplit)) as [fs [Hfs [Hn Hall]]].
  rewrite Hsplit in Hfs. injection Hfs as <-. now split.
Qed.

Lemma normalize_keeps_size (f out : ndarray F) (ds : Dataset F) :
  well_formed f ->
  _normalize_pixel_array apply_voi_lut f ds = Ok out ->
  size out = size f.
Proof.
  intros Hwf Hn.
  destruct (normalize_pixel_array_post apply_voi_lut f out ds
              voi_keeps_form Hwf Hn) as [_ [Hs [Hsz _]]].
  destruct Hwf as [Hsz' _]. rewrite Hs, <- Hsz' in Hsz. lia.
Qed.

Lemma survivors_sizes (frames : list (ndarray F)) (ds : Dataset F) :
  Forall (fun f => well_formed f /\ size f <> O) frames ->
  Forall (fun f => size f <> O) (survivors apply_voi_lut frames ds).
Proof.
  induction 1 as [|f frames [Hwf Hne] _ IH]; simpl; [constructor|].
  destruct (_normalize_pixel_array apply_voi_lut f ds) as [out|] eqn:E;
    simpl; [|exact IH].
  constructor; [|exact IH]. now rewrite (normalize_keeps_size f out ds Hwf E).
Qed.

Lemma extract_frames_body_sizes (ds : Dataset F) (frames : list (ndarray F)) :
  decodes_well ds ->
  extract_frames_body apply_voi_lut ds = Ok frames ->
  Forall (fun f => size f <> O) frames.
Proof.
  intros Hds. unfold extract_frames_body.
  destruct (pixel_array ds) as [a|] eqn:Ha; simpl; [|discriminate].
  destruct (Hds a Ha) as [Hwf Hne].
  destruct (split_frames a) as [fs|] eqn:Hsplit; simpl; [|discriminate].
  destruct (split_frames_post a fs Hwf (first_axis_nonempty a Hwf Hne) Hsplit)
    as [s [_ Hall]].
  destruct (split_frames_sizes a fs Hwf Hne Hsplit) as [_ Hsz].
  rewrite normalize_frames_survivors.
  assert (Hboth : Forall (fun f => well_formed f /\ size f <> O) fs).
  { rewrite Forall_forall in *. intros f Hf. split.
    - now apply Hall. - now apply Hsz. }
  pose proof (survivors_sizes fs ds Hboth) as Hsurv.
  destruct (survivors apply_voi_lut fs ds) as [|f l]; [discriminate|].
  now intros [= <-].
Qed.

(** What holds of the frames of every pass holds of the frames returned. *)
Lemma extract_frames_from_body (Q : list (ndarray F) -> Prop) :
  (forall ds frames,
     decodes_well ds -> extract_frames_body apply_voi_lut ds = Ok frames ->
     Q frames) ->
  (forall ds ds', decompress ds = Ok ds' -> decodes_well ds') ->
  forall depth ds frames,
    decodes_well ds ->
    _extract_frames apply_voi_lut decompress depth ds = Ok frames ->
    Q frames.
Proof.
  intros Hbody Hdec.
  induction depth as [|depth IH]; intros ds frames Hds H; [discriminate|].
  destruct (extract_frames_body apply_voi_lut ds) as [fs|e] eqn:Hb.
  - rewrite (extract_frames_ok apply_voi_lut decompress depth ds fs Hb) in H.
    injection H as <-. now apply (Hbody ds).
  - destruct (extract_frames_handler apply_voi_lut decompress depth ds e Hb)
      as [Hr|[ds' [fs [_ [Hd [Hrec Hret]]]]]]; [congruence|].
    rewrite Hret in H. injection H as <-.
    apply (IH ds' fs); [|exact Hrec]. now apply (Hdec ds).
Qed.

End Pipeline.

(** X12: the segmenter and the image builder fit together.  When the
    datasets at hand decode to well-formed pixel arrays that have elements,
    the VOI LUT hands back well-formed arrays of the shape it was given and
    [Image.fromarray] accepts well-formed uint8 arrays, every frame that
    [_extract_frames] returns is turned into an image by
    [_frame_to_pil_image], as wide as the frame has columns and as high as
    it has rows: neither of its two errors can occur, and its conversion to
    uint8 leaves the frame as it is. *)
Theorem extracted_frames_become_images {F : Type} {FO : Float64 F}
    (apply_voi_lut : ndarray F -> Dataset F -> result (ndarray F))
    (decompress : Dataset F -> result (Dataset F))
    (Image : Type) (fromarray : ndarray F -> image_mode -> result Image)
    (image_size : Image -> N * N)
    (depth : nat) (ds : Dataset F) (frames : list (ndarray F)) :
  keeps_form apply_voi_lut ->
  (forall ds ds', decompress ds = Ok ds' -> decodes_well ds') ->
  fromarray_contract fromarray image_size ->
  decodes_well ds ->
  _extract_frames apply_voi_lut decompress depth ds = Ok frames ->
  Forall (fun f =>
            ensure_uint8 f = Ok f /\
            exists pil_image,
              _frame_to_pil_image fromarray image_size f = Returns pil_image /\
              image_size pil_image = (dim f 1, dim f 0))
         frames.
Proof.
  intros Hvoi Hdec Hpil Hds Hex.
  destruct (extract_frames_post apply_voi_lut decompress depth Hvoi Hdec
              ds frames Hds Hex) as [s [Hrank Hform]].
  pose proof (extract_frames_from_body apply_voi_lut decompress
                (Forall (fun f => size f <> O))
                (extract_frames_body_sizes apply_voi_lut Hvoi) Hdec
                depth ds frames Hds Hex) as Hsizes.
  rewrite Forall_forall in *. intros f Hf.
  destruct (Hform f Hf) as [Hu [Hs Hwf]]. specialize (Hsizes f Hf).
  split; [now apply ensure_uint8_already|].
  apply frame_to_pil_image_ok; try assumption.
  unfold rank. now rewrite Hs.
Qed.

Lemma extracted_frames_become_images_witness :
  Forall (fun f =>
            ensure_uint8 f = Ok f /\
            exists pil_image,
              _frame_to_pil_image Files.fromarray Files.image_size f
              = Returns pil_image /\
              Files.image_size pil_image = (dim f 1, dim f 0))
    [NdArray [3; 4]%N (@IntBuf float uint8 [128; 128; 128; 128; 128; 128;
                                             128; 128; 128; 128; 128; 128]);
     NdArray [3; 4]%N (@IntBuf float uint8 [0; 23; 46; 69; 92; 115;
                                             139; 162; 185; 208; 231; 255])].
Proof.
  apply (extracted_frames_become_images Examples.voi_lut_unchanged
           Examples.decompress_raises Files.image Files.fromarray
           Files.image_size 1
           (Examples.dataset_of Examples.two_frames None None None)).
  - intros a ds a' Hwf H. injection H as <-. now split.
  - intros ds ds' H. discriminate.
  - intros array mode _ _ _ _. now exists (array, mode).
  - intros a H. injection H as <-. split; [split|]; try discriminate.
    + reflexivity.
    + repeat constructor.
  - reflexivity.
Defined.


(** ** Converting one file *)

Section ConvertDicomFacts.

Context {F : Type} {FO : Float64 F}.
Variable apply_voi_lut : ndarray F -> Dataset F -> result (ndarray F).
Variable decompress : Dataset F -> result (Dataset F).
Variable Image : Type.
Variable fromarray : ndarray F -> image_mode -> result Image.
Variable image_size : Image -> N * N.
Variable World : Type.
Variable Path : Type.
Variable path_exists : World -> Path -> result bool.
Variable mkdir : Path -> World -> result unit * World.
Variable dcmread : World -> Path -> result (Dataset F).
Variable save : Image -> Path -> Z -> World -> result unit * World.
Variable stem : Path -> string.
Variable joinpath : Path -> string -> Path.
Variable str : Path -> string.
Variable jpeg_quality : Z.
Variable depth : nat.

Local Abbreviation convert :=
  (convert_dicom apply_voi_lut decompress fromarray image_size path_exists
     mkdir dcmread save stem joinpath str jpeg_quality depth).
Local Abbreviation read :=
  (convert_read apply_voi_lut decompress fromarray image_size
     dcmread save stem joinpath str jpeg_quality depth).
Local Abbreviation save_first :=
  (save_first_frame fromarray image_size save stem joinpath str jpeg_quality).
Local Abbreviation jpg := (jpg_path stem joinpath).

Lemma save_first_frame_inv (frames : list (ndarray F)) (p out : Path)
    (w w' : World) (paths : list string) :
  save_first frames p out w = (paths, w') ->
  paths = [] \/
  exists frame rest pil_image,
    frames = frame :: rest /\
    _frame_to_pil_image fromarray image_size frame = Returns pil_image /\
    save pil_image (jpg p out) jpeg_quality w = (Ok tt, w') /\
    paths = [str (jpg p out)].
Proof.
  unfold save_first_frame. destruct frames as [|frame rest].
  - intros [= <- _]. now left.
  - cbv zeta.
    destruct (_frame_to_pil_image fromarray image_size frame) as [im|] eqn:Him;
      [|intros [= <- _]; now left].
    destruct (save im (jpg p out) jpeg_quality w) as [[[]|e] w2] eqn:Hs;
      intros [= <- <-]; [right|now left].
    now exists frame, rest, im.
Qed.

Lemma convert_read_inv (p out : Path) (w w' : World) (paths : list string) :
  read p out w = (paths, w') ->
  paths = [] \/
  exists ds frame rest pil_image,
    dcmread w p = Ok ds /\
    _extract_frames apply_voi_lut decompress depth ds = Ok (frame :: rest) /\
    _frame_to_pil_image fromarray image_size frame = Returns pil_image /\
    save pil_image (jpg p out) jpeg_quality w = (Ok tt, w') /\
    paths = [str (jpg p out)].
Proof.
  unfold convert_read.
  destruct (dcmread w p) as [ds|] eqn:Hd; [|intros [= <- _]; now left].
  destruct (pixel_array ds) as [a|]; [|intros [= <- _]; now left].
  destruct (np_min a); [|intros [= <- _]; now left].
  destruct (np_max a); [|intros [= <- _]; now left].
  destruct (_extract_frames apply_voi_lut decompress depth ds) as [frames|] eqn:Hx;
    [|intros [= <- _]; now left].
  intros H. apply save_first_frame_inv in H.
  destruct H as [H|[frame [rest [im [-> [Him [Hs Hp]]]]]]]; [now left|right].
  now exists ds, frame, rest, im.
Qed.

(** X13: one file gives at most one JPEG.  The list [convert_dicom] returns
    is empty or holds one path, [output_dir / (stem + ".jpg")]; and then the
    file saved under that path is the image of the first of the frames
    [_extract_frames] returned, however many there are. *)
Theorem convert_dicom_one_jpeg (p out : Path) (w w' : World)
    (paths : list string) :
  convert p out w = (Ok paths, w') ->
  paths = [] \/
  exists w1 ds frame rest pil_image,
    mkdir out w = (Ok tt, w1) /\
    dcmread w1 p = Ok ds /\
    _extract_frames apply_voi_lut decompress depth ds = Ok (frame :: rest) /\
    _frame_to_pil_image fromarray image_size frame = Returns pil_image /\
    save pil_image (jpg p out) jpeg_quality w1 = (Ok tt, w') /\
    paths = [str (joinpath out (stem p ++ ".jpg"))].
Proof.
  unfold convert_dicom.
  destruct (path_exists w p) as [[|]|]; [|intros [= <- _]; now left|discriminate].
  destruct (mkdir out w) as [[[]|] w1] eqn:Hm; [|discriminate].
  destruct (read p out w1) as [ps w2] eqn:Hr. intros [= <- <-].
  apply convert_read_inv in Hr.
  destruct Hr as [H|[ds [frame [rest [im [Hd [Hx [Him [Hs Hp]]]]]]]]];
    [now left|right].
  now exists w1, ds, frame, rest, im.
Qed.


(** X15: a pixel array without elements is never converted.  When the file
    decodes to an empty array (any shape with a zero in it), the method
    returns [] and the file system is as [mkdir] left it: [np.min] of the
    debug message raises and the handler returns.  [_extract_frames] alone
    would hand on the empty frame of a uint8 array. *)
Theorem empty_pixel_array_is_not_converted (p out : Path) (w w1 : World)
    (ds : Dataset F) (a : ndarray F) :
  path_exists w p = Ok true ->
  mkdir out w = (Ok tt, w1) ->
  dcmread w1 p = Ok ds ->
  pixel_array ds = Ok a ->
  size a = O ->
  convert p out w = (Ok [], w1).
Proof.
  intros He Hm Hd Ha Hs. unfold convert_dicom, convert_read.
  rewrite He, Hm, Hd, Ha.
  assert (Hmin : np_min a = Raise ZeroSizeReduction).
  { unfold np_min, size in *. destruct (buf a) as [t l|l];
      apply length_zero_iff_nil in Hs; now subst l. }
  now rewrite Hmin.
Qed.

Lemma convert_dicom_ok (p out : Path) (w w1 : World)
    (ds : Dataset F) (a : ndarray F) :
  keeps_form apply_voi_lut ->
  keeps_size apply_voi_lut ->
  fromarray_contract fromarray image_size ->
  path_exists w p = Ok true ->
  mkdir out w = (Ok tt, w1) ->
  dcmread w1 p = Ok ds ->
  pixel_array ds = Ok a ->
  well_formed a -> size a <> O ->
  rank a = 2%nat \/ rank a = 3%nat \/ rank a = 4%nat ->
  (forall pil_image, fst (save pil_image (jpg p out) jpeg_quality w1) = Ok tt) ->
  depth <> O ->
  exists w2,
    convert p out w = (Ok [str (joinpath out (stem p ++ ".jpg"))], w2).
Proof.
  intros Hform Hsize Hpil He Hm Hd Ha Hwf Hne Hrank Hsave Hdepth.
  destruct depth as [|depth'] eqn:Edepth; [contradiction|].
  assert (Hds : decodes_well ds).
  { intros a' Ha'. rewrite Ha in Ha'. injection Ha' as <-. now split. }
  destruct (split_frames_nonempty a (proj1 Hwf)
              (nonempty_no_zero_dimension a Hwf Hne) Hrank)
    as [fs [Hsplit [Hfs Hall]]].
  pose proof (survivors_all apply_voi_lut Hsize fs ds Hall) as Hlen.
  assert (Hbody : extract_frames_body apply_voi_lut ds
                  = Ok (survivors apply_voi_lut fs ds)).
  { unfold extract_frames_body. rewrite Ha. simpl. rewrite Hsplit. simpl.
    rewrite normalize_frames_survivors.
    destruct (survivors apply_voi_lut fs ds); [|reflexivity].
    destruct fs; [contradiction|discriminate]. }
  destruct (extract_frames_body_form apply_voi_lut Hform ds _ Hds Hbody)
    as [s [Hs Hforms]].
  pose proof (extract_frames_body_sizes apply_voi_lut Hform ds _ Hds Hbody)
    as Hsizes.
  pose proof (extract_frames_ok apply_voi_lut decompress depth' ds _ Hbody)
    as Hex.
  destruct (survivors apply_voi_lut fs ds) as [|frame rest] eqn:Hsurv.
  { destruct fs; [contradiction|discriminate]. }
  inversion Hforms as [|? ? [Hu [Hshape Hwf']] _]; subst.
  inversion Hsizes as [|? ? Hne' _]; subst.
  destruct (frame_to_pil_image_ok Image fromarray image_size frame
              Hpil Hu Hwf' Hne') as [im [Him _]].
  { unfold rank. exact Hs. }
  specialize (Hsave im).
  destruct (save im (jpg p out) jpeg_quality w1) as [r w2] eqn:Hsv.
  simpl in Hsave. subst r.
  exists w2. unfold convert_dicom, convert_read.
  rewrite He, Hm, Hd, Ha.
  destruct (np_min_ok a Hne) as [mn ->]. destruct (np_max_ok a Hne) as [mx ->].
  rewrite Hex. unfold save_first_frame. cbv zeta. rewrite Him.
  unfold jpg_path in *. now rewrite Hsv.
Qed.

(** X16: a file that decodes is converted.  For a file that exists, whose
    dataset decodes to a well-formed pixel array of rank 2, 3 or 4 that has
    elements, with a VOI LUT that keeps the form and the size of what it is
    given, an [Image.fromarray] that accepts well-formed uint8 arrays, a
    [mkdir] and a [save] that succeed and room for one call on the stack,
    [convert_dicom] returns exactly the one path
    [output_dir / (stem + ".jpg")]. *)
Theorem convert_dicom_succeeds (p out : Path) (w w1 : World)
    (ds : Dataset F) (a : ndarray F) :
  keeps_form apply_voi_lut ->
  keeps_size apply_voi_lut ->
  fromarray_contract fromarray image_size ->
  path_exists w p = Ok true ->
  mkdir out w = (Ok tt, w1) ->
  dcmread w1 p = Ok ds ->
  pixel_array ds = Ok a ->
  well_formed a -> size a <> O ->
  rank a = 2%nat \/ rank a = 3%nat \/ rank a = 4%nat ->
  (forall pil_image, fst (save pil_image (jpg p out) jpeg_quality w1) = Ok tt) ->
  depth <> O ->
  exists w2,
    convert p out w = (Ok [str (joinpath out (stem p ++ ".jpg"))], w2).
Proof.
  exact (convert_dicom_ok p out w w1 ds a).
Qed.

End ConvertDicomFacts.


Lemma convert_dicom_one_jpeg_witness :
  ["converted_jpegs/scan.jpg"%string] = [] \/
  exists w1 ds frame rest pil_image,
    Files.mkdir "converted_jpegs"%string [] = (Ok tt, w1) /\
    Files.dcmread (Examples.dataset_of Examples.two_frames None None None)
      w1 "scan"%string = Ok ds /\
    _extract_frames Examples.voi_lut_unchanged Examples.decompress_raises 1 ds
    = Ok (frame :: rest) /\
    _frame_to_pil_image Files.fromarray Files.image_size frame
    = Returns pil_image /\
    Files.save pil_image
      (jpg_path Files.stem Files.joinpath "scan"%string "converted_jpegs"%string)
      95 w1
    = (Ok tt,
       [("converted_jpegs/scan.jpg"%string,
         (NdArray [3; 4]%N
            (@IntBuf float uint8 [128; 128; 128; 128; 128; 128;
                                  128; 128; 128; 128; 128; 128]),
          ModeL))]) /\
    ["converted_jpegs/scan.jpg"%string]
    = [Files.str (Files.joinpath "converted_jpegs"%string
                    (Files.stem "scan"%string ++ ".jpg"))].
Proof.
  apply (convert_dicom_one_jpeg Examples.voi_lut_unchanged
           Examples.decompress_raises Files.image Files.fromarray
           Files.image_size Files.world string Files.path_exists Files.mkdir
           (Files.dcmread (Examples.dataset_of Examples.two_frames None None None))
           Files.save Files.stem Files.joinpath Files.str 95 1
           "scan"%string "converted_jpegs"%string []).
  reflexivity.
Defined.


Lemma empty_pixel_array_is_not_converted_witness :
  convert_example Files.mkdir
    (Examples.dataset_of (NdArray [0; 5]%N (IntBuf uint8 [])) None None None)
  = (Ok [], []).
Proof.
  apply (empty_pixel_array_is_not_converted Examples.voi_lut_unchanged
           Examples.decompress_raises Files.image Files.fromarray
           Files.image_size Files.world string Files.path_exists Files.mkdir
           (Files.dcmread
              (Examples.dataset_of (NdArray [0; 5]%N (IntBuf uint8 []))
                 None None None))
           Files.save Files.stem Files.joinpath Files.str 95 1
           "scan"%string "converted_jpegs"%string [] []
           (Examples.dataset_of (NdArray [0; 5]%N (IntBuf uint8 []))
              None None None)
           (NdArray [0; 5]%N (IntBuf uint8 [])));
    reflexivity.
Defined.

Lemma convert_dicom_succeeds_witness :
  exists w2,
    convert_example Files.mkdir
      (Examples.dataset_of Examples.two_frames None None None)
    = (Ok [Files.str (Files.joinpath "converted_jpegs"%string
                        (Files.stem "scan"%string ++ ".jpg"))], w2).
Proof.
  apply (convert_dicom_succeeds Examples.voi_lut_unchanged
           Examples.decompress_raises Files.image Files.fromarray
           Files.image_size Files.world string Files.path_exists Files.mkdir
           (Files.dcmread (Examples.dataset_of Examples.two_frames None None None))
           Files.save Files.stem Files.joinpath Files.str 95 1
           "scan"%string "converted_jpegs"%string [] []
           (Examples.dataset_of Examples.two_frames None None None)
           Examples.two_frames).
  - intros a ds a' Hwf H. injection H as <-. now split.
  - intros a ds a' H. now injection H as <-.
  - intros array mode _ _ _ _. now exists (array, mode).
  - reflexivity.
  - reflexivity.
  - reflexivity.
  - reflexivity.
  - split; [reflexivity|]. repeat constructor.
  - discriminate.
  - right. now left.
  - reflexivity.
  - discriminate.
Defined.


(** ** The diagnosis and the conversion *)

Section DiagnoseFacts.

Context {F : Type} {FO : Float64 F}.
Variable apply_voi_lut : ndarray F -> Dataset F -> result (ndarray F).
Variable decompress : Dataset F -> result (Dataset F).
Variable Image : Type.
Variable fromarray : ndarray F -> image_mode -> result Image.
Variable image_size : Image -> N * N.
Variable World : Type.
Variable Path : Type.
Variable path_exists : World -> Path -> result bool.
Variable mkdir : Path -> World -> result unit * World.
Variable dcmread_header : World -> Path -> result (Header F).
Variable dcmread : World -> Path -> result (Dataset F).
Variable save : Image -> Path -> Z -> World -> result unit * World.
Variable stem : Path -> string.
Variable joinpath : Path -> string -> Path.
Variable str : Path -> string.
Variable jpeg_quality : Z.
Variable depth : nat.

Local Abbreviation convert :=
  (convert_dicom apply_voi_lut decompress fromarray image_size path_exists
     mkdir dcmread save stem joinpath str jpeg_quality depth).
Local Abbreviation diagnose :=
  (diagnose_dicom apply_voi_lut fromarray image_size path_exists
     dcmread_header dcmread).

Lemma np_min_nonempty (a : ndarray F) (m : scalar F) :
  np_min a = Ok m -> size a <> O.
Proof.
  unfold np_min, size. destruct (buf a) as [t [|z l]|[|x l]]; simpl;
    discriminate.
Qed.

Lemma frame_to_pil_image_rank (frame : ndarray F) (pil_image : Image) :
  _frame_to_pil_image fromarray image_size frame = Returns pil_image ->
  rank frame = 2%nat \/ rank frame = 3%nat.
Proof.
  unfold _frame_to_pil_image.
  destruct (ensure_uint8 frame) as [f|] eqn:Hf; simpl; [|discriminate].
  apply ensure_uint8_form in Hf. destruct Hf as [Hs _].
  destruct (pil_source f) as [[array mode]|] eqn:Hp; simpl; [|discriminate].
  intros _. apply pil_source_rank in Hp. unfold rank in *. now rewrite <- Hs.
Qed.

(** What a positive diagnosis went through. *)
Lemma diagnose_true_inv (p : Path) (w : World) :
  diagnose p w = Ok true ->
  path_exists w p = Ok true /\
  exists ds a normalized pil_image,
    dcmread w p = Ok ds /\ pixel_array ds = Ok a /\
    size a <> O /\ shape_size (shape a) <> 0%N /\
    _normalize_pixel_array apply_voi_lut (test_frame a) ds = Ok normalized /\
    _frame_to_pil_image fromarray image_size normalized = Returns pil_image.
Proof.
  unfold diagnose_dicom.
  destruct (path_exists w p) as [[|]|]; simpl; try discriminate.
  intros H. split; [reflexivity|]. injection H as H.
  unfold diagnose_body in H.
  destruct (dcmread_header w p) as [h|]; simpl in H; [|discriminate].
  destruct (Rows h); [|discriminate].
  destruct (Columns h); [|discriminate].
  destruct (more_than_one_frame h) as [many|]; simpl in H; [|discriminate].
  destruct (window_info h) as [u|]; simpl in H; [|discriminate].
  unfold diagnose_pixels in H.
  destruct (dcmread w p) as [ds|] eqn:Hd; simpl in H; [|discriminate].
  destruct (pixel_array ds) as [a|] eqn:Ha; simpl in H; [|discriminate].
  destruct (np_min a) as [mn|] eqn:Hmin; simpl in H; [|discriminate].
  destruct (np_max a); simpl in H; [|discriminate].
  destruct (N.eqb_spec (shape_size (shape a)) 0) as [|Hsz]; simpl in H;
    [discriminate|].
  destruct (rank a <? 2)%nat; simpl in H; [discriminate|].
  unfold diagnose_processing in H.
  destruct (_normalize_pixel_array apply_voi_lut (test_frame a) ds)
    as [normalized|] eqn:Hn; [|discriminate].
  destruct (np_min normalized); [|discriminate].
  destruct (np_max normalized); [|discriminate].
  destruct (_frame_to_pil_image fromarray image_size normalized)
    as [im|] eqn:Him; [|discriminate].
  exists ds, a, normalized, im. repeat split; try assumption.
  now apply (np_min_nonempty a mn).
Qed.

(** X17: the diagnosis is wrong about rank-4 pixel arrays.  For a file whose
    dataset decodes to a well-formed array of rank 4 that has elements,
    [diagnose_dicom] does not answer True (it tries the whole array as one
    frame, which [_frame_to_pil_image] refuses), while [convert_dicom], all
    else going well, converts the file. *)
Theorem diagnosis_refuses_rank_4 (p out : Path) (w w1 : World)
    (ds : Dataset F) (a : ndarray F) :
  keeps_form apply_voi_lut ->
  keeps_size apply_voi_lut ->
  fromarray_contract fromarray image_size ->
  path_exists w p = Ok true ->
  mkdir out w = (Ok tt, w1) ->
  dcmread w p = Ok ds -> dcmread w1 p = Ok ds ->
  pixel_array ds = Ok a ->
  well_formed a -> size a <> O ->
  rank a = 4%nat ->
  (forall pil_image,
     fst (save pil_image (jpg_path stem joinpath p out) jpeg_quality w1) = Ok tt) ->
  depth <> O ->
  diagnose p w = Ok false /\
  exists w2,
    convert p out w = (Ok [str (joinpath out (stem p ++ ".jpg"))], w2).
Proof.
  intros Hvoi Hsize Hpil He Hm Hd Hd1 Ha Hwf Hne Hrank Hsave Hdepth. split.
  - destruct (diagnose p w) as [[|]|e] eqn:Hdiag.
    + exfalso. apply diagnose_true_inv in Hdiag.
      destruct Hdiag as [_ [ds' [a' [norm [im [Hd' [Ha' [_ [_ [Hn Him]]]]]]]]]].
      rewrite Hd in Hd'. injection Hd' as <-.
      rewrite Ha in Ha'. injection Ha' as <-.
      assert (Ht : test_frame a = a) by (unfold test_frame; now rewrite Hrank).
      rewrite Ht in Hn.
      apply frame_to_pil_image_rank in Him.
      destruct (normalize_pixel_array_post apply_voi_lut a norm ds Hvoi Hwf Hn)
        as [_ [Hs _]].
      unfold rank in *. rewrite Hs, Hrank in Him. destruct Him; discriminate.
    + reflexivity.
    + exfalso. unfold diagnose_dicom in Hdiag. rewrite He in Hdiag.
      discriminate.
  - apply (convert_dicom_ok apply_voi_lut decompress Image fromarray image_size
             World Path path_exists mkdir dcmread save stem joinpath str
             jpeg_quality depth p out w w1 ds a); auto.
Qed.

(** X18: a positive diagnosis is right.  When [diagnose_dicom] answers True
    for a file, [convert_dicom] converts it, returning the one path
    [output_dir / (stem + ".jpg")]; this given a decoder that yields
    well-formed arrays, a VOI LUT that keeps the form and the size of what
    it is given, an [Image.fromarray] that accepts well-formed uint8 arrays,
    a [mkdir] that succeeds and leaves the file readable as before, a [save]
    that succeeds and room for one call on the stack. *)
Theorem positive_diagnosis_is_right (p out : Path) (w w1 : World) :
  keeps_form apply_voi_lut ->
  keeps_size apply_voi_lut ->
  fromarray_contract fromarray image_size ->
  (forall ds a, dcmread w p = Ok ds -> pixel_array ds = Ok a -> well_formed a) ->
  mkdir out w = (Ok tt, w1) ->
  dcmread w1 p = dcmread w p ->
  (forall pil_image,
     fst (save pil_image (jpg_path stem joinpath p out) jpeg_quality w1) = Ok tt) ->
  depth <> O ->
  diagnose p w = Ok true ->
  exists w2,
    convert p out w = (Ok [str (joinpath out (stem p ++ ".jpg"))], w2).
Proof.
  intros Hvoi Hsize Hpil Hdec Hm Hsame Hsave Hdepth Hdiag.
  apply diagnose_true_inv in Hdiag.
  destruct Hdiag as [He [ds [a [norm [im [Hd [Ha [Hne [Hsz [Hn Him]]]]]]]]]].
  pose proof (Hdec ds a Hd Ha) as Hwf.
  apply frame_to_pil_image_rank in Him.
  assert (Hrank : rank a = 2%nat \/ rank a = 3%nat \/ rank a = 4%nat).
  { unfold test_frame in Hn.
    destruct (rank a =? 3)%nat eqn:E3.
    - apply Nat.eqb_eq in E3. auto.
    - simpl in Hn.
      destruct (normalize_pixel_array_post apply_voi_lut a norm ds Hvoi Hwf Hn)
        as [_ [Hs _]].
      unfold rank in *. rewrite Hs in Him. tauto. }
  apply (convert_dicom_ok apply_voi_lut decompress Image fromarray image_size
           World Path path_exists mkdir dcmread save stem joinpath str
           jpeg_quality depth p out w w1 ds a); auto.
  now rewrite Hsame.
Qed.

End DiagnoseFacts.

Lemma diagnosis_refuses_rank_4_witness :
  diagnose_example 1 1 (Examples.dataset_of two_channel_frames None None None)
  = Ok false /\
  exists w2,
    convert_example Files.mkdir
      (Examples.dataset_of two_channel_frames None None None)
    = (Ok [Files.str (Files.joinpath "converted_jpegs"%string
                        (Files.stem "scan"%string ++ ".jpg"))], w2).
Proof.
  apply (diagnosis_refuses_rank_4 Examples.voi_lut_unchanged
           Examples.decompress_raises Files.image Files.fromarray
           Files.image_size Files.world string Files.path_exists Files.mkdir
           (header_example 1 1 (Examples.dataset_of two_channel_frames None None None))
           (Files.dcmread (Examples.dataset_of two_channel_frames None None None))
           Files.save Files.stem Files.joinpath Files.str 95 1
           "scan"%string "converted_jpegs"%string [] []
           (Examples.dataset_of two_channel_frames None None None)
           two_channel_frames).
  - intros a ds a' Hwf H. injection H as <-. now split.
  - intros a ds a' H. now injection H as <-.
  - intros array mode _ _ _ _. now exists (array, mode).
  - reflexivity.
  - reflexivity.
  - reflexivity.
  - reflexivity.
  - reflexivity.
  - split; [reflexivity|]. repeat constructor.
  - discriminate.
  - reflexivity.
  - reflexivity.
  - discriminate.
Defined.

Lemma positive_diagnosis_is_right_witness :
  exists w2,
    convert_example Files.mkdir
      (Examples.dataset_of Examples.two_frames None None None)
    = (Ok [Files.str (Files.joinpath "converted_jpegs"%string
                        (Files.stem "scan"%string ++ ".jpg"))], w2).
Proof.
  apply (positive_diagnosis_is_right Examples.voi_lut_unchanged
           Examples.decompress_raises Files.image Files.fromarray
           Files.image_size Files.world string Files.path_exists Files.mkdir
           (header_example 3 4 (Examples.dataset_of Examples.two_frames None None None))
           (Files.dcmread (Examples.dataset_of Examples.two_frames None None None))
           Files.save Files.stem Files.joinpath Files.str 95 1
           "scan"%string "converted_jpegs"%string [] []).
  - intros a ds a' Hwf H. injection H as <-. now split.
  - intros a ds a' H. now injection H as <-.
  - intros array mode _ _ _ _. now exists (array, mode).
  - intros ds a Hd Ha. injection Hd as <-. injection Ha as <-.
    split; [reflexivity|]. repeat constructor.
  - reflexivity.
  - reflexivity.
  - reflexivity.
  - discriminate.
  - reflexivity.
Defined.


(** ** Converting a directory *)

Section ConvertDirectoryFacts.

Context {F : Type} {FO : Float64 F}.
Variable apply_voi_lut : ndarray F -> Dataset F -> result (ndarray F).
Variable decompress : Dataset F -> result (Dataset F).
Variable Image : Type.
Variable fromarray : ndarray F -> image_mode -> result Image.
Variable image_size : Image -> N * N.
Variable World : Type.
Variable Path : Type.
Variable path_exists : World -> Path -> result bool.
Variable mkdir : Path -> World -> result unit * World.
Variable dcmread : World -> Path -> result (Dataset F).
Variable save : Image -> Path -> Z -> World -> result unit * World.
Variable stem : Path -> string.
Variable joinpath : Path -> string -> Path.
Variable str : Path -> string.
Variable jpeg_quality : Z.
Variable depth : nat.
Variable is_dir : World -> Path -> result bool.
Variable glob : World -> Path -> string -> result (list Path).
Variable iterdir : World -> Path -> result (list Path).
Variable is_file : World -> Path -> result bool.
Variable suffix : Path -> string.
Variable name : Path -> string.
Variable dcmread_header : World -> Path -> result (Header F).
Variable dcm_extensions : list string.

Local Abbreviation convert :=
  (convert_dicom apply_voi_lut decompress fromarray image_size path_exists
     mkdir dcmread save stem joinpath str jpeg_quality depth).
Local Abbreviation convert_each :=
  (convert_all apply_voi_lut decompress fromarray image_size path_exists
     mkdir dcmread save stem joinpath str jpeg_quality depth).
Local Abbreviation find :=
  (find_dicom_files glob iterdir is_file suffix name dcmread_header
     dcm_extensions).
Local Abbreviation convert_dir :=
  (convert_directory apply_voi_lut decompress fromarray image_size path_exists
     mkdir dcmread save stem joinpath str jpeg_quality depth is_dir glob
     iterdir is_file suffix name dcmread_header dcm_extensions).

Lemma convert_dicom_paths (p out : Path) (w w' : World) (paths : list string) :
  convert p out w = (Ok paths, w') ->
  paths = [] \/ paths = [str (joinpath out (stem p ++ ".jpg"))].
Proof.
  unfold convert_dicom.
  destruct (path_exists w p) as [[|]|]; [|intros [= <- _]; now left|discriminate].
  destruct (mkdir out w) as [[[]|] w1]; [|discriminate].
  destruct (convert_read apply_voi_lut decompress fromarray image_size dcmread
              save stem joinpath str jpeg_quality depth p out w1)
    as [ps w2] eqn:Hr.
  intros [= <- <-]. apply convert_read_inv in Hr.
  destruct Hr as [H|[ds [frame [rest [im [_ [_ [_ [_ Hp]]]]]]]]];
    [now left|now right].
Qed.

Lemma convert_all_inv (out : Path) (files : list Path) :
  forall (done : list string) (w w' : World) (paths : list string),
    convert_each files out done w = (Ok paths, w') ->
    exists new,
      paths = done ++ new /\ (length new <= length files)%nat /\
      Forall (fun path =>
                exists f, In f files /\
                          path = str (joinpath out (stem f ++ ".jpg"))) new.
Proof.
  induction files as [|f files IH]; intros done w w' paths; simpl.
  - intros [= <- _]. exists []. rewrite app_nil_r. repeat split; auto.
  - destruct (convert f out w) as [[results|e] w1] eqn:Hc; [|discriminate].
    intros H. apply IH in H. destruct H as [new [-> [Hlen Hall]]].
    exists (results ++ new). rewrite app_assoc. split; [reflexivity|].
    apply convert_dicom_paths in Hc.
    split.
    + rewrite length_app. destruct Hc as [->| ->]; simpl; lia.
    + apply Forall_app. split.
      * destruct Hc as [->| ->]; constructor; [|constructor].
        exists f. split; [now left|reflexivity].
      * eapply Forall_impl; [|exact Hall].
        intros path [g [Hg ->]]. exists g. split; [now right|reflexivity].
Qed.

(** X19: what [convert_directory] returns.  When the directory is missing or
    no DICOM file is found in it, the list is empty and the file system is
    untouched (the output directory is not made).  Otherwise the list holds
    at most one path for each file found, and each path is
    [input_dir / output_folder_name / (stem + ".jpg")] for the stem of a file
    found. *)
Theorem convert_directory_paths (input_dir : Path) (output_folder_name : string)
    (w w' : World) (paths : list string) :
  convert_dir input_dir output_folder_name w = (Ok paths, w') ->
  (paths = [] /\ w' = w /\
   (is_dir w input_dir = Ok false \/
    find input_dir output_folder_name w = Ok [])) \/
  exists dcm_files,
    find input_dir output_folder_name w = Ok dcm_files /\
    (length paths <= length dcm_files)%nat /\
    Forall (fun path =>
              exists f, In f dcm_files /\
                path = str (joinpath (joinpath input_dir output_folder_name)
                                     (stem f ++ ".jpg")))
           paths.
Proof.
  unfold convert_directory.
  destruct (is_dir w input_dir) as [[|]|]; [| |discriminate].
  - cbv zeta.
    destruct (find input_dir output_folder_name w) as [[|f files]|] eqn:Hf;
      [| |discriminate].
    + intros [= <- <-]. left. repeat split. now right.
    + intros H. right. exists (f :: files). split; [reflexivity|].
      apply convert_all_inv in H. destruct H as [new [-> [Hlen Hall]]].
      now split.
  - intros [= <- <-]. left. repeat split. now left.
Qed.

End ConvertDirectoryFacts.

Lemma convert_directory_paths_witness :
  (["studies/converted_jpegs/scan.jpg"%string] = [] /\
   snd (convert_directory_example
          (Examples.dataset_of Examples.two_frames None None None)) = [] /\
   (is_file_example [] "studies"%string = Ok false \/
    find_example (Examples.dataset_of Examples.two_frames None None None)
    = Ok [])) \/
  exists dcm_files,
    find_example (Examples.dataset_of Examples.two_frames None None None)
    = Ok dcm_files /\
    (length ["studies/converted_jpegs/scan.jpg"%string]
     <= length dcm_files)%nat /\
    Forall (fun path =>
              exists f, In f dcm_files /\
                path = Files.str (Files.joinpath
                                    (Files.joinpath "studies"%string
                                       "converted_jpegs"%string)
                                    (Files.stem f ++ ".jpg")))
           ["studies/converted_jpegs/scan.jpg"%string].
Proof.
  apply (convert_directory_paths Examples.voi_lut_unchanged
           Examples.decompress_raises Files.image Files.fromarray
           Files.image_size Files.world string Files.path_exists Files.mkdir
           (Files.dcmread (Examples.dataset_of Examples.two_frames None None None))
           Files.save Files.stem Files.joinpath Files.str 95 1
           is_file_example glob_example iterdir_example is_file_example
           suffix_example Files.str
           (header_example 3 4 (Examples.dataset_of Examples.two_frames None None None))
           [".dcm"; ".dicom"; ".dic"]%string
           "studies"%string "converted_jpegs"%string []).
  reflexivity.
Defined.


(** ** The files found in a directory *)

Section FindFacts.

Context {F : Type}.
Variable World : Type.
Variable Path : Type.
Variable glob : World -> Path -> string -> result (list Path).
Variable iterdir : World -> Path -> result (list Path).
Variable is_file : World -> Path -> result bool.
Variable suffix : Path -> string.
Variable name : Path -> string.
Variable dcmread_header : World -> Path -> result (Header F).

Lemma glob_extensions_keeps (w : World) (input_dir : Path) (ext : string)
    (lower uppercase : list Path) (extensions : list string) :
  forall found,
    In ext extensions ->
    glob w input_dir ("*" ++ ext) = Ok lower ->
    glob w input_dir ("*" ++ upper ext) = Ok uppercase ->
    glob_extensions glob extensions input_dir w = Ok found ->
    exists before after, found = before ++ lower ++ uppercase ++ after.
Proof.
  induction extensions as [|e rest IH]; intros found Hin Hl Hu; [destruct Hin|].
  cbn [glob_extensions].
  destruct (glob w input_dir ("*" ++ e)) as [l1|] eqn:E1; cbn [bind];
    [|discriminate].
  destruct (glob w input_dir ("*" ++ upper e)) as [l2|] eqn:E2; cbn [bind];
    [|discriminate].
  destruct (glob_extensions glob rest input_dir w) as [more|] eqn:E3; cbn [bind];
    [|discriminate].
  intros [= <-]. destruct Hin as [->|Hin].
  - rewrite Hl in E1. injection E1 as <-. rewrite Hu in E2. injection E2 as <-.
    now exists [], more.
  - destruct (IH more Hin Hl Hu eq_refl) as [before [after ->]].
    exists (l1 ++ l2 ++ before), after. now rewrite <- !app_assoc.
Qed.

(** X20: the files found are not deduplicated.  For each extension, what
    [glob] returns for the lower-case pattern and what it returns for the
    upper-case one both go into [dcm_files], one after the other; a file
    that both patterns match, as on a file system that ignores case, is
    listed twice and so converted twice. *)
Theorem found_files_keep_both_globs (dcm_extensions : list string)
    (input_dir : Path) (output_folder_name : string) (w : World)
    (ext : string) (lower uppercase dcm_files : list Path) :
  In ext dcm_extensions ->
  glob w input_dir ("*" ++ ext) = Ok lower ->
  glob w input_dir ("*" ++ upper ext) = Ok uppercase ->
  find_dicom_files glob iterdir is_file suffix name dcmread_header
    dcm_extensions input_dir output_folder_name w = Ok dcm_files ->
  exists before after, dcm_files = before ++ lower ++ uppercase ++ after.
Proof.
  intros Hin Hl Hu. unfold find_dicom_files.
  destruct (glob_extensions glob dcm_extensions input_dir w) as [found|] eqn:Hg;
    simpl; [|discriminate].
  destruct (iterdir w input_dir) as [entries|]; simpl; [|discriminate].
  destruct (extensionless is_file suffix name dcmread_header entries
              output_folder_name w) as [without|]; simpl; [|discriminate].
  intros [= <-].
  destruct (glob_extensions_keeps w input_dir ext lower uppercase
              dcm_extensions found Hin Hl Hu Hg) as [before [after ->]].
  exists before, (after ++ without). now rewrite <- !app_assoc.
Qed.

End FindFacts.

Lemma found_files_keep_both_globs_witness :
  exists before after,
    ["scan.dcm"; "scan.dcm"]%string
    = before ++ ["scan.dcm"%string] ++ ["scan.dcm"%string] ++ after.
Proof.
  apply (@found_files_keep_both_globs float Files.world string
           (fun _ _ _ => Ok ["scan.dcm"%string])
           (fun _ _ => Ok []) is_file_example suffix_example Files.str
           (header_example 3 4
              (Examples.dataset_of Examples.two_frames None None None))
           [".dcm"%string] "studies"%string "converted_jpegs"%string []
           ".dcm"%string);
    try reflexivity.
  now left.
Defined.


(** ** MONOCHROME1 on frames whose spread fits the dtype *)

Lemma dtype_min_nonpos (t : int_dtype) : dtype_min t <= 0.
Proof.
  unfold dtype_min. destruct (signed t); [|lia].
  pose proof (Z.pow_nonneg 2 (Z.of_N (bits t) - 1) ltac:(lia)). lia.
Qed.

(** X21: the counterpart of the int16 wrap.  On an integer frame in which
    no two elements differ by more than the dtype's maximum - every frame
    of an unsigned dtype is one - the MONOCHROME1 inversion is exact: with m
    the largest element, each element v becomes m - v, so the largest
    becomes 0 and the order of the elements is reversed. *)
Theorem monochrome1_inversion_is_exact {F : Type} {FO : Float64 F}
    (s : list N) (t : int_dtype) (l : list Z) (ds : Dataset F) :
  photometric ds = "MONOCHROME1"%string ->
  l <> [] ->
  (forall v w, In v l -> In w l -> w - v <= dtype_max t) ->
  exists m,
    In m l /\ (forall v, In v l -> v <= m) /\
    invert_monochrome1 (NdArray s (IntBuf t l)) ds
    = Ok (NdArray s (IntBuf t (map (fun v => m - v) l))).
Proof.
  intros Hph Hne Hspread. destruct l as [|x l]; [contradiction|].
  destruct (fold_max_spec l x) as [Hx [Hl Hin]].
  exists (fold_left Z.max l x). split; [exact Hin|]. split.
  - intros v [<-|Hv]; [exact Hx|now apply Hl].
  - unfold invert_monochrome1. rewrite Hph. simpl String.eqb. cbv iota.
    unfold np_max. cbn [buf reduce bind]. unfold scalar_minus_array.
    cbn [buf shape]. do 3 f_equal. apply map_ext_in. intros v Hv.
    apply wrap_in_range. unfold in_range.
    assert (H1 : v <= fold_left Z.max l x).
    { destruct Hv as [<-|Hv]; [exact Hx|now apply Hl]. }
    pose proof (Hspread v (fold_left Z.max l x) Hv Hin) as H2.
    pose proof (dtype_min_nonpos t) as H3.
    apply andb_true_iff. split; apply Z.leb_le; lia.
Qed.

Lemma monochrome1_inversion_is_exact_witness :
  exists m,
    In m [0; 10; 20; 30] /\ (forall v, In v [0; 10; 20; 30] -> v <= m) /\
    invert_monochrome1
      (NdArray [2; 2]%N (@IntBuf float uint16 [0; 10; 20; 30]))
      (Examples.dataset_of
         (NdArray [2; 2]%N (@IntBuf float uint16 [0; 10; 20; 30]))
         (Some "MONOCHROME1"%string) None None)
    = Ok (NdArray [2; 2]%N
            (IntBuf uint16 (map (fun v => m - v) [0; 10; 20; 30]))).
Proof.
  apply (monochrome1_inversion_is_exact [2; 2]%N uint16 [0; 10; 20; 30]).
  - reflexivity.
  - discriminate.
  - intros v w Hv Hw. change (dtype_max uint16) with 65535.
    simpl in Hv, Hw.
    destruct Hv as [<-|[<-|[<-|[<-|[]]]]];
      destruct Hw as [<-|[<-|[<-|[<-|[]]]]]; lia.
Defined.
